(** * Authentication and abuse-control core of the WebAPI service

    A shallow embedding of the TypeScript sources
    (server/auth.ts, server/routes.ts, server/utils/verification.ts,
    server/storage.ts, shared/schema.ts) and of the library calls they
    rely on (Node's crypto, bcryptjs, Express), followed by the theorems
    that settle the specification's claims against that code. *)

From stdpp Require Import gmap strings list pretty.
From Stdlib Require Import ZArith Lia Ascii.
From Bignums Require BigZ.

Local Open Scope Z_scope.
Local Set Warnings "-register-all".

(** ** JavaScript values

    A JavaScript string is modelled as a Rocq [string] whose characters
    are UTF-16 code units in the range 0..255; [String.length] is then
    the JavaScript [.length].  Numbers that the code uses as integers
    (timestamps in milliseconds, counters, limits) are [Z]. *)

Module Js.

Inductive JsError :=
| TypeError (msg : string)
| RangeError (msg : string)
| Error (msg : string).

(** The result of a call that may throw (or of a promise that may
    reject). *)
Inductive Exn (A : Type) :=
| Ok (a : A)
| Throw (e : JsError).
Arguments Ok {A} a.
Arguments Throw {A} e.

#[export] Instance JsError_eq_dec : EqDecision JsError.
Proof. solve_decision. Defined.

#[export] Instance Exn_eq_dec {A : Type} `{EqDecision A}
  : EqDecision (Exn A).
Proof. solve_decision. Defined.

Definition bind {A B} (m : Exn A) (k : A -> Exn B) : Exn B :=
  match m with
  | Ok a => k a
  | Throw e => Throw e
  end.

(** A token made by [jwt.sign(payload, secret, { expiresIn })] of the
    jsonwebtoken library, kept as the structure that was signed rather
    than as its compact serialisation: the claims, the signing secret,
    the [expiresIn] option and the issue time in seconds. *)
Record Jwt := {
  jwt_payload : list (string * string);
  jwt_secret : string;
  jwt_expiresIn : string;
  jwt_iat : Z
}.

(** Values as they arrive in a parsed JSON body and as they leave in a
    JSON response; [VJwt t] is the string that serialises [t]. *)
Inductive value :=
| VUndefined
| VNull
| VBool (b : bool)
| VNum (n : Z)
| VStr (s : string)
| VJwt (t : Jwt)
| VObj (fields : list (string * value)).

(** [!v] is false exactly on truthy values. *)
Definition truthy (v : value) : bool :=
  match v with
  | VUndefined | VNull => false
  | VBool b => b
  | VNum n => negb (n =? 0)
  | VStr s => negb (String.eqb s "")
  | VJwt _ => true
  | VObj _ => true
  end.

(** [typeof v] *)
Definition typeof (v : value) : string :=
  match v with
  | VUndefined => "undefined"
  | VNull | VObj _ => "object"
  | VBool _ => "boolean"
  | VNum _ => "number"
  | VStr _ | VJwt _ => "string"
  end.

(** [a ?? b] *)
Definition nullish (a b : value) : value :=
  match a with
  | VUndefined | VNull => b
  | _ => a
  end.

(** Property read [o.k]; a missing property reads as [undefined]. *)
Fixpoint assoc (k : string) (fields : list (string * value)) : value :=
  match fields with
  | [] => VUndefined
  | (k', v) :: rest => if String.eqb k k' then v else assoc k rest
  end.

Definition get (o : value) (k : string) : value :=
  match o with
  | VObj fields => assoc k fields
  | _ => VUndefined
  end.

(** [s || d] on an optional string: the empty string and [undefined]
    are both falsy. *)
Definition str_or (s : option string) (d : string) : string :=
  match s with
  | Some x => if String.eqb x "" then d else x
  | None => d
  end.

Definition present (s : option string) : bool :=
  match s with
  | Some x => negb (String.eqb x "")
  | None => false
  end.

(** White space of ECMAScript ([String.prototype.trim], regex [\s])
    among the code units below 256: TAB, LF, VT, FF, CR, SP, NBSP. *)
Definition isSpace (c : Ascii.ascii) : bool :=
  let n := Z.of_N (Ascii.N_of_ascii c) in
  ((9 <=? n) && (n <=? 13)) || (n =? 32) || (n =? 160).

Fixpoint trimStart (s : string) : string :=
  match s with
  | String c rest => if isSpace c then trimStart rest else s
  | EmptyString => EmptyString
  end.

Fixpoint trimEnd (s : string) : string :=
  match s with
  | EmptyString => EmptyString
  | String c rest =>
      match trimEnd rest with
      | EmptyString => if isSpace c then EmptyString else String c EmptyString
      | t => String c t
      end
  end.

Definition trim (s : string) : string := trimEnd (trimStart s).

(** [toLowerCase] on code units below 256: A-Z and the Latin-1 capitals
    U+00C0..U+00DE (U+00D7, the multiplication sign, excepted) move up
    by 32. *)
Definition lowerChar (c : Ascii.ascii) : Ascii.ascii :=
  let n := Z.of_N (Ascii.N_of_ascii c) in
  if ((65 <=? n) && (n <=? 90))
     || ((192 <=? n) && (n <=? 222) && negb (n =? 215))
  then Ascii.ascii_of_N (Z.to_N (n + 32))
  else c.

Fixpoint toLowerCase (s : string) : string :=
  match s with
  | EmptyString => EmptyString
  | String c rest => String (lowerChar c) (toLowerCase rest)
  end.

(** [s.repeat(n)] *)
Fixpoint repeat (s : string) (n : nat) : string :=
  match n with
  | O => ""
  | S n' => s +:+ repeat s n'
  end.

(** [Math.ceil(a / b)] for an integer [a] and a positive integer [b]. *)
Definition ceilDiv (a b : Z) : Z := - ((- a) / b).

(** [Array.prototype.includes] on an array of strings. *)
Definition includes (l : list string) (x : string) : bool :=
  existsb (String.eqb x) l.

End Js.
Export Js.

(** ** Express requests, responses and middleware *)

Module Express.

Record ReqUser := {
  user_id : string;
  user_username : string;
  user_role : option string
}.

(** A value of [req.query] as the query parser of Express hands it
    over: a string for [k=x], an array for [k[]=x] or a key given more
    than once, an object for [k[a]=x]. *)
Inductive qvalue :=
| QStr (s : string)
| QArr (items : list qvalue)
| QObj (fields : list (string * qvalue)).

Record Request := {
  req_ip : option string;               (* req.ip *)
  req_remoteAddress : option string;    (* req.connection.remoteAddress *)
  req_apiKey : option string;           (* req.headers['x-api-key'] *)
  req_origin : option string;           (* req.headers.origin *)
  req_referer : option string;          (* req.headers.referer *)
  req_authorization : option string;    (* req.headers.authorization *)
  req_user : option ReqUser;            (* req.user *)
  req_body : value;                     (* req.body *)
  req_query : list (string * qvalue)    (* req.query *)
}.

(** [req.query.k] *)
Fixpoint query (k : string) (q : list (string * qvalue)) : option qvalue :=
  match q with
  | [] => None
  | (k', v) :: rest => if String.eqb k k' then Some v else query k rest
  end.

(** [!!v] for what [req.query.k] reads: [undefined] and the empty
    string are falsy, arrays and objects are truthy whatever they
    hold. *)
Definition truthyQ (v : option qvalue) : bool :=
  match v with
  | None => false
  | Some (QStr s) => negb (String.eqb s "")
  | Some _ => true
  end.

Record Response := {
  status : Z;
  body : value
}.

(** What a middleware does with a request: hand over to the next one,
    answer, or fail ([next(err)] or an uncaught exception, which Express
    turns into an error response outside these sources). *)
Inductive Outcome :=
| Next
| Respond (r : Response)
| Fail (e : JsError).

Definition json (code : Z) (fields : list (string * value)) : Outcome :=
  Respond {| status := code; body := VObj fields |}.

End Express.
Export Express.


(** ** Node's crypto: SHA-256, hex digests, buffers

    [crypto.createHash('sha256').update(s).digest('hex')] follows
    FIPS 180-4; 32-bit words are [Z] values reduced modulo 2^32. *)

Module Crypto.

(** [Buffer.from(s)]: the UTF-8 encoding of a string of code units
    below 256 (one byte below 128, two bytes from 128 on). *)
Fixpoint bufferFrom (s : string) : list Z :=
  match s with
  | EmptyString => []
  | String c rest =>
      let n := Z.of_N (Ascii.N_of_ascii c) in
      if n <? 128 then n :: bufferFrom rest
      else Z.lor 192 (Z.shiftr n 6) :: Z.lor 128 (Z.land n 63)
           :: bufferFrom rest
  end.

Definition w32 (x : Z) : Z := x mod 2 ^ 32.
Definition add32 (x y : Z) : Z := w32 (x + y).
Definition rotr (n x : Z) : Z :=
  Z.lor (Z.shiftr x n) (w32 (Z.shiftl x (32 - n))).
Definition not32 (x : Z) : Z := Z.lxor x (2 ^ 32 - 1).

Definition Ch (x y z : Z) : Z := Z.lxor (Z.land x y) (Z.land (not32 x) z).
Definition Maj (x y z : Z) : Z :=
  Z.lxor (Z.lxor (Z.land x y) (Z.land x z)) (Z.land y z).
Definition bigSigma0 (x : Z) : Z :=
  Z.lxor (Z.lxor (rotr 2 x) (rotr 13 x)) (rotr 22 x).
Definition bigSigma1 (x : Z) : Z :=
  Z.lxor (Z.lxor (rotr 6 x) (rotr 11 x)) (rotr 25 x).
Definition smallSigma0 (x : Z) : Z :=
  Z.lxor (Z.lxor (rotr 7 x) (rotr 18 x)) (Z.shiftr x 3).
Definition smallSigma1 (x : Z) : Z :=
  Z.lxor (Z.lxor (rotr 17 x) (rotr 19 x)) (Z.shiftr x 10).

(** The round constants are the first 32 bits of the fractional parts
    of the cube roots of the first 64 primes, the initial hash value
    those of the square roots of the first 8 primes. *)
Definition primes64 : list Z :=
  [2; 3; 5; 7; 11; 13; 17; 19; 23; 29; 31; 37; 41; 43; 47; 53;
   59; 61; 67; 71; 73; 79; 83; 89; 97; 101; 103; 107; 109; 113; 127; 131;
   137; 139; 149; 151; 157; 163; 167; 173; 179; 181; 191; 193; 197; 199;
   211; 223; 227; 229; 233; 239; 241; 251; 257; 263; 269; 271; 277; 281;
   283; 293; 307; 311].

(** Largest [r] below [2^bits] with [r^3 <= n], one bit at a time. *)
Fixpoint cubeRootBits (bits : nat) (n r : Z) : Z :=
  match bits with
  | O => r
  | S b =>
      let r' := r + 2 ^ Z.of_nat b in
      cubeRootBits b n (if r' * r' * r' <=? n then r' else r)
  end.

Definition roundConstants : list Z :=
  Eval vm_compute in
    map (fun p => w32 (cubeRootBits 40 (p * 2 ^ 96) 0)) primes64.

Definition initialHash : list Z :=
  Eval vm_compute in
    map (fun p => w32 (Z.sqrt (p * 2 ^ 64))) (take 8 primes64).

Record HashState := {
  ha : Z; hb : Z; hc : Z; hd : Z; he : Z; hf : Z; hg : Z; hh : Z
}.

Definition H0 : HashState :=
  match initialHash with
  | [a; b; c; d; e; f; g; h] =>
      {| ha := a; hb := b; hc := c; hd := d;
         he := e; hf := f; hg := g; hh := h |}
  | _ => {| ha := 0; hb := 0; hc := 0; hd := 0;
            he := 0; hf := 0; hg := 0; hh := 0 |}
  end.

(** Padding: a 1 bit, zeros up to 56 modulo 64 bytes, then the length
    in bits as a 64-bit big-endian number. *)
Fixpoint bigEndian (n : nat) (x : Z) : list Z :=
  match n with
  | O => []
  | S k => (x / 2 ^ (8 * Z.of_nat k)) mod 256 :: bigEndian k x
  end.

Definition pad (msg : list Z) : list Z :=
  let len := Z.of_nat (length msg) in
  msg ++ [128] ++ replicate (Z.to_nat ((55 - len) mod 64)) 0
      ++ bigEndian 8 (8 * len).

Fixpoint wordsOf (bytes : list Z) : list Z :=
  match bytes with
  | b0 :: b1 :: b2 :: b3 :: rest =>
      (((b0 * 256 + b1) * 256 + b2) * 256 + b3) :: wordsOf rest
  | _ => []
  end.

(** The message schedule: [win] holds W(t) .. W(t+15). *)
Fixpoint schedule (n : nat) (win : list Z) : list Z :=
  match n, win with
  | S n', w0 :: rest =>
      let next :=
        add32 (add32 (smallSigma1 (nth 14 win 0)) (nth 9 win 0))
              (add32 (smallSigma0 (nth 1 win 0)) w0) in
      w0 :: schedule n' (rest ++ [next])
  | _, _ => []
  end.

Definition round (s : HashState) (kw : Z * Z) : HashState :=
  let t1 :=
    add32 (add32 (add32 (hh s) (bigSigma1 (he s)))
                 (add32 (Ch (he s) (hf s) (hg s)) (fst kw))) (snd kw) in
  let t2 := add32 (bigSigma0 (ha s)) (Maj (ha s) (hb s) (hc s)) in
  {| ha := add32 t1 t2; hb := ha s; hc := hb s; hd := hc s;
     he := add32 (hd s) t1; hf := he s; hg := hf s; hh := hg s |}.

Definition compress (s : HashState) (block : list Z) : HashState :=
  let w := schedule 64 (wordsOf block) in
  let r := fold_left round (zip roundConstants w) s in
  {| ha := add32 (ha s) (ha r); hb := add32 (hb s) (hb r);
     hc := add32 (hc s) (hc r); hd := add32 (hd s) (hd r);
     he := add32 (he s) (he r); hf := add32 (hf s) (hf r);
     hg := add32 (hg s) (hg r); hh := add32 (hh s) (hh r) |}.

Fixpoint blocks (fuel : nat) (s : HashState) (bytes : list Z) : HashState :=
  match fuel, bytes with
  | S fuel', _ :: _ => blocks fuel' (compress s (take 64 bytes)) (drop 64 bytes)
  | _, _ => s
  end.

Definition sha256 (msg : list Z) : HashState :=
  let p := pad msg in blocks (length p) H0 p.

(** Lower-case hexadecimal, eight digits per word. *)
Definition hexDigit (d : Z) : Ascii.ascii :=
  Ascii.ascii_of_N (Z.to_N (if d <? 10 then 48 + d else 87 + d)).

Definition hex32 (x : Z) (tail : string) : string :=
  String (hexDigit ((x / 2 ^ 28) mod 16))
 (String (hexDigit ((x / 2 ^ 24) mod 16))
 (String (hexDigit ((x / 2 ^ 20) mod 16))
 (String (hexDigit ((x / 2 ^ 16) mod 16))
 (String (hexDigit ((x / 2 ^ 12) mod 16))
 (String (hexDigit ((x / 2 ^ 8) mod 16))
 (String (hexDigit ((x / 2 ^ 4) mod 16))
 (String (hexDigit (x mod 16)) tail))))))).

Definition hexDigest (s : HashState) : string :=
  hex32 (ha s) (hex32 (hb s) (hex32 (hc s) (hex32 (hd s)
 (hex32 (he s) (hex32 (hf s) (hex32 (hg s) (hex32 (hh s) ""))))))).

(** [crypto.createHash('sha256').update(s).digest('hex')] *)
Definition sha256Hex (s : string) : string :=
  hexDigest (sha256 (bufferFrom s)).

(** The byte-by-byte comparison of [crypto.timingSafeEqual]: every
    pair of bytes is combined, none decides early. *)
Fixpoint fixedTimeDiff (a b : list Z) (acc : Z) : Z :=
  match a, b with
  | x :: a', y :: b' => fixedTimeDiff a' b' (Z.lor acc (Z.lxor x y))
  | _, _ => acc
  end.

(** [crypto.timingSafeEqual(a, b)]: Node throws a RangeError when the
    two buffers differ in byte length. *)
Definition timingSafeEqual (a b : list Z) : Exn bool :=
  if negb (length a =? length b)%nat then
    Throw (RangeError "Input buffers must have the same byte length")
  else Ok (fixedTimeDiff a b 0 =? 0).

End Crypto.

(** ** server/utils/verification.ts *)

Module Verification.

(** The local time zone of the process as ECMAScript reads it, in
    milliseconds: [LocalTZA(t, true)], the offset of local time from
    UTC at the UTC instant [t], and [LocalTZA(t, false)], the offset at
    the local time [t]. *)
Record TimeZone := {
  offsetAtUTC : Z -> Z;
  offsetAtLocal : Z -> Z
}.

(** [createVerificationExpiry()], with [now] for [new Date()]:
    [setHours(getHours() + 24)] moves the local time of [now] on by 24
    hours and converts that local time back to an instant. *)
Definition createVerificationExpiry (zone : TimeZone) (now : Z) : Z :=
  let localNow := now + offsetAtUTC zone now in
  let localExpiry := localNow + 24 * 60 * 60 * 1000 in
  localExpiry - offsetAtLocal zone localExpiry.

(** [isVerificationExpired(expiryDate)], with [now] for [new Date()]. *)
Definition isVerificationExpired (now expiryDate : Z) : bool :=
  now >? expiryDate.

(** [hashVerificationToken(token)] *)
Definition hashVerificationToken (token : string) : string :=
  Crypto.sha256Hex token.

(** [verifyTokenHash(token, hash)] *)
Definition verifyTokenHash (token hash : string) : Exn bool :=
  let tokenHash := hashVerificationToken token in
  Crypto.timingSafeEqual (Crypto.bufferFrom tokenHash) (Crypto.bufferFrom hash).

End Verification.

(** ** bcryptjs

    The password hashing library behind [passwordUtils], after the
    sources of bcryptjs 2.4.3 (dist/bcrypt.js).  The entries of the
    [Int32Array]s are kept as their residues modulo 2^32. *)

Module Bcrypt.

Definition BCRYPT_SALT_LEN : Z := 16.
Definition GENSALT_DEFAULT_LOG2_ROUNDS : Z := 10.

Definition m32 (x : Z) : Z := Z.land x (2 ^ 32 - 1).

(** *** The Blowfish tables

    [P_ORIG] and [S_ORIG] are the fractional hexadecimal digits of pi,
    18 and then 4 * 256 words of 32 bits.  They are computed here from
    Machin's formula in fixed point, with 64 guard bits (on
    Bignums' integers, which evaluate fast). *)

Fixpoint arctanSeries (fuel : nat) (x2 term k : BigZ.bigZ) (plus : bool)
    (acc : BigZ.bigZ) : BigZ.bigZ :=
  match fuel with
  | O => acc
  | S fuel' =>
      if BigZ.BigZ.eqb term (BigZ.BigZ.of_Z 0) then acc
      else
        arctanSeries fuel' x2 (BigZ.BigZ.div term x2)
          (BigZ.BigZ.add k (BigZ.BigZ.of_Z 2)) (negb plus)
          (if plus then BigZ.BigZ.add acc (BigZ.BigZ.div term k)
           else BigZ.BigZ.sub acc (BigZ.BigZ.div term k))
  end.

(** [scale * arctan (1 / x)], truncated. *)
Definition arctanInv (x scale : Z) : BigZ.bigZ :=
  arctanSeries (90 * 100) (BigZ.BigZ.of_Z (x * x))
    (BigZ.BigZ.div (BigZ.BigZ.of_Z scale) (BigZ.BigZ.of_Z x))
    (BigZ.BigZ.of_Z 1) true (BigZ.BigZ.of_Z 0).

Definition piFraction (bits : Z) : Z :=
  let scale := 2 ^ (bits + 64) in
  let pi :=
    BigZ.BigZ.to_Z
      (BigZ.BigZ.sub
         (BigZ.BigZ.mul (BigZ.BigZ.of_Z 16) (arctanInv 5 scale))
         (BigZ.BigZ.mul (BigZ.BigZ.of_Z 4) (arctanInv 239 scale))) in
  Z.land (Z.shiftr pi 64) (2 ^ bits - 1).

Fixpoint wordsFrom (n : nat) (x : Z) (acc : list Z) : list Z :=
  match n with
  | O => acc
  | S n' => wordsFrom n' (Z.shiftr x 32) (m32 x :: acc)
  end.

Definition piWords : list Z :=
  Eval vm_compute in wordsFrom 1042 (piFraction (32 * 1042)) [].

Definition P_ORIG : list Z := Eval vm_compute in take 18 piWords.
Definition S_ORIG : list Z := Eval vm_compute in drop 18 piWords.

(** "OrpheanBeholderScryDoubt" as six big-endian words. *)
Definition C_ORIG : list Z :=
  Eval vm_compute in
    Crypto.wordsOf (Crypto.bufferFrom "OrpheanBeholderScryDoubt").

(** *** The radix-64 encoding of bcrypt *)

Definition BASE64_CODE : string :=
  "./ABCDEFGHIJKLMNOPQRSTUVWXYZabcdefghijklmnopqrstuvwxyz0123456789".

Definition base64Char (i : Z) : Ascii.ascii :=
  match String.get (Z.to_nat i) BASE64_CODE with
  | Some c => c
  | None => Ascii.zero
  end.

(** [BASE64_INDEX[code]], or -1 where the table has none. *)
Definition base64Index (c : Ascii.ascii) : Z :=
  let code := Z.of_N (Ascii.N_of_ascii c) in
  if (code =? 46) || (code =? 47) then code - 46
  else if (65 <=? code) && (code <=? 90) then code - 65 + 2
  else if (97 <=? code) && (code <=? 122) then code - 97 + 28
  else if (48 <=? code) && (code <=? 57) then code - 48 + 54
  else -1.

Fixpoint base64_encode_loop (b : list Z) : string :=
  match b with
  | [] => ""
  | [x] =>
      let c1 := Z.land x 255 in
      String (base64Char (Z.land (Z.shiftr c1 2) 63))
     (String (base64Char (Z.land (Z.shiftl (Z.land c1 3) 4) 63)) "")
  | [x; y] =>
      let c1 := Z.land x 255 in
      let c2 := Z.land y 255 in
      String (base64Char (Z.land (Z.shiftr c1 2) 63))
     (String (base64Char
                (Z.land (Z.lor (Z.shiftl (Z.land c1 3) 4)
                               (Z.land (Z.shiftr c2 4) 15)) 63))
     (String (base64Char (Z.land (Z.shiftl (Z.land c2 15) 2) 63)) ""))
  | x :: y :: z :: rest =>
      let c1 := Z.land x 255 in
      let c2 := Z.land y 255 in
      let c3 := Z.land z 255 in
      String (base64Char (Z.land (Z.shiftr c1 2) 63))
     (String (base64Char
                (Z.land (Z.lor (Z.shiftl (Z.land c1 3) 4)
                               (Z.land (Z.shiftr c2 4) 15)) 63))
     (String (base64Char
                (Z.land (Z.lor (Z.shiftl (Z.land c2 15) 2)
                               (Z.land (Z.shiftr c3 6) 3)) 63))
     (String (base64Char (Z.land c3 63)) (base64_encode_loop rest))))
  end.

(** [base64_encode(b, len)] *)
Definition base64_encode (b : list Z) (len : Z) : Exn string :=
  if (len <=? 0) || (len >? Z.of_nat (length b)) then
    Throw (Error ("Illegal len: " +:+ pretty len))
  else Ok (base64_encode_loop (take (Z.to_nat len) b)).

(** The loop of [base64_decode(s, len)]; [n] counts the bytes still
    wanted ([len - olen]). *)
Fixpoint base64_decode_loop (s : string) (n : nat) : list Z :=
  match n, s with
  | S n1, String a (String b rest) =>
      let c1 := base64Index a in
      let c2 := base64Index b in
      if (c1 =? -1) || (c2 =? -1) then []
      else
        let o1 := Z.lor (Z.shiftl c1 2) (Z.shiftr (Z.land c2 48) 4) in
        match n1, rest with
        | S n2, String c rest3 =>
            let c3 := base64Index c in
            if c3 =? -1 then [o1]
            else
              let o2 :=
                Z.lor (Z.shiftl (Z.land c2 15) 4)
                      (Z.shiftr (Z.land c3 60) 2) in
              match n2, rest3 with
              | S n3, String d rest4 =>
                  let c4 := base64Index d in
                  let o3 :=
                    if c4 =? -1 then 65535
                    else Z.lor (Z.shiftl (Z.land c3 3) 6) c4 in
                  o1 :: o2 :: o3 :: base64_decode_loop rest4 n3
              | _, _ => [o1; o2]
              end
        | _, _ => [o1]
        end
  | _, _ => []
  end.

(** [base64_decode(s, len)] *)
Definition base64_decode (s : string) (len : Z) : Exn (list Z) :=
  if len <=? 0 then Throw (Error ("Illegal len: " +:+ pretty len))
  else Ok (base64_decode_loop s (Z.to_nat len)).

(** *** Blowfish *)

(** An [Int32Array]: a finite map from index to word; an index that
    was never written reads as 0. *)
Definition array := gmap Z Z.

Definition fromList (l : list Z) : array :=
  list_to_map (zip (seqZ 0 (Z.of_nat (length l))) l).

Definition rd (a : array) (i : Z) : Z := default 0 (a !! i).

(** [_encipher]'s round function on the left half [l]. *)
Definition feistel (S : array) (l : Z) : Z :=
  let n := rd S (Z.shiftr l 24) in
  let n := n + rd S (Z.lor 256 (Z.land (Z.shiftr l 16) 255)) in
  let n := Z.lxor (m32 n) (rd S (Z.lor 512 (Z.land (Z.shiftr l 8) 255))) in
  m32 (n + rd S (Z.lor 768 (Z.land l 255))).

(** The sixteen unrolled iterations: they alternate between the two
    halves, iteration [i] using [P[i + 1]]. *)
Fixpoint rounds16 (S : array) (keys : list Z) (l r : Z) : Z * Z :=
  match keys with
  | k1 :: k2 :: keys' =>
      let r := Z.lxor r (Z.lxor (feistel S l) k1) in
      let l := Z.lxor l (Z.lxor (feistel S r) k2) in
      rounds16 S keys' l r
  | _ => (l, r)
  end.

(** [_encipher(lr, 0, P, S)] *)
Definition encipher (lr : Z * Z) (P : list Z) (S : array) : Z * Z :=
  let l := Z.lxor (fst lr) (nth 0 P 0) in
  let '(l, r) := rounds16 S (take 16 (drop 1 P)) l (snd lr) in
  (Z.lxor r (nth 17 P 0), l).

(** [_streamtoword(data, offp)]: four bytes of [data], cyclically. *)
Fixpoint streamBytes (n : nat) (data : list Z) (word offp : Z) : Z * Z :=
  match n with
  | O => (word, offp)
  | S n' =>
      streamBytes n' data
        (Z.lor (m32 (Z.shiftl word 8)) (Z.land (nth (Z.to_nat offp) data 0) 255))
        ((offp + 1) mod Z.of_nat (length data))
  end.

Definition streamtoword (data : list Z) (offp : Z) : Z * Z :=
  streamBytes 4 data 0 offp.

(** The first loop of [_key] and [_ekskey]: [P[i] ^= next key word]. *)
Fixpoint xorKey (key : list Z) (offp : Z) (P : list Z) : list Z :=
  match P with
  | [] => []
  | p :: P' =>
      let '(w, offp') := streamtoword key offp in
      Z.lxor p w :: xorKey key offp' P'
  end.

Record BfState := {
  bf_lr : Z * Z;
  bf_offp : Z;
  bf_P : list Z;
  bf_S : array
}.

(** One step of the second and third loops: optionally mix two words of
    [data] into [lr], encipher, and store the result. *)
Definition mixData (data : option (list Z)) (st : BfState) : (Z * Z) * Z :=
  match data with
  | None => (bf_lr st, bf_offp st)
  | Some d =>
      let '(w1, o1) := streamtoword d (bf_offp st) in
      let '(w2, o2) := streamtoword d o1 in
      ((Z.lxor (fst (bf_lr st)) w1, Z.lxor (snd (bf_lr st)) w2), o2)
  end.

Fixpoint fillP (n : nat) (i : nat) (data : option (list Z)) (st : BfState)
  : BfState :=
  match n with
  | O => st
  | S n' =>
      let '(lr, offp) := mixData data st in
      let lr := encipher lr (bf_P st) (bf_S st) in
      fillP n' (2 + i) data
        {| bf_lr := lr; bf_offp := offp;
           bf_P := <[Datatypes.S i := snd lr]> (<[i := fst lr]> (bf_P st));
           bf_S := bf_S st |}
  end.

Fixpoint fillS (n : nat) (i : Z) (data : option (list Z)) (st : BfState)
  : BfState :=
  match n with
  | O => st
  | S n' =>
      let '(lr, offp) := mixData data st in
      let lr := encipher lr (bf_P st) (bf_S st) in
      fillS n' (i + 2) data
        {| bf_lr := lr; bf_offp := offp; bf_P := bf_P st;
           bf_S := <[i + 1 := snd lr]> (<[i := fst lr]> (bf_S st)) |}
  end.

Definition expand (data : option (list Z)) (key : list Z)
    (PS : list Z * array) : list Z * array :=
  let st :=
    {| bf_lr := (0, 0); bf_offp := 0;
       bf_P := xorKey key 0 (fst PS); bf_S := snd PS |} in
  let st := fillP 9 0 data st in
  let st := fillS 512 0 data st in
  (bf_P st, bf_S st).

(** [_key(key, P, S)] *)
Definition key_ (key : list Z) (PS : list Z * array) : list Z * array :=
  expand None key PS.

(** [_ekskey(data, key, P, S)] *)
Definition ekskey (data key : list Z) (PS : list Z * array)
  : list Z * array :=
  expand (Some data) key PS.

(** The final loop of [_crypt]: 64 times, encipher each pair of
    [cdata]. *)
Fixpoint encipherPairs (cdata : list Z) (PS : list Z * array) : list Z :=
  match cdata with
  | l :: r :: rest =>
      let '(l', r') := encipher (l, r) (fst PS) (snd PS) in
      l' :: r' :: encipherPairs rest PS
  | _ => cdata
  end.

Fixpoint wordBytes (ws : list Z) : list Z :=
  match ws with
  | [] => []
  | w :: rest =>
      Z.land (Z.shiftr w 24) 255 :: Z.land (Z.shiftr w 16) 255
      :: Z.land (Z.shiftr w 8) 255 :: Z.land w 255 :: wordBytes rest
  end.

(** The body of [_crypt] once its arguments are accepted: the
    expensive key setup, [iterations] turns of the key schedule, and
    the 64-fold encryption of [C_ORIG], as 24 bytes. *)
Definition eksBlowfish (b salt : list Z) (iterations : Z) : list Z :=
  let PS := ekskey salt b (P_ORIG, fromList S_ORIG) in
  let PS :=
    N.iter (Z.to_N iterations) (fun PS => key_ salt (key_ b PS)) PS in
  wordBytes (Nat.iter 64 (fun c => encipherPairs c PS) C_ORIG).

(** [_crypt(b, salt, rounds)]; [rounds = None] stands for NaN, which
    passes both comparisons and shifts to one iteration. *)
Definition crypt (b salt : list Z) (rounds : option Z) : Exn (list Z) :=
  if match rounds with
     | Some r => (r <? 4) || (r >? 31)
     | None => false
     end
  then Throw (Error ("Illegal number of rounds (4-31): "
                     +:+ from_option pretty "NaN" rounds))
  else if negb (Z.of_nat (length salt) =? BCRYPT_SALT_LEN) then
    Throw (Error ("Illegal salt length: "
                  +:+ pretty (Z.of_nat (length salt)) +:+ " != "
                  +:+ pretty BCRYPT_SALT_LEN))
  else Ok (eksBlowfish b salt (from_option (fun r => 2 ^ r) 1 rounds)).

(** *** Salts and hashes *)

(** [rounds.toString()] behind a leading zero below ten. *)
Definition roundsText (rounds : option Z) : string :=
  match rounds with
  | Some r => (if r <? 10 then "0" else "") +:+ pretty r
  | None => "NaN"
  end.

(** [genSaltSync(rounds)], where [random] is what
    [random(BCRYPT_SALT_LEN)] returned. *)
Definition genSaltSync (rounds : Z) (random : list Z) : Exn string :=
  let rounds := if rounds =? 0 then GENSALT_DEFAULT_LOG2_ROUNDS else rounds in
  let rounds := if rounds <? 4 then 4 else if rounds >? 31 then 31 else rounds in
  bind (base64_encode random BCRYPT_SALT_LEN) (fun enc =>
  Ok ("$2a$" +:+ roundsText (Some rounds) +:+ "$" +:+ enc)).

Definition charAt (s : string) (i : nat) : option Ascii.ascii := String.get i s.

(** [parseInt(c, 10)] of a one-character string: NaN unless a digit. *)
Definition parseDigit (c : option Ascii.ascii) : option Z :=
  match c with
  | Some c =>
      let code := Z.of_N (Ascii.N_of_ascii c) in
      if (48 <=? code) && (code <=? 57) then Some (code - 48) else None
  | None => None
  end.

Definition text (c : option Ascii.ascii) : string :=
  match c with
  | Some c => String c ""
  | None => ""
  end.

(** [_hash(s, salt)] *)
Definition hash_ (s salt : string) : Exn string :=
  if negb (bool_decide (charAt salt 0 = Some "$"%char)
           && bool_decide (charAt salt 1 = Some "2"%char)) then
    Throw (Error ("Invalid salt version: " +:+ String.substring 0 2 salt))
  else
    let dollar2 := bool_decide (charAt salt 2 = Some "$"%char) in
    let minor := if dollar2 then None else charAt salt 2 in
    let offset := if dollar2 then 3%nat else 4%nat in
    if negb dollar2
       && (negb (bool_decide (minor = Some "a"%char)
                 || bool_decide (minor = Some "b"%char)
                 || bool_decide (minor = Some "y"%char))
           || negb (bool_decide (charAt salt 3 = Some "$"%char))) then
      Throw (Error ("Invalid salt revision: " +:+ String.substring 2 2 salt))
    else if match charAt salt (offset + 2) with
            | Some c => Z.of_N (Ascii.N_of_ascii c) >? 36
            | None => false
            end then
      Throw (Error "Missing salt rounds")
    else
      let r1 := parseDigit (charAt salt offset) in
      let r2 := parseDigit (charAt salt (offset + 1)) in
      let rounds :=
        match r1, r2 with
        | Some a, Some b => Some (a * 10 + b)
        | _, _ => None
        end in
      let real_salt := String.substring (offset + 3) 22 salt in
      let s := if dollar2 then s else s +:+ String Ascii.zero "" in
      let passwordb := Crypto.bufferFrom s in
      bind (base64_decode real_salt BCRYPT_SALT_LEN) (fun saltb =>
      bind (crypt passwordb saltb rounds) (fun bytes =>
      bind (base64_encode saltb (Z.of_nat (length saltb))) (fun encSalt =>
      bind (base64_encode bytes 23) (fun encHash =>
      Ok ("$2" +:+ text minor +:+ "$" +:+ roundsText rounds +:+ "$"
          +:+ encSalt +:+ encHash))))).

(** [bcrypt.hash(s, rounds)] with a number of rounds: a salt is
    generated from [random], then [_hash]. *)
Definition hash (s : string) (rounds : Z) (random : list Z) : Exn string :=
  bind (genSaltSync rounds random) (fun salt => hash_ s salt).

(** [safeStringCompare(known, unknown)]: walks over [known], counting
    the positions where [unknown] differs or has ended. *)
Fixpoint wrongCount (known unknown : string) : nat :=
  match known with
  | EmptyString => 0%nat
  | String k known' =>
      match unknown with
      | String u unknown' =>
          ((if Ascii.eqb k u then 0 else 1) + wrongCount known' unknown')%nat
      | EmptyString => Datatypes.S (wrongCount known' EmptyString)
      end
  end.

Definition safeStringCompare (known unknown : string) : bool :=
  (wrongCount known unknown =? 0)%nat.

(** [bcrypt.compare(s, hash)] *)
Definition compare (s hash : string) : Exn bool :=
  if negb (String.length hash =? 60)%nat then Ok false
  else
    bind (hash_ s (String.substring 0 29 hash)) (fun comp =>
    Ok (safeStringCompare comp hash)).

End Bcrypt.

(** ** What [bcrypt.hash] writes, in closed form *)

Module BcryptRecord.
Import Bcrypt.

(** The cost [genSaltSync] settles on: the default for 0, else the
    argument clamped to 4..31. *)
Definition cost (rounds : Z) : Z :=
  let rounds := if rounds =? 0 then GENSALT_DEFAULT_LOG2_ROUNDS else rounds in
  if rounds <? 4 then 4 else if rounds >? 31 then 31 else rounds.

(** The bytes bcrypt takes as key for the password [s]: its UTF-8
    encoding and a closing NUL. *)
Definition keyBytes (s : string) : list Z :=
  Crypto.bufferFrom (s +:+ String Ascii.zero "").

(** The 60 characters [hash] returns for the password [s] at cost [r]
    with the 16 salt bytes [b]. *)
Definition hashedRecord (s : string) (r : Z) (b : list Z) : string :=
  "$2a$" +:+ roundsText (Some r) +:+ "$" +:+ base64_encode_loop b
  +:+ base64_encode_loop
        (take 23 (eksBlowfish (keyBytes s) (map (fun x => Z.land x 255) b)
                    (2 ^ r))).

(** The 23 bytes of the digest that the record carries behind cost
    and salt. *)
Definition digest (s : string) (r : Z) (b : list Z) : list Z :=
  take 23 (eksBlowfish (keyBytes s) (map (fun x => Z.land x 255) b) (2 ^ r)).

(** The 18 words that [_key] and [_ekskey] read off a key, going
    around its bytes as often as it takes: all that the key schedule
    sees of it. *)
Definition keyWords (key : list Z) : list Z := xorKey key 0 (replicate 18 0).

End BcryptRecord.

(** ** server/auth.ts: configuration, rate limits, API key and origin *)

Module Auth.

(** The constants read from [process.env] when the module loads. *)
Record Config := {
  JWT_SECRET : string;
  JWT_EXPIRES_IN : string;
  BCRYPT_ROUNDS : Z;
  API_KEY : string;
  ALLOWED_ORIGINS : list string;
  NODE_ENV : option string
}.

(** The values the code falls back to when the environment sets none. *)
Definition defaultConfig : Config := {|
  JWT_SECRET := "your-super-secret-jwt-key-change-this-in-production";
  JWT_EXPIRES_IN := "24h";
  BCRYPT_ROUNDS := 12;
  API_KEY := "your-api-key-change-this-in-production";
  ALLOWED_ORIGINS :=
    ["http://localhost:3000"; "https://webfrontend-xxjt.onrender.com"];
  NODE_ENV := None
|}.

(** [passwordUtils.hash(password)]; [random] is the salt material the
    library draws.  bcryptjs rejects a password that is not a string. *)
Definition passwordUtils_hash (cfg : Config) (password : value)
    (random : list Z) : Exn string :=
  match password with
  | VStr p => Bcrypt.hash p (BCRYPT_ROUNDS cfg) random
  | _ => Throw (Error ("Illegal arguments: " +:+ typeof password
                       +:+ ", number"))
  end.

(** [passwordUtils.verify(password, hash)] *)
Definition passwordUtils_verify (password : value) (hash : string)
  : Exn bool :=
  match password with
  | VStr p => Bcrypt.compare p hash
  | _ => Throw (Error ("Illegal arguments: " +:+ typeof password
                       +:+ ", string"))
  end.

(** [jwtUtils.generateToken(user)], issued at [now] milliseconds. *)
Definition jwtUtils_generateToken (cfg : Config) (now : Z)
    (userId userName : string) (userRole : option string) : Jwt :=
  {| jwt_payload :=
       [("id", userId); ("username", userName);
        ("role", str_or userRole "user")];
     jwt_secret := JWT_SECRET cfg;
     jwt_expiresIn := JWT_EXPIRES_IN cfg;
     jwt_iat := now / 1000 |}.

(** [jwtUtils.generateRefreshToken(userId)] *)
Definition jwtUtils_generateRefreshToken (cfg : Config) (now : Z)
    (userId : string) : Jwt :=
  {| jwt_payload := [("id", userId); ("type", "refresh")];
     jwt_secret := JWT_SECRET cfg;
     jwt_expiresIn := "7d";
     jwt_iat := now / 1000 |}.

(** An entry of [userRequestCounts] and [ipRequestCounts]. *)
Record Stats := {
  count : Z;
  resetTime : Z
}.

(** [rateLimitByUser(maxRequests, windowMs)], with [now = Date.now()]
    and the [userRequestCounts] map threaded through. *)
Definition rateLimitByUser (maxRequests windowMs : Z)
    (req : Request) (now : Z) (userRequestCounts : gmap string Stats)
  : Outcome * gmap string Stats :=
  let userId :=
    str_or (user_id <$> req_user req) (str_or (req_ip req) "anonymous") in
  match userRequestCounts !! userId with
  | None =>
      (Next, <[userId := {| count := 1; resetTime := now + windowMs |}]>
               userRequestCounts)
  | Some userStats =>
      if now >? resetTime userStats then
        (Next, <[userId := {| count := 1; resetTime := now + windowMs |}]>
                 userRequestCounts)
      else if count userStats >=? maxRequests then
        (json 429
           [("error", VStr "Rate limit exceeded");
            ("message",
             VStr ("Too many requests. Try again in "
                   +:+ pretty (ceilDiv (resetTime userStats - now) 1000)
                   +:+ " seconds."))],
         userRequestCounts)
      else
        (Next, <[userId := {| count := count userStats + 1;
                              resetTime := resetTime userStats |}]>
                 userRequestCounts)
  end.

(** [logAuthenticatedRequest] only writes to the console. *)
Definition logAuthenticatedRequest (req : Request) : Outcome := Next.

(** [requireApiKey] *)
Definition requireApiKey (cfg : Config) (req : Request) : Outcome :=
  if negb (present (req_apiKey req)) then
    json 401
      [("error", VStr "API key required");
       ("message",
        VStr "Please provide a valid API key in the x-api-key header")]
  else if negb (String.eqb (str_or (req_apiKey req) "") (API_KEY cfg)) then
    json 403
      [("error", VStr "Invalid API key");
       ("message", VStr "The provided API key is not valid")]
  else Next.

(** [validateOrigin].  [refererOrigin] stands for what
    [new URL(referer)] gives as [protocol + "//" + host], or for the
    TypeError the constructor throws on a string that is no URL; the
    URL parser itself is outside these sources. *)
Definition validateOrigin (cfg : Config) (refererOrigin : string -> Exn string)
    (req : Request) : Outcome :=
  let origin := req_origin req in
  let referer := req_referer req in
  let denied :=
    json 403
      [("error", VStr "Origin not allowed");
       ("message", VStr "Requests from this origin are not permitted")] in
  if negb (present origin) && negb (present referer)
     && negb (bool_decide (NODE_ENV cfg = Some "production"))
  then Next
  else if present origin && includes (ALLOWED_ORIGINS cfg) (str_or origin "")
  then Next
  else if present referer then
    match refererOrigin (str_or referer "") with
    | Throw e => Fail e
    | Ok o => if includes (ALLOWED_ORIGINS cfg) o then Next else denied
    end
  else denied.

(** [strictRateLimitByIP(maxRequests, windowMs)], with
    [now = Date.now()] and the [ipRequestCounts] map threaded through. *)
Definition strictRateLimitByIP (maxRequests windowMs : Z)
    (req : Request) (now : Z) (ipRequestCounts : gmap string Stats)
  : Outcome * gmap string Stats :=
  let clientIP :=
    str_or (req_ip req) (str_or (req_remoteAddress req) "unknown") in
  match ipRequestCounts !! clientIP with
  | None =>
      (Next, <[clientIP := {| count := 1; resetTime := now + windowMs |}]>
               ipRequestCounts)
  | Some ipStats =>
      if now >? resetTime ipStats then
        (Next, <[clientIP := {| count := 1; resetTime := now + windowMs |}]>
                 ipRequestCounts)
      else if count ipStats >=? maxRequests then
        let timeLeft := ceilDiv (resetTime ipStats - now) 1000 in
        (json 429
           [("error", VStr "Rate limit exceeded");
            ("message",
             VStr ("Too many requests from this IP. Try again in "
                   +:+ pretty timeLeft +:+ " seconds."));
            ("retryAfter", VNum timeLeft)],
         ipRequestCounts)
      else
        (Next, <[clientIP := {| count := count ipStats + 1;
                                resetTime := resetTime ipStats |}]>
                 ipRequestCounts)
  end.

(** The key under which [strictRateLimitByIP] counts a request. *)
Definition clientIP (req : Request) : string :=
  str_or (req_ip req) (str_or (req_remoteAddress req) "unknown").

(** The key under which [rateLimitByUser] counts a request. *)
Definition userKey (req : Request) : string :=
  str_or (user_id <$> req_user req) (str_or (req_ip req) "anonymous").

End Auth.

(** ** Regular expressions

    The two patterns of shared/schema.ts are anchored at both ends, so
    [RegExp.prototype.test] decides membership of the whole string in the
    language of the pattern; derivatives decide the same. *)

Module Regex.

Inductive re :=
| Void
| Eps
| Class (p : Ascii.ascii -> bool)
| Cat (a b : re)
| Alt (a b : re)
| Star (a : re).

(** [a+] *)
Definition Plus (a : re) : re := Cat a (Star a).

Fixpoint nullable (r : re) : bool :=
  match r with
  | Void => false
  | Eps => true
  | Class _ => false
  | Cat a b => nullable a && nullable b
  | Alt a b => nullable a || nullable b
  | Star _ => true
  end.

Definition cat (a b : re) : re :=
  match a, b with
  | Void, _ | _, Void => Void
  | Eps, _ => b
  | _, _ => Cat a b
  end.

Definition alt (a b : re) : re :=
  match a, b with
  | Void, _ => b
  | _, Void => a
  | _, _ => Alt a b
  end.

Fixpoint deriv (c : Ascii.ascii) (r : re) : re :=
  match r with
  | Void | Eps => Void
  | Class p => if p c then Eps else Void
  | Cat a b =>
      if nullable a then alt (cat (deriv c a) b) (deriv c b)
      else cat (deriv c a) b
  | Alt a b => alt (deriv c a) (deriv c b)
  | Star a => cat (deriv c a) (Star a)
  end.

Fixpoint test (r : re) (s : string) : bool :=
  match s with
  | EmptyString => nullable r
  | String c rest => test (deriv c r) rest
  end.

End Regex.

(** ** shared/schema.ts *)

Module Schema.

(** [[^\s@]] *)
Definition notSpaceNorAt (c : Ascii.ascii) : bool :=
  negb (isSpace c || Ascii.eqb c "@"%char).

(** [/^[^\s@]+@[^\s@]+\.[^\s@]+$/] *)
Definition emailRegex : Regex.re :=
  Regex.Cat (Regex.Plus (Regex.Class notSpaceNorAt))
 (Regex.Cat (Regex.Class (Ascii.eqb "@"%char))
 (Regex.Cat (Regex.Plus (Regex.Class notSpaceNorAt))
 (Regex.Cat (Regex.Class (Ascii.eqb "."%char))
            (Regex.Plus (Regex.Class notSpaceNorAt))))).

Record User := {
  id : string;
  username : string;
  password : string;
  role : string;
  emailVerified : option Z;
  emailVerificationToken : option string;
  emailVerificationExpires : option Z;
  createdAt : Z;
  updatedAt : Z
}.

Record WaitlistEntry := {
  wl_id : string;
  wl_name : string;
  wl_email : string;
  wl_interests : option string;
  wl_emailVerified : option Z;
  wl_emailVerificationToken : option string;
  wl_emailVerificationExpires : option Z;
  wl_createdAt : Z
}.

Record InsertUser := {
  iu_username : string;
  iu_password : string;
  iu_role : option string
}.

(** What the waitlist route hands to [createWaitlistEntry]: the parsed
    fields and the three verification fields it adds. *)
Record InsertWaitlist := {
  iw_name : string;
  iw_email : string;
  iw_interests : option string;
  iw_emailVerified : option Z;
  iw_emailVerificationToken : option string;
  iw_emailVerificationExpires : option Z
}.

(** [z.string().min(n)] *)
Definition stringMin (n : nat) (v : value) : bool :=
  match v with
  | VStr s => (n <=? String.length s)%nat
  | _ => false
  end.

(** [z.string().min(1).refine(emailRegex.test)] *)
Definition emailString (v : value) : bool :=
  match v with
  | VStr s => (1 <=? String.length s)%nat && Regex.test emailRegex s
  | _ => false
  end.

(** [insertUserSchema.safeParse({ username, password }).success] *)
Definition insertUserSchema (username password : value) : bool :=
  emailString username && stringMin 6 password.

(** [insertWaitlistSchema.safeParse({ name, email, interests })]:
    the parsed data on success. *)
Definition insertWaitlistSchema (name email interests : value)
  : option (string * string * option string) :=
  match name, email with
  | VStr n, VStr e =>
      if stringMin 1 name && emailString email then
        match interests with
        | VUndefined => Some (n, e, None)
        | VStr i => Some (n, e, Some i)
        | _ => None
        end
      else None
  | _, _ => None
  end.

End Schema.
Export Schema.

(** ** server/storage.ts *)

Module Storage.

(** A JavaScript [Map] with string keys: the entries in insertion
    order; [set] on a present key replaces the value where it stands. *)
Section JsMap.
Context {V : Type}.

Fixpoint mapGet (k : string) (m : list (string * V)) : option V :=
  match m with
  | [] => None
  | (k', v) :: rest => if String.eqb k k' then Some v else mapGet k rest
  end.

Fixpoint mapSet (k : string) (v : V) (m : list (string * V))
  : list (string * V) :=
  match m with
  | [] => [(k, v)]
  | (k', v') :: rest =>
      if String.eqb k k' then (k, v) :: rest
      else (k', v') :: mapSet k v rest
  end.

Definition mapValues (m : list (string * V)) : list V := map snd m.

(** Update, where it stands, the first value that satisfies [p]: what
    mutating the object returned by [values().find(p)] does. *)
Fixpoint updateFirst (p : V -> bool) (f : V -> V) (m : list (string * V))
  : list (string * V) :=
  match m with
  | [] => []
  | (k, v) :: rest =>
      if p v then (k, f v) :: rest else (k, v) :: updateFirst p f rest
  end.
End JsMap.

(** [x || null] on an optional string. *)
Definition orNull (x : option string) : option string :=
  match x with
  | Some s => if String.eqb s "" then None else Some s
  | None => None
  end.

(** The interface [IStorage], as far as the routes below use it.  Each
    call may throw; [id] and [now] stand for the random identifier and
    the clock reading a call draws. *)
Class IStorage (S : Type) := {
  getUserByUsername : string -> S -> Exn (option User);
  createUser : InsertUser -> string -> Z -> S -> Exn (User * S);
  createWaitlistEntry : InsertWaitlist -> string -> Z -> S
                        -> Exn (WaitlistEntry * S);
  getWaitlistEntryByEmail : string -> S -> Exn (option WaitlistEntry);
  updateWaitlistVerification :
    string -> bool -> option string -> option Z -> Z -> S -> Exn S;
  updateUserVerification :
    string -> bool -> option string -> option Z -> Z -> S -> Exn S
}.

(** *** class MemStorage *)

Record MemStorage := {
  users : list (string * User);
  waitlistEntries : list (string * WaitlistEntry)
}.

Definition emptyMem : MemStorage := {| users := []; waitlistEntries := [] |}.

Definition mem_getUserByUsername (name : string) (s : MemStorage)
  : option User :=
  find (fun user => String.eqb (username user) name) (mapValues (users s)).

Definition mem_createWaitlistEntry (entry : InsertWaitlist) (newId : string)
    (now : Z) (s : MemStorage) : WaitlistEntry * MemStorage :=
  let waitlistEntry := {|
    wl_id := newId;
    wl_email := iw_email entry;
    wl_name := iw_name entry;
    wl_interests := orNull (iw_interests entry);
    wl_createdAt := now;
    wl_emailVerified := None;
    wl_emailVerificationToken := None;
    wl_emailVerificationExpires := None
  |} in
  (waitlistEntry,
   {| users := users s;
      waitlistEntries :=
        mapSet (wl_email waitlistEntry) waitlistEntry (waitlistEntries s) |}).

Definition mem_getWaitlistEntryByEmail (email : string) (s : MemStorage)
  : option WaitlistEntry :=
  mapGet email (waitlistEntries s).

Definition mem_createUser (user : InsertUser) (newId : string) (now : Z)
    (s : MemStorage) : User * MemStorage :=
  let newUser := {|
    id := newId;
    username := iu_username user;
    password := iu_password user;
    role := str_or (iu_role user) "user";
    emailVerified := None;
    emailVerificationToken := None;
    emailVerificationExpires := None;
    createdAt := now;
    updatedAt := now
  |} in
  (newUser,
   {| users := mapSet (id newUser) newUser (users s);
      waitlistEntries := waitlistEntries s |}).

Definition mem_updateWaitlistVerification (email : string) (verified : bool)
    (token : option string) (expires : option Z) (now : Z) (s : MemStorage)
  : MemStorage :=
  match mapGet email (waitlistEntries s) with
  | Some entry =>
      {| users := users s;
         waitlistEntries :=
           mapSet email
             {| wl_id := wl_id entry;
                wl_name := wl_name entry;
                wl_email := wl_email entry;
                wl_interests := wl_interests entry;
                wl_emailVerified := if verified then Some now else None;
                wl_emailVerificationToken := orNull token;
                wl_emailVerificationExpires := expires;
                wl_createdAt := wl_createdAt entry |}
             (waitlistEntries s) |}
  | None => s
  end.

Definition mem_updateUserVerification (email : string) (verified : bool)
    (token : option string) (expires : option Z) (now : Z) (s : MemStorage)
  : MemStorage :=
  {| users :=
       updateFirst (fun u => String.eqb (username u) email)
         (fun user =>
            {| id := id user;
               username := username user;
               password := password user;
               role := role user;
               emailVerified := if verified then Some now else None;
               emailVerificationToken := orNull token;
               emailVerificationExpires := expires;
               createdAt := createdAt user;
               updatedAt := updatedAt user |})
         (users s);
     waitlistEntries := waitlistEntries s |}.

#[export] Instance memStorage : IStorage MemStorage := {|
  getUserByUsername name s := Ok (mem_getUserByUsername name s);
  createUser user newId now s := Ok (mem_createUser user newId now s);
  createWaitlistEntry entry newId now s :=
    Ok (mem_createWaitlistEntry entry newId now s);
  getWaitlistEntryByEmail email s := Ok (mem_getWaitlistEntryByEmail email s);
  updateWaitlistVerification email verified token expires now s :=
    Ok (mem_updateWaitlistVerification email verified token expires now s);
  updateUserVerification email verified token expires now s :=
    Ok (mem_updateUserVerification email verified token expires now s)
|}.

(** *** class DbStorage

    The two tables as lists of rows.  An insert that repeats a value of
    a unique column ([users.username], [waitlist.email]) is refused by
    the database; a select with [limit(1)] gives the first matching
    row; an update changes every matching row. *)

Record DbStorage := {
  db_users : list User;
  db_waitlist : list WaitlistEntry
}.

Definition emptyDb : DbStorage := {| db_users := []; db_waitlist := [] |}.

Definition uniqueViolation (constraint : string) : JsError :=
  Error ("duplicate key value violates unique constraint " +:+ constraint).

Definition db_getUserByUsername (name : string) (s : DbStorage)
  : option User :=
  find (fun row => String.eqb (username row) name) (db_users s).

Definition db_createUser (insertUser : InsertUser) (newId : string)
    (now : Z) (s : DbStorage) : Exn (User * DbStorage) :=
  if existsb (fun row => String.eqb (username row) (iu_username insertUser))
             (db_users s)
  then Throw (uniqueViolation "users_username_unique")
  else
    let row := {|
      id := newId;
      username := iu_username insertUser;
      password := iu_password insertUser;
      role := from_option (fun r => r) "user" (iu_role insertUser);
      emailVerified := None;
      emailVerificationToken := None;
      emailVerificationExpires := None;
      createdAt := now;
      updatedAt := now
    |} in
    Ok (row, {| db_users := db_users s ++ [row];
                db_waitlist := db_waitlist s |}).

Definition db_createWaitlistEntry (entry : InsertWaitlist) (newId : string)
    (now : Z) (s : DbStorage) : Exn (WaitlistEntry * DbStorage) :=
  if existsb (fun row => String.eqb (wl_email row) (iw_email entry))
             (db_waitlist s)
  then Throw (uniqueViolation "waitlist_email_unique")
  else
    let row := {|
      wl_id := newId;
      wl_name := iw_name entry;
      wl_email := iw_email entry;
      wl_interests := iw_interests entry;
      wl_emailVerified := iw_emailVerified entry;
      wl_emailVerificationToken := iw_emailVerificationToken entry;
      wl_emailVerificationExpires := iw_emailVerificationExpires entry;
      wl_createdAt := now
    |} in
    Ok (row, {| db_users := db_users s;
                db_waitlist := db_waitlist s ++ [row] |}).

Definition db_getWaitlistEntryByEmail (email : string) (s : DbStorage)
  : option WaitlistEntry :=
  find (fun row => String.eqb (wl_email row) email) (db_waitlist s).

Definition db_updateWaitlistVerification (email : string) (verified : bool)
    (token : option string) (expires : option Z) (now : Z) (s : DbStorage)
  : DbStorage :=
  {| db_users := db_users s;
     db_waitlist :=
       map (fun row =>
              if String.eqb (wl_email row) email then
                {| wl_id := wl_id row;
                   wl_name := wl_name row;
                   wl_email := wl_email row;
                   wl_interests := wl_interests row;
                   wl_emailVerified := if verified then Some now else None;
                   wl_emailVerificationToken := orNull token;
                   wl_emailVerificationExpires := expires;
                   wl_createdAt := wl_createdAt row |}
              else row)
           (db_waitlist s) |}.

Definition db_updateUserVerification (email : string) (verified : bool)
    (token : option string) (expires : option Z) (now : Z) (s : DbStorage)
  : DbStorage :=
  {| db_users :=
       map (fun row =>
              if String.eqb (username row) email then
                {| id := id row;
                   username := username row;
                   password := password row;
                   role := role row;
                   emailVerified := if verified then Some now else None;
                   emailVerificationToken := orNull token;
                   emailVerificationExpires := expires;
                   createdAt := createdAt row;
                   updatedAt := updatedAt row |}
              else row)
           (db_users s);
     db_waitlist := db_waitlist s |}.

#[export] Instance dbStorage : IStorage DbStorage := {|
  getUserByUsername name s := Ok (db_getUserByUsername name s);
  createUser := db_createUser;
  createWaitlistEntry := db_createWaitlistEntry;
  getWaitlistEntryByEmail email s := Ok (db_getWaitlistEntryByEmail email s);
  updateWaitlistVerification email verified token expires now s :=
    Ok (db_updateWaitlistVerification email verified token expires now s);
  updateUserVerification email verified token expires now s :=
    Ok (db_updateUserVerification email verified token expires now s)
|}.

End Storage.
Export Storage.

(** ** server/routes.ts *)

Module Routes.

(** What one request draws from the outside: the clock readings of the
    two rate limiters and of the handler, the time zone the process
    runs in, and the random material of [randomUUID] (or
    [Math.random]), of bcrypt's salt and of
    [generateVerificationToken]. *)
Record World := {
  nowUser : Z;
  nowIP : Z;
  now : Z;
  timeZone : Verification.TimeZone;
  newId : string;
  saltBytes : list Z;
  tokenBytes : list Z
}.

(** The process state: the two rate-limit maps and the store. *)
Record App (S : Type) := {
  userRequestCounts : gmap string Auth.Stats;
  ipRequestCounts : gmap string Auth.Stats;
  store : S
}.
Arguments userRequestCounts {S} _.
Arguments ipRequestCounts {S} _.
Arguments store {S} _.

Section Handlers.
Context {S : Type} `{IStorage S}.
Variable cfg : Auth.Config.

(** [(rawUser ?? email ?? "").trim().toLowerCase()]; a value that is
    not a string has no [trim] method. *)
Definition normalizedUsername (body : value) : Exn string :=
  match nullish (get body "username") (nullish (get body "email") (VStr ""))
  with
  | VStr s => Ok (toLowerCase (trim s))
  | _ => Throw (TypeError "(rawUser ?? email ?? '').trim is not a function")
  end.

(** The handler of [POST /api/register]. *)
Definition registerHandler (w : World) (req : Request) (st : S)
  : Outcome * S :=
  let body := nullish (req_body req) (VObj []) in
  match normalizedUsername body with
  | Throw e => (Fail e, st)
  | Ok username =>
      let password := get body "password" in
      if negb (insertUserSchema (VStr username) password) then
        (json 400 [("message", VStr "Invalid input")], st)
      else
        match getUserByUsername username st with
        | Throw e => (Fail e, st)
        | Ok (Some _) =>
            (json 409 [("message", VStr "User already exists")], st)
        | Ok None =>
            match Auth.passwordUtils_hash cfg password (saltBytes w) with
            | Throw e => (Fail e, st)
            | Ok hashedPassword =>
                match createUser
                        {| iu_username := username;
                           iu_password := hashedPassword;
                           iu_role := Some "user" |}
                        (newId w) (now w) st with
                | Throw e => (Fail e, st)
                | Ok (created, st') =>
                    let token :=
                      Auth.jwtUtils_generateToken cfg (now w)
                        (id created) (Schema.username created)
                        (Some (role created)) in
                    (json 201
                       [("user",
                         VObj [("id", VStr (id created));
                               ("username", VStr (Schema.username created));
                               ("role", VStr (role created))]);
                        ("token", VJwt token);
                        ("message", VStr "Registration successful")],
                     st')
                end
            end
        end
  end.

(** [generateVerificationToken()]: the random bytes in hexadecimal. *)
Fixpoint hexOfBytes (bytes : list Z) : string :=
  match bytes with
  | [] => ""
  | b :: rest =>
      String (Crypto.hexDigit ((b / 16) mod 16))
        (String (Crypto.hexDigit (b mod 16)) (hexOfBytes rest))
  end.

(** The handler of [POST /api/waitlist]. *)
Definition waitlistHandler (w : World) (req : Request) (st : S)
  : Outcome * S :=
  let body := nullish (req_body req) (VObj []) in
  match insertWaitlistSchema (get body "name") (get body "email")
                             (get body "interests") with
  | None => (json 400 [("message", VStr "Invalid input")], st)
  | Some (name, email, interests) =>
      match getWaitlistEntryByEmail email st with
      | Throw e => (Fail e, st)
      | Ok (Some _) =>
          (json 409 [("message", VStr "Email already registered")], st)
      | Ok None =>
          let verificationToken := hexOfBytes (tokenBytes w) in
          let verificationExpires :=
            Verification.createVerificationExpiry (timeZone w) (now w) in
          let hashedToken :=
            Verification.hashVerificationToken verificationToken in
          let entryData := {|
            iw_name := name;
            iw_email := email;
            iw_interests := interests;
            iw_emailVerified := None;
            iw_emailVerificationToken := Some hashedToken;
            iw_emailVerificationExpires := Some verificationExpires
          |} in
          match createWaitlistEntry entryData (newId w) (now w) st with
          | Throw e => (Fail e, st)
          | Ok (created, st') =>
              (json 201
                 [("id", VStr (wl_id created));
                  ("name", VStr (wl_name created));
                  ("email", VStr (wl_email created));
                  ("message",
                   VStr "Please check your email to verify your address and complete your waitlist registration.")],
               st')
          end
      end
  end.

(** The handler of [POST /api/login]. *)
Definition loginHandler (w : World) (req : Request) (st : S)
  : Outcome * S :=
  let body := nullish (req_body req) (VObj []) in
  match normalizedUsername body with
  | Throw e => (Fail e, st)
  | Ok username =>
      let password := get body "password" in
      if negb (truthy (VStr username)) || negb (truthy password) then
        (json 400
           [("message", VStr "Username and password are required")], st)
      else
        match getUserByUsername username st with
        | Throw e => (Fail e, st)
        | Ok None =>
            (json 401 [("message", VStr "Invalid credentials")], st)
        | Ok (Some user) =>
            match Auth.passwordUtils_verify password (Schema.password user)
            with
            | Throw e => (Fail e, st)
            | Ok false =>
                (json 401 [("message", VStr "Invalid credentials")], st)
            | Ok true =>
                let token :=
                  Auth.jwtUtils_generateToken cfg (now w)
                    (id user) (Schema.username user)
                    (Some (str_or (Some (role user)) "user")) in
                let refreshToken :=
                  Auth.jwtUtils_generateRefreshToken cfg (now w) (id user) in
                (json 200
                   [("user",
                     VObj [("id", VStr (id user));
                           ("username", VStr (Schema.username user));
                           ("role",
                            VStr (str_or (Some (role user)) "user"))]);
                    ("token", VJwt token);
                    ("refreshToken", VJwt refreshToken);
                    ("message", VStr "Login successful")],
                 st)
            end
        end
  end.

(** The casts [token as string] and [email as string] of the two
    verification handlers are erased at run time, so a value of the
    query that is no string reaches the callee as it is. *)

(** The TypeError of [hash.update(data)] for a [data] that is neither
    a string nor a buffer. *)
Definition invalidData (data : option qvalue) : JsError :=
  TypeError
    ("The 'data' argument must be of type string or an instance of Buffer, TypedArray, or DataView. Received "
     +:+ match data with
         | Some (QArr _) => "an instance of Array"
         | Some (QObj _) => "an instance of Object"
         | _ => "undefined"
         end).

(** [verifyTokenHash(token as string, hash)]: [update] of a hash
    object takes a string or a buffer and throws on anything else. *)
Definition verifyTokenHashOf (token : option qvalue) (hash : string)
  : Exn bool :=
  match token with
  | Some (QStr t) => Verification.verifyTokenHash t hash
  | _ => Throw (invalidData token)
  end.

(** [storage.getWaitlistEntryByEmail(email as string)]: no stored
    email, a key of the map of [MemStorage] or a text column of
    [DbStorage], is equal to a value that is not a string. *)
Definition waitlistEntryFor (email : option qvalue) (st : S)
  : Exn (option WaitlistEntry) :=
  match email with
  | Some (QStr e) => getWaitlistEntryByEmail e st
  | _ => Ok None
  end.

(** [storage.getUserByUsername(email as string)] *)
Definition userFor (email : option qvalue) (st : S) : Exn (option User) :=
  match email with
  | Some (QStr e) => getUserByUsername e st
  | _ => Ok None
  end.

(** [storage.updateWaitlistVerification(email as string, ...)] *)
Definition verifyWaitlistEntryOf (email : option qvalue) (at_ : Z) (st : S)
  : Exn S :=
  match email with
  | Some (QStr e) => updateWaitlistVerification e true None None at_ st
  | _ => Ok st
  end.

(** [storage.updateUserVerification(email as string, ...)] *)
Definition verifyUserOf (email : option qvalue) (at_ : Z) (st : S) : Exn S :=
  match email with
  | Some (QStr e) => updateUserVerification e true None None at_ st
  | _ => Ok st
  end.

(** The handler of [GET /api/verify-waitlist]. *)
Definition verifyWaitlistHandler (w : World) (req : Request) (st : S)
  : Outcome * S :=
  let token := query "token" (req_query req) in
  let email := query "email" (req_query req) in
  if negb (truthyQ token) || negb (truthyQ email) then
    (json 400 [("message", VStr "Token and email are required")], st)
  else
    match waitlistEntryFor email st with
    | Throw e => (Fail e, st)
    | Ok entry =>
        match entry ≫= (fun e => orNull (wl_emailVerificationToken e)),
              entry with
        | Some storedHash, Some entry =>
            match verifyTokenHashOf token storedHash with
            | Throw e => (Fail e, st)
            | Ok false =>
                (json 400
                   [("message", VStr "Invalid verification token")], st)
            | Ok true =>
                if match wl_emailVerificationExpires entry with
                   | Some expires =>
                       Verification.isVerificationExpired (now w) expires
                   | None => false
                   end
                then
                  (json 400
                     [("message", VStr "Verification link has expired")],
                   st)
                else
                  match verifyWaitlistEntryOf email (now w) st with
                  | Throw e => (Fail e, st)
                  | Ok st' =>
                      (json 200
                         [("message",
                           VStr "Email verified successfully! You've been added to the waitlist.")],
                       st')
                  end
            end
        | _, _ =>
            (json 404 [("message", VStr "Invalid verification link")], st)
        end
    end.

(** The handler of [GET /api/verify-registration]. *)
Definition verifyRegistrationHandler (w : World) (req : Request) (st : S)
  : Outcome * S :=
  let token := query "token" (req_query req) in
  let email := query "email" (req_query req) in
  if negb (truthyQ token) || negb (truthyQ email) then
    (json 400 [("message", VStr "Token and email are required")], st)
  else
    match userFor email st with
    | Throw e => (Fail e, st)
    | Ok user =>
        match user ≫= (fun u => orNull (emailVerificationToken u)), user
        with
        | Some storedHash, Some user =>
            match verifyTokenHashOf token storedHash with
            | Throw e => (Fail e, st)
            | Ok false =>
                (json 400
                   [("message", VStr "Invalid verification token")], st)
            | Ok true =>
                if match emailVerificationExpires user with
                   | Some expires =>
                       Verification.isVerificationExpired (now w) expires
                   | None => false
                   end
                then
                  (json 400
                     [("message", VStr "Verification link has expired")],
                   st)
                else
                  match verifyUserOf email (now w) st with
                  | Throw e => (Fail e, st)
                  | Ok st' =>
                      (json 200
                         [("message",
                           VStr "Email verified successfully! Your account is now active.")],
                       st')
                  end
            end
        | _, _ =>
            (json 404 [("message", VStr "Invalid verification link")], st)
        end
    end.

(** *** The middleware chains

    [registerRoutes] first installs, for every path under /api,
    [logAuthenticatedRequest] and [rateLimitByUser(100, 15 min)];
    the two public routes then list [strictRateLimitByIP],
    [requireApiKey] and [validateOrigin] before their handler.  A
    middleware that answers or fails ends the chain. *)

Definition andThen {T : Type} (m : Outcome * T) (k : T -> Outcome * T)
  : Outcome * T :=
  match fst m with
  | Next => k (snd m)
  | _ => m
  end.

Definition onUserCounts (f : gmap string Auth.Stats
                             -> Outcome * gmap string Auth.Stats)
    (app : App S) : Outcome * App S :=
  let '(o, m) := f (userRequestCounts app) in
  (o, {| userRequestCounts := m;
         ipRequestCounts := ipRequestCounts app;
         store := store app |}).

Definition onIpCounts (f : gmap string Auth.Stats
                           -> Outcome * gmap string Auth.Stats)
    (app : App S) : Outcome * App S :=
  let '(o, m) := f (ipRequestCounts app) in
  (o, {| userRequestCounts := userRequestCounts app;
         ipRequestCounts := m;
         store := store app |}).

Definition onStore (f : S -> Outcome * S) (app : App S)
  : Outcome * App S :=
  let '(o, s) := f (store app) in
  (o, {| userRequestCounts := userRequestCounts app;
         ipRequestCounts := ipRequestCounts app;
         store := s |}).

Definition pure (o : Outcome) (app : App S) : Outcome * App S := (o, app).

(** The middleware mounted on /api. *)
Definition apiPrefix (w : World) (req : Request) (app : App S)
  : Outcome * App S :=
  andThen (pure (Auth.logAuthenticatedRequest req) app)
    (onUserCounts
       (Auth.rateLimitByUser 100 (15 * 60 * 1000) req (nowUser w))).

Variable refererOrigin : string -> Exn string.

(** [app.post("/api/register", strictRateLimitByIP(5, 60 * 60 * 1000),
    requireApiKey, validateOrigin, handler)] *)
Definition postRegister (w : World) (req : Request) (app : App S)
  : Outcome * App S :=
  andThen (apiPrefix w req app) (fun app =>
  andThen (onIpCounts
             (Auth.strictRateLimitByIP 5 (60 * 60 * 1000) req (nowIP w))
             app) (fun app =>
  andThen (pure (Auth.requireApiKey cfg req) app) (fun app =>
  andThen (pure (Auth.validateOrigin cfg refererOrigin req) app)
    (onStore (registerHandler w req))))).

(** [app.post("/api/waitlist", strictRateLimitByIP(10, 60 * 60 * 1000),
    requireApiKey, validateOrigin, handler)] *)
Definition postWaitlist (w : World) (req : Request) (app : App S)
  : Outcome * App S :=
  andThen (apiPrefix w req app) (fun app =>
  andThen (onIpCounts
             (Auth.strictRateLimitByIP 10 (60 * 60 * 1000) req (nowIP w))
             app) (fun app =>
  andThen (pure (Auth.requireApiKey cfg req) app) (fun app =>
  andThen (pure (Auth.validateOrigin cfg refererOrigin req) app)
    (onStore (waitlistHandler w req))))).

(** [app.post("/api/login", handler)] *)
Definition postLogin (w : World) (req : Request) (app : App S)
  : Outcome * App S :=
  andThen (apiPrefix w req app) (onStore (loginHandler w req)).

(** [app.get("/api/verify-waitlist", handler)] *)
Definition getVerifyWaitlist (w : World) (req : Request) (app : App S)
  : Outcome * App S :=
  andThen (apiPrefix w req app) (onStore (verifyWaitlistHandler w req)).

(** [app.get("/api/verify-registration", handler)] *)
Definition getVerifyRegistration (w : World) (req : Request) (app : App S)
  : Outcome * App S :=
  andThen (apiPrefix w req app)
    (onStore (verifyRegistrationHandler w req)).

End Handlers.

End Routes.

(** ** The rate limiter in the words of the specification

    Section 4.4 of the specification describes [checkAndIncrement]; this
    is that description, to be compared with the two limiters of
    server/auth.ts.  Times are in the unit of the caller. *)

Module SpecRateLimiter.

Inductive Decision :=
| Allowed
| Denied (retryAfterSeconds : Z).

Definition checkAndIncrement (key : string)
    (maxRequests windowDuration now : Z) (windows : gmap string Auth.Stats)
  : Decision * gmap string Auth.Stats :=
  let fresh :=
    {| Auth.count := 1; Auth.resetTime := now + windowDuration |} in
  match windows !! key with
  | None => (Allowed, <[key := fresh]> windows)
  | Some w =>
      if now >=? Auth.resetTime w then (Allowed, <[key := fresh]> windows)
      else if Auth.count w <? maxRequests then
        (Allowed,
         <[key := {| Auth.count := Auth.count w + 1;
                     Auth.resetTime := Auth.resetTime w |}]> windows)
      else (Denied (Auth.resetTime w - now), windows)
  end.

(** How an outcome of [strictRateLimitByIP] reads as a decision. *)
Definition decision (o : Outcome) : option Decision :=
  match o with
  | Next => Some Allowed
  | Respond r =>
      match get (body r) "retryAfter" with
      | VNum n => if status r =? 429 then Some (Denied n) else None
      | _ => None
      end
  | Fail _ => None
  end.

End SpecRateLimiter.

(** ** What the limiters write and answer *)

Module RateWindow.
Import Auth.

(** The window a limiter opens at [now]. *)
Definition fresh (windowMs now : Z) : Stats :=
  {| count := 1; resetTime := now + windowMs |}.

(** The window after one more request was counted in it. *)
Definition bumped (st : Stats) : Stats :=
  {| count := count st + 1; resetTime := resetTime st |}.

(** The 429 answer of [strictRateLimitByIP] at [now] in window [st]. *)
Definition ipDenied (now : Z) (st : Stats) : Outcome :=
  json 429
    [("error", VStr "Rate limit exceeded");
     ("message",
      VStr ("Too many requests from this IP. Try again in "
            +:+ pretty (ceilDiv (resetTime st - now) 1000) +:+ " seconds."));
     ("retryAfter", VNum (ceilDiv (resetTime st - now) 1000))].

(** The 429 answer of [rateLimitByUser] at [now] in window [st]. *)
Definition userDenied (now : Z) (st : Stats) : Outcome :=
  json 429
    [("error", VStr "Rate limit exceeded");
     ("message",
      VStr ("Too many requests. Try again in "
            +:+ pretty (ceilDiv (resetTime st - now) 1000) +:+ " seconds."))].

End RateWindow.

(** ** Scenarios: one client calling a limiter again and again *)

Module Scenario.

(** The same request arriving at the clock readings [times]. *)
Fixpoint replay (limiter : Request -> Z -> gmap string Auth.Stats
                           -> Outcome * gmap string Auth.Stats)
    (req : Request) (times : list Z) (m : gmap string Auth.Stats)
  : list Outcome * gmap string Auth.Stats :=
  match times with
  | [] => ([], m)
  | t :: rest =>
      let '(o, m') := limiter req t m in
      let '(os, m'') := replay limiter req rest m' in
      (o :: os, m'')
  end.

(** A request that carries nothing but its client address. *)
Definition requestFrom (ip : string) : Request := {|
  req_ip := Some ip;
  req_remoteAddress := None;
  req_apiKey := None;
  req_origin := None;
  req_referer := None;
  req_authorization := None;
  req_user := None;
  req_body := VUndefined;
  req_query := []
|}.

(** A JSON request to a public endpoint with the given API key. *)
Definition publicRequest (ip : string) (apiKey : option string)
    (fields : list (string * value)) : Request := {|
  req_ip := Some ip;
  req_remoteAddress := None;
  req_apiKey := apiKey;
  req_origin := None;
  req_referer := None;
  req_authorization := None;
  req_user := None;
  req_body := VObj fields;
  req_query := []
|}.

(** A GET request with a parsed query. *)
Definition parsedQueryRequest (ip : string) (q : list (string * qvalue))
  : Request := {|
  req_ip := Some ip;
  req_remoteAddress := None;
  req_apiKey := None;
  req_origin := None;
  req_referer := None;
  req_authorization := None;
  req_user := None;
  req_body := VUndefined;
  req_query := q
|}.

(** A GET request with a query string [k1=v1&k2=v2...] of distinct
    plain keys. *)
Definition queryRequest (ip : string) (q : list (string * string))
  : Request :=
  parsedQueryRequest ip (map (fun kv => (fst kv, QStr (snd kv))) q).

(** [new URL(referer)] for requests that carry no Referer header: never
    consulted, it rejects every string. *)
Definition noReferer (referer : string) : Exn string :=
  Throw (TypeError "Invalid URL").

(** A process that runs in UTC. *)
Definition utc : Verification.TimeZone := {|
  Verification.offsetAtUTC := fun _ => 0;
  Verification.offsetAtLocal := fun _ => 0
|}.

(** A process in New York around 9 March 2025, when the clocks went
    from 02:00 (UTC-5) to 03:00 (UTC-4) at 07:00 UTC; a local time in
    the hour that was skipped is read with the offset from before the
    change. *)
Definition newYork : Verification.TimeZone := {|
  Verification.offsetAtUTC :=
    fun t => if t <? 1741503600000 then -18000000 else -14400000;
  Verification.offsetAtLocal :=
    fun t => if t <? 1741503600000 - 14400000 then -18000000 else -14400000
|}.

(** The draws of one request at clock reading 1000. *)
Definition world : Routes.World := {|
  Routes.nowUser := 1000;
  Routes.nowIP := 1000;
  Routes.now := 1000;
  Routes.timeZone := utc;
  Routes.newId := "n-1";
  Routes.saltBytes := [1; 2; 3; 4; 5; 6; 7; 8; 9; 10; 11; 12; 13; 14; 15; 16];
  Routes.tokenBytes := [222; 173; 190; 239]
|}.

(** A process started with BCRYPT_ROUNDS=5, and the 16 salt bytes
    that bcrypt writes as "CCCCCCCCCCCCCCCCCCCCC.". *)
Definition costFive : Auth.Config := {|
  Auth.JWT_SECRET := Auth.JWT_SECRET Auth.defaultConfig;
  Auth.JWT_EXPIRES_IN := Auth.JWT_EXPIRES_IN Auth.defaultConfig;
  Auth.BCRYPT_ROUNDS := 5;
  Auth.API_KEY := Auth.API_KEY Auth.defaultConfig;
  Auth.ALLOWED_ORIGINS := Auth.ALLOWED_ORIGINS Auth.defaultConfig;
  Auth.NODE_ENV := None
|}.

Definition saltOfCs : list Z :=
  [16; 65; 4; 16; 65; 4; 16; 65; 4; 16; 65; 4; 16; 65; 4; 16].

(** A user whose record is bcrypt's known answer for the password
    "U*U" at cost 5. *)
Definition ann : User := {|
  id := "7f3c";
  username := "ann@example.com";
  password := "$2a$05$CCCCCCCCCCCCCCCCCCCCC.E5YPO9kmyuRGyh0XouQYb4YMJKvyOeW";
  role := "user";
  emailVerified := None;
  emailVerificationToken := None;
  emailVerificationExpires := None;
  createdAt := 0;
  updatedAt := 0
|}.

(** A user whose record is no bcrypt hash at all (32 characters). *)
Definition bob : User := {|
  id := "91aa";
  username := "bob@example.com";
  password := "5f4dcc3b5aa765d61d8327deb882cf99";
  role := "user";
  emailVerified := None;
  emailVerificationToken := None;
  emailVerificationExpires := None;
  createdAt := 0;
  updatedAt := 0
|}.

(** A user whose record has the length of a bcrypt hash and nothing
    else of it. *)
Definition eve : User := {|
  id := "c0de";
  username := "eve@example.com";
  password := "xxxxxxxxxxxxxxxxxxxxxxxxxxxxxxxxxxxxxxxxxxxxxxxxxxxxxxxxxxxx";
  role := "user";
  emailVerified := None;
  emailVerificationToken := None;
  emailVerificationExpires := None;
  createdAt := 0;
  updatedAt := 0
|}.

Definition threeUsers : MemStorage := {|
  users := [("7f3c", ann); ("91aa", bob); ("c0de", eve)];
  waitlistEntries := []
|}.

(** A waitlist entry that waits for the token "3f9a-token", good until
    clock reading 5000. *)
Definition zoe : WaitlistEntry := {|
  wl_id := "k3j9x0q1z";
  wl_name := "Zoe";
  wl_email := "zoe@example.com";
  wl_interests := None;
  wl_emailVerified := None;
  wl_emailVerificationToken :=
    Some (Verification.hashVerificationToken "3f9a-token");
  wl_emailVerificationExpires := Some 5000;
  wl_createdAt := 0
|}.

(** A user who waits for the same token. *)
Definition zed : User := {|
  id := "5d1e";
  username := "zed@example.com";
  password := "5f4dcc3b5aa765d61d8327deb882cf99";
  role := "user";
  emailVerified := None;
  emailVerificationToken :=
    Some (Verification.hashVerificationToken "3f9a-token");
  emailVerificationExpires := Some 5000;
  createdAt := 0;
  updatedAt := 0
|}.

(** The two of them as rows of the database store. *)
Definition pendingDb : DbStorage := {|
  db_users := [zed];
  db_waitlist := [zoe]
|}.

(** The calls that touch the waitlist, and a store serving a sequence
    of them. *)
Inductive WaitlistCall :=
| PostWaitlist (w : Routes.World) (req : Request)
| GetVerifyWaitlist (w : Routes.World) (req : Request).

Definition serveOne {S : Type} `{IStorage S} (c : WaitlistCall) (st : S) : S :=
  match c with
  | PostWaitlist w req => snd (Routes.waitlistHandler w req st)
  | GetVerifyWaitlist w req => snd (Routes.verifyWaitlistHandler w req st)
  end.

Definition serve {S : Type} `{IStorage S} (calls : list WaitlistCall) (st : S)
  : S :=
  fold_left (fun st c => serveOne c st) calls st.

(** Every token hash in the waitlist table has the 64 bytes of a
    SHA-256 digest in hexadecimal. *)
Definition digestSized (st : DbStorage) : Prop :=
  Forall (fun row =>
            forall h,
              wl_emailVerificationToken row = Some h ->
              length (Crypto.bufferFrom h) = 64%nat)
         (db_waitlist st).

End Scenario.

(** ** Counting what a limiter lets through *)

Module Traffic.

Definition isNext (o : Outcome) : bool :=
  match o with
  | Next => true
  | _ => false
  end.

(** How many of the outcomes hand over to the next middleware. *)
Definition passes (outs : list Outcome) : nat :=
  length (filter (fun o => isNext o = true) outs).

End Traffic.

(** ** Strings of hexadecimal digits *)

Module Hex.

Fixpoint occurs (c : Ascii.ascii) (s : string) : bool :=
  match s with
  | EmptyString => false
  | String d rest => Ascii.eqb c d || occurs c rest
  end.

Definition isDigit (c : Ascii.ascii) : bool := occurs c "0123456789abcdef".

(** Whether [s] is made of the digits 0-9 and a-f only. *)
Fixpoint allHex (s : string) : bool :=
  match s with
  | EmptyString => true
  | String c rest => isDigit c && allHex rest
  end.

End Hex.

(** ** What a pattern matches

    The language of a pattern, as the ECMAScript specification gives
    it for these operators; [Regex.test] is compared with it below. *)

Module RegexLanguage.
Import Regex.

Inductive matches : re -> string -> Prop :=
| MEps : matches Eps ""
| MClass (p : Ascii.ascii -> bool) (c : Ascii.ascii) :
    p c = true -> matches (Class p) (String c "")
| MCat (a b : re) (s1 s2 : string) :
    matches a s1 -> matches b s2 -> matches (Cat a b) (s1 +:+ s2)
| MAltL (a b : re) (s : string) : matches a s -> matches (Alt a b) s
| MAltR (a b : re) (s : string) : matches b s -> matches (Alt a b) s
| MStarNil (a : re) : matches (Star a) ""
| MStarApp (a : re) (s1 s2 : string) :
    matches a s1 -> matches (Star a) s2 -> matches (Star a) (s1 +:+ s2).

(** Whether every character of [s] satisfies [p]. *)
Fixpoint all (p : Ascii.ascii -> bool) (s : string) : bool :=
  match s with
  | EmptyString => true
  | String c rest => p c && all p rest
  end.

(** How often [c] occurs in [s]. *)
Fixpoint countChar (c : Ascii.ascii) (s : string) : nat :=
  match s with
  | EmptyString => 0
  | String d rest => (if Ascii.eqb d c then 1 else 0) + countChar c rest
  end.

End RegexLanguage.

(** ** server/storage.ts: the calls of the authenticated routes *)

Module StorageAdmin.

(** The [Partial<User>] objects the routes pass to [updateUser]: a new
    password record, a new role, or both. *)
Record UserUpdates := {
  up_password : option string;
  up_role : option string
}.

(** [Object.assign(user, updates, { updatedAt })] *)
Definition assignUser (user : User) (updates : UserUpdates) (now : Z) : User :=
  {| id := id user;
     username := username user;
     password := default (password user) (up_password updates);
     role := default (role user) (up_role updates);
     emailVerified := emailVerified user;
     emailVerificationToken := emailVerificationToken user;
     emailVerificationExpires := emailVerificationExpires user;
     createdAt := createdAt user;
     updatedAt := now |}.

(** The rest of the interface [IStorage]. *)
Class IUserAdmin (S : Type) := {
  getUser : string -> S -> Exn (option User);
  getWaitlistEntryByVerificationToken : string -> S
                                        -> Exn (option WaitlistEntry);
  getUserByVerificationToken : string -> S -> Exn (option User);
  getAllUsers : S -> Exn (list User);
  getAllWaitlistEntries : S -> Exn (list WaitlistEntry);
  updateUser : string -> UserUpdates -> Z -> S -> Exn S
}.

(** *** class MemStorage *)

Definition mem_getUser (userId : string) (s : MemStorage) : option User :=
  mapGet userId (users s).

Definition mem_getWaitlistEntryByVerificationToken (token : string)
    (s : MemStorage) : option WaitlistEntry :=
  find (fun entry =>
          bool_decide (wl_emailVerificationToken entry = Some token))
       (mapValues (waitlistEntries s)).

Definition mem_getUserByVerificationToken (token : string) (s : MemStorage)
  : option User :=
  find (fun user => bool_decide (emailVerificationToken user = Some token))
       (mapValues (users s)).

Definition mem_getAllUsers (s : MemStorage) : list User :=
  mapValues (users s).

Definition mem_getAllWaitlistEntries (s : MemStorage) : list WaitlistEntry :=
  mapValues (waitlistEntries s).

Definition mem_updateUser (userId : string) (updates : UserUpdates) (now : Z)
    (s : MemStorage) : MemStorage :=
  match mapGet userId (users s) with
  | Some user =>
      {| users := mapSet userId (assignUser user updates now) (users s);
         waitlistEntries := waitlistEntries s |}
  | None => s
  end.

#[export] Instance memUserAdmin : IUserAdmin MemStorage := {|
  getUser userId s := Ok (mem_getUser userId s);
  getWaitlistEntryByVerificationToken token s :=
    Ok (mem_getWaitlistEntryByVerificationToken token s);
  getUserByVerificationToken token s :=
    Ok (mem_getUserByVerificationToken token s);
  getAllUsers s := Ok (mem_getAllUsers s);
  getAllWaitlistEntries s := Ok (mem_getAllWaitlistEntries s);
  updateUser userId updates now s := Ok (mem_updateUser userId updates now s)
|}.

(** *** class DbStorage *)

Definition db_getUser (userId : string) (s : DbStorage) : option User :=
  find (fun row => String.eqb (id row) userId) (db_users s).

Definition db_getWaitlistEntryByVerificationToken (token : string)
    (s : DbStorage) : option WaitlistEntry :=
  find (fun row => bool_decide (wl_emailVerificationToken row = Some token))
       (db_waitlist s).

Definition db_getUserByVerificationToken (token : string) (s : DbStorage)
  : option User :=
  find (fun row => bool_decide (emailVerificationToken row = Some token))
       (db_users s).

Definition db_updateUser (userId : string) (updates : UserUpdates) (now : Z)
    (s : DbStorage) : DbStorage :=
  {| db_users :=
       map (fun row =>
              if String.eqb (id row) userId then assignUser row updates now
              else row)
           (db_users s);
     db_waitlist := db_waitlist s |}.

#[export] Instance dbUserAdmin : IUserAdmin DbStorage := {|
  getUser userId s := Ok (db_getUser userId s);
  getWaitlistEntryByVerificationToken token s :=
    Ok (db_getWaitlistEntryByVerificationToken token s);
  getUserByVerificationToken token s :=
    Ok (db_getUserByVerificationToken token s);
  getAllUsers s := Ok (db_users s);
  getAllWaitlistEntries s := Ok (db_waitlist s);
  updateUser userId updates now s := Ok (db_updateUser userId updates now s)
|}.

(** Every entry of the users map sits under its own id, and no key
    occurs twice: what [createUser] and [updateUser] keep. *)
Definition keyedById (s : MemStorage) : Prop :=
  Forall (fun kv => fst kv = id (snd kv)) (users s)
  /\ NoDup (map fst (users s)).

End StorageAdmin.
Export StorageAdmin.

(** ** server/auth.ts: authentication and authorization *)

Module Guard.
Import Auth.

(** What the middleware stores in [req.user]: three properties of the
    decoded token, whatever they hold. *)
Record AuthUser := {
  au_id : value;
  au_username : value;
  au_role : value
}.

(** [s.substring(n)] *)
Fixpoint skipChars (n : nat) (s : string) : string :=
  match n, s with
  | O, _ => s
  | S n', String _ rest => skipChars n' rest
  | S _, EmptyString => EmptyString
  end.

(** [authHeader && authHeader.startsWith('Bearer ')
      ? authHeader.substring(7) : null] *)
Definition bearerToken (authHeader : option string) : option string :=
  match authHeader with
  | Some h =>
      if negb (String.eqb h "") && String.prefix "Bearer " h
      then Some (skipChars 7 h)
      else None
  | None => None
  end.

(** [allowedRoles.join(' or ')] *)
Fixpoint join (sep : string) (l : list string) : string :=
  match l with
  | [] => ""
  | [x] => x
  | x :: rest => x +:+ sep +:+ join sep rest
  end.

Section Middleware.
Variable cfg : Config.

(** [jwt.verify(token, secret)] of the jsonwebtoken library: the
    decoded payload, or the error it throws for a token that is
    malformed, signed with another secret or expired.  The library is
    outside these sources. *)
Variable jwtVerify : string -> string -> Exn value.

(** [jwtUtils.verifyToken(token)] *)
Definition jwtUtils_verifyToken (token : string) : Exn value :=
  match jwtVerify token (JWT_SECRET cfg) with
  | Ok decoded => Ok decoded
  | Throw _ => Throw (Error "Invalid or expired token")
  end.

(** [{ id: decoded.id, username: decoded.username, role: decoded.role }];
    reading a property of [null] or [undefined] throws. *)
Definition userOf (decoded : value) : Exn AuthUser :=
  match decoded with
  | VUndefined | VNull =>
      Throw (TypeError "Cannot read properties of undefined (reading 'id')")
  | _ =>
      Ok {| au_id := get decoded "id";
            au_username := get decoded "username";
            au_role := get decoded "role" |}
  end.

(** [authenticate]: the outcome, and [req.user] as the middleware
    leaves it. *)
Definition authenticate (req : Request) : Outcome * option AuthUser :=
  let token := bearerToken (req_authorization req) in
  if negb (present token) then
    (json 401
       [("error", VStr "Authentication required");
        ("message", VStr "No token provided")], None)
  else
    match bind (jwtUtils_verifyToken (str_or token "")) userOf with
    | Ok user => (Next, Some user)
    | Throw _ =>
        (json 401
           [("error", VStr "Authentication failed");
            ("message", VStr "Invalid or expired token")], None)
    end.

(** [optionalAuthenticate] *)
Definition optionalAuthenticate (req : Request) : Outcome * option AuthUser :=
  let token := bearerToken (req_authorization req) in
  if present token then
    match bind (jwtUtils_verifyToken (str_or token "")) userOf with
    | Ok user => (Next, Some user)
    | Throw _ => (Next, None)
    end
  else (Next, None).

End Middleware.

(** [allowedRoles.includes(userRole)] for a role that may be any
    value: only a string is ever equal to an allowed role. *)
Definition includesValue (l : list string) (v : value) : bool :=
  match v with
  | VStr s => includes l s
  | _ => false
  end.

(** [authorize(roles)], for [roles] an array. *)
Definition authorize (roles : list string) (user : option AuthUser)
  : Outcome :=
  match user with
  | None =>
      json 401
        [("error", VStr "Authentication required");
         ("message", VStr "Must be logged in to access this resource")]
  | Some u =>
      let userRole := if truthy (au_role u) then au_role u else VStr "user" in
      if negb (includesValue roles userRole) then
        json 403
          [("error", VStr "Authorization failed");
           ("message",
            VStr ("Access denied. Required role: " +:+ join " or " roles))]
      else Next
  end.

End Guard.
Export Guard.

(** ** server/routes.ts: the authenticated routes *)

Module Account.
Import Auth Routes.

Section Handlers.
Context {S : Type} {storage : IStorage S} {admin : IUserAdmin S}.
Variable cfg : Config.
Variable jwtVerify : string -> string -> Exn value.

(** [storage.getUserByUsername(req.user.username)]: no stored
    username is equal to a value that is not a string. *)
Definition currentUser (user : AuthUser) (st : S) : Exn (option User) :=
  match au_username user with
  | VStr name => getUserByUsername name st
  | _ => Ok None
  end.

(** A timestamp column in a JSON answer. *)
Definition instant (t : option Z) : value :=
  match t with
  | Some x => VNum x
  | None => VNull
  end.

(** The handler of [GET /api/me]. *)
Definition getMeHandler (reqUser : option AuthUser) (st : S) : Outcome * S :=
  match reqUser with
  | None => (json 401 [("message", VStr "Authentication required")], st)
  | Some u =>
      match currentUser u st with
      | Throw e => (Fail e, st)
      | Ok None => (json 404 [("message", VStr "User not found")], st)
      | Ok (Some user) =>
          (json 200
             [("id", VStr (id user));
              ("username", VStr (username user));
              ("role", VStr (role user));
              ("emailVerified", instant (emailVerified user));
              ("createdAt", VNum (createdAt user))],
           st)
      end
  end.

(** The handler of [PUT /api/me]. *)
Definition putMeHandler (w : World) (reqUser : option AuthUser)
    (req : Request) (st : S) : Outcome * S :=
  match reqUser with
  | None => (json 401 [("message", VStr "Authentication required")], st)
  | Some u =>
      match req_body req with
      | VUndefined | VNull =>
          (Fail (TypeError
                   "Cannot destructure property 'currentPassword' of 'req.body' as it is undefined."),
           st)
      | body =>
          let currentPassword := get body "currentPassword" in
          let newPassword := get body "newPassword" in
          if truthy newPassword && negb (truthy currentPassword) then
            (json 400
               [("message",
                 VStr "Current password required to change password")], st)
          else
            match currentUser u st with
            | Throw e => (Fail e, st)
            | Ok None => (json 404 [("message", VStr "User not found")], st)
            | Ok (Some user) =>
                let done :=
                  json 200 [("message", VStr "Profile updated successfully")]
                in
                if truthy newPassword then
                  match passwordUtils_verify currentPassword (password user)
                  with
                  | Throw e => (Fail e, st)
                  | Ok false =>
                      (json 401
                         [("message",
                           VStr "Current password is incorrect")], st)
                  | Ok true =>
                      match passwordUtils_hash cfg newPassword (saltBytes w)
                      with
                      | Throw e => (Fail e, st)
                      | Ok hashedPassword =>
                          match updateUser (id user)
                                  {| up_password := Some hashedPassword;
                                     up_role := None |}
                                  (now w) st with
                          | Throw e => (Fail e, st)
                          | Ok st' => (done, st')
                          end
                      end
                  end
                else (done, st)
            end
      end
  end.

(** The handler of [PUT /api/admin/users/:userId/role]. *)
Definition putUserRoleHandler (w : World) (userId : string) (req : Request)
    (st : S) : Outcome * S :=
  match req_body req with
  | VUndefined | VNull =>
      (Fail (TypeError
               "Cannot destructure property 'role' of 'req.body' as it is undefined."),
       st)
  | body =>
      match get body "role" with
      | VStr role =>
          if negb (includes ["user"; "admin"; "moderator"] role) then
            (json 400 [("message", VStr "Invalid role")], st)
          else
            match updateUser userId
                    {| up_password := None; up_role := Some role |}
                    (now w) st with
            | Throw e => (Fail e, st)
            | Ok st' =>
                (json 200
                   [("message", VStr "User role updated successfully")], st')
            end
      | _ => (json 400 [("message", VStr "Invalid role")], st)
      end
  end.

(** A route behind [authenticate] and, when [roles] are given,
    [authorize(roles)], under the middleware mounted on /api. *)
Definition behindAuth (roles : option (list string))
    (handler : option AuthUser -> S -> Outcome * S)
    (w : World) (req : Request) (app : App S) : Outcome * App S :=
  andThen (apiPrefix w req app) (fun app =>
    match authenticate cfg jwtVerify req with
    | (Next, reqUser) =>
        match from_option (fun r => authorize r reqUser) Next roles with
        | Next => onStore (handler reqUser) app
        | o => (o, app)
        end
    | (o, _) => (o, app)
    end).

(** [app.get("/api/me", authenticate, handler)] *)
Definition getMe (w : World) (req : Request) (app : App S) : Outcome * App S :=
  behindAuth None getMeHandler w req app.

(** [app.put("/api/me", authenticate, handler)] *)
Definition putMe (w : World) (req : Request) (app : App S) : Outcome * App S :=
  behindAuth None (fun reqUser => putMeHandler w reqUser req) w req app.

(** [app.put("/api/admin/users/:userId/role", authenticate,
    authorize(['admin']), handler)] *)
Definition putUserRole (w : World) (userId : string) (req : Request)
    (app : App S) : Outcome * App S :=
  behindAuth (Some ["admin"])
    (fun _ => putUserRoleHandler w userId req) w req app.

End Handlers.

End Account.

(** ** POST /api/register across its awaits *)

Module Registration.
Import Auth Routes.

(** What a registration holds while it waits for bcrypt.  The handler
    awaits [storage.getUserByUsername], [passwordUtils.hash], which
    bcryptjs computes in slices on the event loop, and
    [storage.createUser]; requests that arrive meanwhile run in
    between. *)
Record Pending := {
  pr_username : string;
  pr_password : value
}.

Section Steps.
Context {S : Type} `{IStorage S}.
Variable cfg : Config.

(** The handler up to [await passwordUtils.hash(password)]: the input
    is validated and the username looked up; an answer ends the
    request, otherwise it goes on with what it has read. *)
Definition registerCheck (req : Request) (st : S) : Outcome + Pending :=
  let body := nullish (req_body req) (VObj []) in
  match normalizedUsername body with
  | Throw e => inl (Fail e)
  | Ok username =>
      let password := get body "password" in
      if negb (insertUserSchema (VStr username) password) then
        inl (json 400 [("message", VStr "Invalid input")])
      else
        match getUserByUsername username st with
        | Throw e => inl (Fail e)
        | Ok (Some _) =>
            inl (json 409 [("message", VStr "User already exists")])
        | Ok None =>
            inr {| pr_username := username; pr_password := password |}
        end
  end.

(** The handler from the hash on: the insert into the store as it is
    by then, and the answer. *)
Definition registerInsert (w : World) (p : Pending) (st : S)
  : Outcome * S :=
  match passwordUtils_hash cfg (pr_password p) (saltBytes w) with
  | Throw e => (Fail e, st)
  | Ok hashedPassword =>
      match createUser
              {| iu_username := pr_username p;
                 iu_password := hashedPassword;
                 iu_role := Some "user" |}
              (newId w) (now w) st with
      | Throw e => (Fail e, st)
      | Ok (created, st') =>
          let token :=
            jwtUtils_generateToken cfg (now w)
              (id created) (Schema.username created)
              (Some (role created)) in
          (json 201
             [("user",
               VObj [("id", VStr (id created));
                     ("username", VStr (Schema.username created));
                     ("role", VStr (role created))]);
              ("token", VJwt token);
              ("message", VStr "Registration successful")],
           st')
      end
  end.

(** Two registrations in flight at once: both pass the check before
    either inserts. *)
Definition registerBoth (w1 w2 : World) (req1 req2 : Request) (st : S)
  : (Outcome * Outcome) * S :=
  match registerCheck req1 st, registerCheck req2 st with
  | inr p1, inr p2 =>
      let '(o1, st1) := registerInsert w1 p1 st in
      let '(o2, st2) := registerInsert w2 p2 st1 in
      ((o1, o2), st2)
  | inr p1, inl o2 =>
      let '(o1, st1) := registerInsert w1 p1 st in ((o1, o2), st1)
  | inl o1, inr p2 =>
      let '(o2, st2) := registerInsert w2 p2 st in ((o1, o2), st2)
  | inl o1, inl o2 => ((o1, o2), st)
  end.

End Steps.

End Registration.

(** * Properties *)

(** ** The e-mail pattern of shared/schema.ts on sample addresses *)

Section EmailPattern.

Example emailRegex_accepts_punycode :
  Regex.test emailRegex "test@xn--e1afmkfd.xn--p1ai" = true.
Proof. reflexivity. Qed.

Example emailRegex_accepts_subdomain : Regex.test emailRegex "a@b.c.d" = true.
Proof. reflexivity. Qed.

Example emailRegex_rejects_no_at :
  Regex.test emailRegex "invalid-email-format" = false.
Proof. reflexivity. Qed.

Example emailRegex_rejects_two_ats : Regex.test emailRegex "a@b@c.d" = false.
Proof. reflexivity. Qed.

Example emailRegex_rejects_empty_host : Regex.test emailRegex "a@.c" = false.
Proof. reflexivity. Qed.

Example emailRegex_rejects_space : Regex.test emailRegex "a @b.c" = false.
Proof. reflexivity. Qed.

End EmailPattern.

(** ** The rate limiters *)

Section RateLimit.
Import Auth RateWindow.

Lemma ceilDiv_bounds (a b : Z) :
  0 < b -> b * (ceilDiv a b - 1) < a <= b * ceilDiv a b.
Proof.
  intros Hb. unfold ceilDiv.
  pose proof (Z.div_mod (- a) b ltac:(lia)) as Hdm.
  pose proof (Z.mod_pos_bound (- a) b Hb) as Hm.
  nia.
Qed.

Lemma ceilDiv_nonneg (a b : Z) : 0 < b -> 0 <= a -> 0 <= ceilDiv a b.
Proof. intros Hb Ha. pose proof (ceilDiv_bounds a b Hb). nia. Qed.

Lemma ceilDiv_pos (a b : Z) : 0 < b -> 0 < a -> 0 < ceilDiv a b.
Proof. intros Hb Ha. pose proof (ceilDiv_bounds a b Hb). nia. Qed.

Lemma ceilDiv_zero (b : Z) : ceilDiv 0 b = 0.
Proof. unfold ceilDiv. simpl. rewrite Zdiv_0_l. reflexivity. Qed.

Variables maxRequests windowMs : Z.
Variable req : Request.
Variable now : Z.
Variable m : gmap string Stats.

Lemma strictRateLimitByIP_first :
  m !! clientIP req = None ->
  strictRateLimitByIP maxRequests windowMs req now m
  = (Next, <[clientIP req := fresh windowMs now]> m).
Proof.
  intros Hm. unfold strictRateLimitByIP. fold (clientIP req).
  rewrite Hm. reflexivity.
Qed.

Lemma strictRateLimitByIP_expired st :
  m !! clientIP req = Some st -> resetTime st < now ->
  strictRateLimitByIP maxRequests windowMs req now m
  = (Next, <[clientIP req := fresh windowMs now]> m).
Proof.
  intros Hm Ht. unfold strictRateLimitByIP. fold (clientIP req).
  rewrite Hm. destruct (Z.gtb_spec now (resetTime st)); [reflexivity | lia].
Qed.

Lemma strictRateLimitByIP_under st :
  m !! clientIP req = Some st -> now <= resetTime st ->
  count st < maxRequests ->
  strictRateLimitByIP maxRequests windowMs req now m
  = (Next, <[clientIP req := bumped st]> m).
Proof.
  intros Hm Ht Hc. unfold strictRateLimitByIP. fold (clientIP req).
  rewrite Hm. destruct (Z.gtb_spec now (resetTime st)); [lia |].
  destruct (Z.geb_spec (count st) maxRequests); [lia | reflexivity].
Qed.

Lemma strictRateLimitByIP_over st :
  m !! clientIP req = Some st -> now <= resetTime st ->
  maxRequests <= count st ->
  strictRateLimitByIP maxRequests windowMs req now m = (ipDenied now st, m).
Proof.
  intros Hm Ht Hc. unfold strictRateLimitByIP. fold (clientIP req).
  rewrite Hm. destruct (Z.gtb_spec now (resetTime st)); [lia |].
  destruct (Z.geb_spec (count st) maxRequests); [reflexivity | lia].
Qed.

Lemma rateLimitByUser_first :
  m !! userKey req = None ->
  rateLimitByUser maxRequests windowMs req now m
  = (Next, <[userKey req := fresh windowMs now]> m).
Proof.
  intros Hm. unfold rateLimitByUser. fold (userKey req).
  rewrite Hm. reflexivity.
Qed.

Lemma rateLimitByUser_expired st :
  m !! userKey req = Some st -> resetTime st < now ->
  rateLimitByUser maxRequests windowMs req now m
  = (Next, <[userKey req := fresh windowMs now]> m).
Proof.
  intros Hm Ht. unfold rateLimitByUser. fold (userKey req).
  rewrite Hm. destruct (Z.gtb_spec now (resetTime st)); [reflexivity | lia].
Qed.

Lemma rateLimitByUser_under st :
  m !! userKey req = Some st -> now <= resetTime st ->
  count st < maxRequests ->
  rateLimitByUser maxRequests windowMs req now m
  = (Next, <[userKey req := bumped st]> m).
Proof.
  intros Hm Ht Hc. unfold rateLimitByUser. fold (userKey req).
  rewrite Hm. destruct (Z.gtb_spec now (resetTime st)); [lia |].
  destruct (Z.geb_spec (count st) maxRequests); [lia | reflexivity].
Qed.

Lemma rateLimitByUser_over st :
  m !! userKey req = Some st -> now <= resetTime st ->
  maxRequests <= count st ->
  rateLimitByUser maxRequests windowMs req now m = (userDenied now st, m).
Proof.
  intros Hm Ht Hc. unfold rateLimitByUser. fold (userKey req).
  rewrite Hm. destruct (Z.gtb_spec now (resetTime st)); [lia |].
  destruct (Z.geb_spec (count st) maxRequests); [reflexivity | lia].
Qed.

(** A limiter that lets a request pass has changed that client's
    counter (for a positive window). *)
Lemma strictRateLimitByIP_next_counts m' :
  0 < windowMs ->
  strictRateLimitByIP maxRequests windowMs req now m = (Next, m') ->
  m' !! clientIP req <> m !! clientIP req
  /\ (m' !! clientIP req = Some (fresh windowMs now)
      \/ exists st, m !! clientIP req = Some st
                    /\ m' !! clientIP req = Some (bumped st)).
Proof.
  intros Hw. unfold strictRateLimitByIP. fold (clientIP req).
  destruct (m !! clientIP req) as [st|] eqn:Hm.
  - destruct (Z.gtb_spec now (resetTime st)).
    + intros [= <-]. rewrite lookup_insert_eq. split; [| by left].
      intros [= Heq]. subst st. simpl in *. lia.
    + destruct (Z.geb_spec (count st) maxRequests); [discriminate |].
      intros [= <-]. rewrite lookup_insert_eq. split.
      * intros [= Heq]. destruct st; simpl in *. injection Heq. lia.
      * right. eauto.
  - intros [= <-]. rewrite lookup_insert_eq. split; [discriminate | by left].
Qed.

(** A limiter that answers leaves the map alone, and answers 429. *)
Lemma strictRateLimitByIP_respond r m' :
  strictRateLimitByIP maxRequests windowMs req now m = (Respond r, m') ->
  m' = m /\ status r = 429.
Proof.
  unfold strictRateLimitByIP.
  destruct (m !! _) as [st|]; [| discriminate].
  destruct (_ >? _); [discriminate |].
  destruct (_ >=? _); [| discriminate].
  intros [= <- <-]. split; reflexivity.
Qed.

Lemma strictRateLimitByIP_never_fails e m' :
  strictRateLimitByIP maxRequests windowMs req now m <> (Fail e, m').
Proof.
  unfold strictRateLimitByIP.
  destruct (m !! _) as [st|]; [| discriminate].
  destruct (_ >? _); [discriminate |].
  destruct (_ >=? _); discriminate.
Qed.

End RateLimit.

Section FixedWindow.
Import Auth RateWindow SpecRateLimiter Scenario.

Lemma ipDenied_decision now st :
  decision (ipDenied now st)
  = Some (Denied (ceilDiv (resetTime st - now) 1000)).
Proof. reflexivity. Qed.

(** Six requests inside one window of five, then one after it. *)
Lemma replay_five_of_sixty (req : Request) (m : gmap string Stats)
    (t1 t2 t3 t4 t5 t6 t7 : Z) :
  m !! clientIP req = None ->
  t2 <= t1 + 60000 -> t3 <= t1 + 60000 -> t4 <= t1 + 60000 ->
  t5 <= t1 + 60000 -> t6 <= t1 + 60000 -> t1 + 60000 < t7 ->
  exists m',
    replay (strictRateLimitByIP 5 60000) req [t1; t2; t3; t4; t5; t6; t7] m
    = ([Next; Next; Next; Next; Next;
        ipDenied t6 {| count := 5; resetTime := t1 + 60000 |}; Next], m')
    /\ m' !! clientIP req = Some (fresh 60000 t7)
    /\ forall k, k <> clientIP req -> m' !! k = m !! k.
Proof.
  intros Hm H2 H3 H4 H5 H6 H7. eexists. split; [| split].
  - unfold replay.
    rewrite (strictRateLimitByIP_first _ _ _ _ _ Hm).
    rewrite (strictRateLimitByIP_under 5 60000 req t2 _ (fresh 60000 t1))
      by (rewrite ?lookup_insert_eq; simpl; (reflexivity || lia)).
    rewrite (strictRateLimitByIP_under 5 60000 req t3 _
               (bumped (fresh 60000 t1)))
      by (rewrite ?lookup_insert_eq; simpl; (reflexivity || lia)).
    rewrite (strictRateLimitByIP_under 5 60000 req t4 _
               (bumped (bumped (fresh 60000 t1))))
      by (rewrite ?lookup_insert_eq; simpl; (reflexivity || lia)).
    rewrite (strictRateLimitByIP_under 5 60000 req t5 _
               (bumped (bumped (bumped (fresh 60000 t1)))))
      by (rewrite ?lookup_insert_eq; simpl; (reflexivity || lia)).
    rewrite (strictRateLimitByIP_over 5 60000 req t6 _
               (bumped (bumped (bumped (bumped (fresh 60000 t1))))))
      by (rewrite ?lookup_insert_eq; simpl; (reflexivity || lia)).
    rewrite (strictRateLimitByIP_expired 5 60000 req t7 _
               (bumped (bumped (bumped (bumped (fresh 60000 t1))))))
      by (rewrite ?lookup_insert_eq; simpl; (reflexivity || lia)).
    reflexivity.
  - apply lookup_insert_eq.
  - intros k Hk. rewrite !lookup_insert_ne by congruence. reflexivity.
Qed.

(** The code and the specification's words part ways when a request
    arrives exactly at [resetTime]: the specification opens a new
    window, the code still counts the request in the old one, and a
    client at its limit is told to retry in 0 seconds. *)
Lemma C3_boundary_counterexample :
  let req := requestFrom "203.0.113.7" in
  let m : gmap string Stats :=
    {[ "203.0.113.7" := {| count := 5; resetTime := 60000 |} ]} in
  fst (SpecRateLimiter.checkAndIncrement (clientIP req) 5 60000 60000 m)
  = Allowed
  /\ decision (fst (strictRateLimitByIP 5 60000 req 60000 m))
     = Some (Denied 0)
  /\ ~ (0 < 0).
Proof. vm_compute. split; [reflexivity | split; [reflexivity | intros [=]]]. Qed.

(** C3 (amended).  Both limiters of server/auth.ts are fixed-window
    counters per key: with no entry for the key, or when [now] is
    strictly later than [resetTime], the entry becomes count 1 with
    [resetTime = now + windowMs] and the request passes; otherwise,
    while [count < maxRequests], the count goes up by one and the
    request passes; otherwise the request is answered 429, the map is
    left as it is, and [strictRateLimitByIP] reports
    [retryAfter = ceil((resetTime - now) / 1000)] seconds, which is never
    negative and is positive whenever [now < resetTime].  With
    [maxRequests = 5] and a window of 60 s, five calls inside the
    window pass, the sixth is denied, and a call after [resetTime]
    passes with the count back at 1. *)
Theorem C3_fixed_window_rate_limiter :
  forall (maxRequests windowMs now : Z) (req : Request)
         (m : gmap string Stats),
    (m !! clientIP req = None ->
       strictRateLimitByIP maxRequests windowMs req now m
       = (Next, <[clientIP req := fresh windowMs now]> m))
    /\ (m !! userKey req = None ->
          rateLimitByUser maxRequests windowMs req now m
          = (Next, <[userKey req := fresh windowMs now]> m))
    /\ (forall st, m !! clientIP req = Some st ->
          (resetTime st < now ->
             strictRateLimitByIP maxRequests windowMs req now m
             = (Next, <[clientIP req := fresh windowMs now]> m))
          /\ (now <= resetTime st -> count st < maxRequests ->
                strictRateLimitByIP maxRequests windowMs req now m
                = (Next, <[clientIP req := bumped st]> m))
          /\ (now <= resetTime st -> maxRequests <= count st ->
                strictRateLimitByIP maxRequests windowMs req now m
                = (ipDenied now st, m)
                /\ decision (ipDenied now st)
                   = Some (Denied (ceilDiv (resetTime st - now) 1000))
                /\ 1000 * (ceilDiv (resetTime st - now) 1000 - 1)
                   < resetTime st - now
                   <= 1000 * ceilDiv (resetTime st - now) 1000
                /\ 0 <= ceilDiv (resetTime st - now) 1000
                /\ (now < resetTime st
                    -> 0 < ceilDiv (resetTime st - now) 1000)))
    /\ (forall st, m !! userKey req = Some st ->
          (resetTime st < now ->
             rateLimitByUser maxRequests windowMs req now m
             = (Next, <[userKey req := fresh windowMs now]> m))
          /\ (now <= resetTime st -> count st < maxRequests ->
                rateLimitByUser maxRequests windowMs req now m
                = (Next, <[userKey req := bumped st]> m))
          /\ (now <= resetTime st -> maxRequests <= count st ->
                rateLimitByUser maxRequests windowMs req now m
                = (userDenied now st, m)))
    /\ (forall t1 t2 t3 t4 t5 t6 t7,
          m !! clientIP req = None ->
          t2 <= t1 + 60000 -> t3 <= t1 + 60000 -> t4 <= t1 + 60000 ->
          t5 <= t1 + 60000 -> t6 <= t1 + 60000 -> t1 + 60000 < t7 ->
          exists m',
            replay (strictRateLimitByIP 5 60000) req
              [t1; t2; t3; t4; t5; t6; t7] m
            = ([Next; Next; Next; Next; Next;
                ipDenied t6 {| count := 5; resetTime := t1 + 60000 |};
                Next], m')
            /\ (t6 < t1 + 60000 -> 0 < ceilDiv (t1 + 60000 - t6) 1000)
            /\ m' !! clientIP req = Some (fresh 60000 t7)).
Proof.
  intros maxRequests windowMs now req m.
  split; [apply strictRateLimitByIP_first |].
  split; [apply rateLimitByUser_first |].
  split; [| split].
  - intros st Hst. split; [| split].
    + apply strictRateLimitByIP_expired; assumption.
    + apply strictRateLimitByIP_under; assumption.
    + intros Ht Hc. split; [apply strictRateLimitByIP_over; assumption |].
      split; [apply ipDenied_decision |].
      split; [apply ceilDiv_bounds; lia |].
      split; [apply ceilDiv_nonneg; lia |].
      intros Hlt. apply ceilDiv_pos; lia.
  - intros st Hst. split; [| split].
    + apply rateLimitByUser_expired; assumption.
    + apply rateLimitByUser_under; assumption.
    + apply rateLimitByUser_over; assumption.
  - intros t1 t2 t3 t4 t5 t6 t7 Hm H2 H3 H4 H5 H6 H7.
    destruct (replay_five_of_sixty req m t1 t2 t3 t4 t5 t6 t7)
      as (m' & Hr & Hk & _); try assumption.
    exists m'. split; [exact Hr |]. split; [| exact Hk].
    intros Hlt. apply ceilDiv_pos; lia.
Qed.

(** The scenario of C3 at concrete clock readings. *)
Lemma C3_fixed_window_witness :
  exists m',
    replay (strictRateLimitByIP 5 60000) (requestFrom "203.0.113.7")
      [0; 10000; 20000; 30000; 40000; 59500; 60001] ∅
    = ([Next; Next; Next; Next; Next;
        ipDenied 59500 {| count := 5; resetTime := 0 + 60000 |}; Next], m')
    /\ (59500 < 0 + 60000 -> 0 < ceilDiv (0 + 60000 - 59500) 1000)
    /\ m' !! clientIP (requestFrom "203.0.113.7") = Some (fresh 60000 60001).
Proof.
  destruct (C3_fixed_window_rate_limiter 5 60000 0
              (requestFrom "203.0.113.7") ∅) as (_ & _ & _ & _ & Hs).
  apply Hs; [reflexivity | lia | lia | lia | lia | lia | lia].
Defined.

End FixedWindow.

(** ** The gateway pipeline of the public endpoints *)

Section Gateway.
Import Auth RateWindow Scenario Routes.
Context {S : Type} `{IStorage S}.
Variable cfg : Config.
Variable refererOrigin : string -> Exn string.

Lemma requireApiKey_cases (req : Request) :
  (present (req_apiKey req) = false
   /\ exists r, requireApiKey cfg req = Respond r /\ status r = 401)
  \/ (present (req_apiKey req) = true
      /\ str_or (req_apiKey req) "" <> API_KEY cfg
      /\ exists r, requireApiKey cfg req = Respond r /\ status r = 403)
  \/ (present (req_apiKey req) = true
      /\ str_or (req_apiKey req) "" = API_KEY cfg
      /\ requireApiKey cfg req = Next).
Proof.
  unfold requireApiKey.
  destruct (present (req_apiKey req)); simpl.
  - destruct (String.eqb_spec (str_or (req_apiKey req) "") (API_KEY cfg));
      simpl.
    + right; right. auto.
    + right; left. split; [reflexivity |]. split; [assumption |].
      eexists; split; reflexivity.
  - left. split; [reflexivity |]. eexists; split; reflexivity.
Qed.

(** The middleware mounted on /api touches the per-user map only. *)
Lemma apiPrefix_frame (w : World) (req : Request) (app : App S) :
  ipRequestCounts (snd (apiPrefix w req app)) = ipRequestCounts app
  /\ store (snd (apiPrefix w req app)) = store app.
Proof.
  unfold apiPrefix, andThen, pure, onUserCounts, logAuthenticatedRequest.
  simpl. destruct (rateLimitByUser _ _ _ _ _). simpl. split; reflexivity.
Qed.

(** The chain of a public endpoint up to and including the API key
    check, for a request that the IP limiter lets pass and whose key
    is refused. *)
Lemma publicChain_key_refused (maxRequests : Z)
    (handler : App S -> Outcome * App S)
    (w : World) (req : Request) (app : App S) (m' : gmap string Stats) :
  fst (apiPrefix w req app) = Next ->
  requireApiKey cfg req <> Next ->
  strictRateLimitByIP maxRequests (60 * 60 * 1000) req (nowIP w)
    (ipRequestCounts app) = (Next, m') ->
  let out :=
    andThen (apiPrefix w req app) (fun app =>
    andThen (onIpCounts
               (strictRateLimitByIP maxRequests (60 * 60 * 1000) req (nowIP w))
               app) (fun app =>
    andThen (pure (requireApiKey cfg req) app) (fun app =>
    andThen (pure (validateOrigin cfg refererOrigin req) app) handler))) in
  fst out = requireApiKey cfg req
  /\ ipRequestCounts (snd out) = m'
  /\ m' !! clientIP req <> ipRequestCounts app !! clientIP req
  /\ store (snd out) = store app.
Proof.
  intros Hpre Hkey Hip out.
  destruct (apiPrefix_frame w req app) as [Hic Hst].
  destruct (strictRateLimitByIP_next_counts maxRequests (60 * 60 * 1000) req
              (nowIP w) (ipRequestCounts app) m' ltac:(lia) Hip)
    as [Hne _].
  assert (Hout : out = (requireApiKey cfg req,
                        {| userRequestCounts :=
                             userRequestCounts (snd (apiPrefix w req app));
                           ipRequestCounts := m';
                           store := store (snd (apiPrefix w req app)) |})).
  { subst out. destruct (apiPrefix w req app) as [o app1].
    simpl in *. subst o.
    unfold andThen, onIpCounts, pure. simpl. rewrite Hic, Hip. simpl.
    destruct (requireApiKey cfg req); [congruence | reflexivity ..]. }
  rewrite Hout. simpl. auto.
Qed.

(** The same chain for a request that the IP limiter refuses. *)
Lemma publicChain_ip_refused (maxRequests : Z)
    (handler : App S -> Outcome * App S)
    (w : World) (req : Request) (app : App S) (r : Response)
    (m' : gmap string Stats) :
  fst (apiPrefix w req app) = Next ->
  strictRateLimitByIP maxRequests (60 * 60 * 1000) req (nowIP w)
    (ipRequestCounts app) = (Respond r, m') ->
  let out :=
    andThen (apiPrefix w req app) (fun app =>
    andThen (onIpCounts
               (strictRateLimitByIP maxRequests (60 * 60 * 1000) req (nowIP w))
               app) (fun app =>
    andThen (pure (requireApiKey cfg req) app) (fun app =>
    andThen (pure (validateOrigin cfg refererOrigin req) app) handler))) in
  fst out = Respond r
  /\ status r = 429
  /\ ipRequestCounts (snd out) = ipRequestCounts app
  /\ store (snd out) = store app.
Proof.
  intros Hpre Hip out.
  destruct (apiPrefix_frame w req app) as [Hic Hst].
  destruct (strictRateLimitByIP_respond _ _ _ _ _ _ _ Hip) as [-> Hs].
  assert (Hout : out = (Respond r,
                        {| userRequestCounts :=
                             userRequestCounts (snd (apiPrefix w req app));
                           ipRequestCounts := ipRequestCounts app;
                           store := store (snd (apiPrefix w req app)) |})).
  { subst out. destruct (apiPrefix w req app) as [o app1].
    simpl in *. subst o.
    unfold andThen, onIpCounts, pure. simpl. rewrite Hic, Hip. reflexivity. }
  rewrite Hout. simpl. auto.
Qed.

(** C1 (amended).  On the registration and waitlist endpoints the IP
    rate limit runs before the API key check.  A request that the
    limiters let pass and whose x-api-key header is absent or wrong is
    answered by the API key check (401 when absent, 403 when wrong)
    after the IP limiter has counted it: the counter of that client has
    changed, and the store has not.  A request that the IP limiter
    refuses is answered 429 whatever its API key, with the counter and
    the store unchanged. *)
Theorem C1_ip_rate_limit_precedes_api_key :
  forall (w : World) (req : Request) (app : App S),
    fst (apiPrefix w req app) = Next ->
    (requireApiKey cfg req <> Next ->
       (exists r, requireApiKey cfg req = Respond r
                  /\ (status r = 401 /\ present (req_apiKey req) = false
                      \/ status r = 403 /\ present (req_apiKey req) = true))
       /\ (forall m',
             strictRateLimitByIP 5 (60 * 60 * 1000) req (nowIP w)
               (ipRequestCounts app) = (Next, m') ->
             let out := postRegister cfg refererOrigin w req app in
             fst out = requireApiKey cfg req
             /\ ipRequestCounts (snd out) = m'
             /\ m' !! clientIP req <> ipRequestCounts app !! clientIP req
             /\ store (snd out) = store app)
       /\ (forall m',
             strictRateLimitByIP 10 (60 * 60 * 1000) req (nowIP w)
               (ipRequestCounts app) = (Next, m') ->
             let out := postWaitlist cfg refererOrigin w req app in
             fst out = requireApiKey cfg req
             /\ ipRequestCounts (snd out) = m'
             /\ m' !! clientIP req <> ipRequestCounts app !! clientIP req
             /\ store (snd out) = store app))
    /\ (forall r m',
          strictRateLimitByIP 5 (60 * 60 * 1000) req (nowIP w)
            (ipRequestCounts app) = (Respond r, m') ->
          let out := postRegister cfg refererOrigin w req app in
          fst out = Respond r /\ status r = 429
          /\ ipRequestCounts (snd out) = ipRequestCounts app
          /\ store (snd out) = store app)
    /\ (forall r m',
          strictRateLimitByIP 10 (60 * 60 * 1000) req (nowIP w)
            (ipRequestCounts app) = (Respond r, m') ->
          let out := postWaitlist cfg refererOrigin w req app in
          fst out = Respond r /\ status r = 429
          /\ ipRequestCounts (snd out) = ipRequestCounts app
          /\ store (snd out) = store app).
Proof.
  intros w req app Hpre. split; [| split].
  - intros Hkey. split; [| split].
    + destruct (requireApiKey_cases req)
        as [(Hp & r & Hr & Hs) | [(Hp & _ & r & Hr & Hs) | (_ & _ & Hn)]];
        [exists r; auto | exists r; auto | congruence].
    + intros m' Hip.
      exact (publicChain_key_refused 5 _ w req app m' Hpre Hkey Hip).
    + intros m' Hip.
      exact (publicChain_key_refused 10 _ w req app m' Hpre Hkey Hip).
  - intros r m' Hip.
    exact (publicChain_ip_refused 5 _ w req app r m' Hpre Hip).
  - intros r m' Hip.
    exact (publicChain_ip_refused 10 _ w req app r m' Hpre Hip).
Qed.

End Gateway.

(** A registration request without an API key, sent to a fresh process:
    it is refused with 401, and the IP limiter has counted it. *)
Lemma C1_counterexample :
  let req :=
    Scenario.publicRequest "203.0.113.7" None
      [("username", VStr "ann@example.com"); ("password", VStr "secret123")] in
  let w := {| Routes.nowUser := 1000; Routes.nowIP := 1000; Routes.now := 1000;
              Routes.timeZone := Scenario.utc;
              Routes.newId := "u-1"; Routes.saltBytes := [];
              Routes.tokenBytes := [] |} in
  let app := {| Routes.userRequestCounts := ∅; Routes.ipRequestCounts := ∅;
                Routes.store := emptyMem |} in
  let out := Routes.postRegister Auth.defaultConfig Scenario.noReferer w req app in
  fst out = Auth.requireApiKey Auth.defaultConfig req
  /\ (exists r, fst out = Respond r /\ status r = 401)
  /\ Routes.ipRequestCounts app !! "203.0.113.7" = None
  /\ Routes.ipRequestCounts (snd out) !! "203.0.113.7"
     = Some {| Auth.count := 1; Auth.resetTime := 3601000 |}.
Proof.
  vm_compute. split; [reflexivity |]. split; [| split; reflexivity].
  eexists. split; reflexivity.
Qed.

(** C1 at a concrete request: the API key is wrong, the limiters let the
    request pass, and the counter has moved from nothing to one. *)
Lemma C1_witness :
  let req :=
    Scenario.publicRequest "203.0.113.7" (Some "not-the-key")
      [("name", VStr "Ann"); ("email", VStr "ann@example.com")] in
  let w := {| Routes.nowUser := 1000; Routes.nowIP := 1000; Routes.now := 1000;
              Routes.timeZone := Scenario.utc;
              Routes.newId := "w-1"; Routes.saltBytes := [];
              Routes.tokenBytes := [] |} in
  let app := {| Routes.userRequestCounts := ∅; Routes.ipRequestCounts := ∅;
                Routes.store := emptyMem |} in
  let m' : gmap string Auth.Stats :=
    {[ "203.0.113.7" := RateWindow.fresh (60 * 60 * 1000) 1000 ]} in
  let out := Routes.postWaitlist Auth.defaultConfig Scenario.noReferer w req app in
  fst out = Auth.requireApiKey Auth.defaultConfig req
  /\ Routes.ipRequestCounts (snd out) = m'
  /\ m' !! Auth.clientIP req <> Routes.ipRequestCounts app !! Auth.clientIP req
  /\ Routes.store (snd out) = Routes.store app.
Proof.
  intros req w app m'.
  destruct (C1_ip_rate_limit_precedes_api_key Auth.defaultConfig
              Scenario.noReferer w req app eq_refl) as (Hk & _).
  destruct (Hk ltac:(discriminate)) as (_ & _ & Hw).
  apply Hw. reflexivity.
Defined.

(** ** SHA-256 digests and the comparison of verification tokens *)

Section TokenHash.
Import Crypto Verification.

Example sha256_abc :
  sha256Hex "abc"
  = "ba7816bf8f01cfea414140de5dae2223b00361a396177a9cb410ff61f20015ad".
Proof. vm_compute. reflexivity. Qed.

Example sha256_empty :
  sha256Hex ""
  = "e3b0c44298fc1c149afbf4c8996fb92427ae41e4649b934ca495991b7852b855".
Proof. vm_compute. reflexivity. Qed.

Example sha256_two_blocks :
  sha256Hex "abcdbcdecdefdefgefghfghighijhijkijkljklmklmnlmnomnopnopq"
  = "248d6a61d20638b8e5c026930c3e6039a33ce45964ff2167f6ecedd419db06c1".
Proof. vm_compute. reflexivity. Qed.

Lemma hexDigest_length (s : HashState) : String.length (hexDigest s) = 64%nat.
Proof. reflexivity. Qed.

Lemma hexDigit_code (d : Z) :
  0 <= d < 16 ->
  Z.of_N (Ascii.N_of_ascii (hexDigit d))
  = if d <? 10 then 48 + d else 87 + d.
Proof.
  intros Hd.
  assert (Hc : d = 0 \/ d = 1 \/ d = 2 \/ d = 3 \/ d = 4 \/ d = 5 \/ d = 6
               \/ d = 7 \/ d = 8 \/ d = 9 \/ d = 10 \/ d = 11 \/ d = 12
               \/ d = 13 \/ d = 14 \/ d = 15) by lia.
  repeat (destruct Hc as [-> | Hc]; [reflexivity |]). subst d. reflexivity.
Qed.

Lemma bufferFrom_hexDigit (d : Z) (rest : string) :
  0 <= d < 16 ->
  bufferFrom (String (hexDigit d) rest)
  = (if d <? 10 then 48 + d else 87 + d) :: bufferFrom rest.
Proof.
  intros Hd. cbn [bufferFrom]. rewrite (hexDigit_code d Hd).
  destruct (d <? 10);
    match goal with
    | |- context [?n <? 128] =>
        destruct (Z.ltb_spec n 128); [reflexivity | lia]
    end.
Qed.

Lemma bufferFrom_hex32_length (x : Z) (tail : string) :
  length (bufferFrom (hex32 x tail)) = (8 + length (bufferFrom tail))%nat.
Proof.
  unfold hex32.
  repeat (rewrite bufferFrom_hexDigit by (apply Z.mod_pos_bound; lia)).
  reflexivity.
Qed.

(** A hexadecimal digest is 64 bytes long as a buffer. *)
Lemma bufferFrom_hexDigest_length (s : HashState) :
  length (bufferFrom (hexDigest s)) = 64%nat.
Proof.
  unfold hexDigest. rewrite !bufferFrom_hex32_length. reflexivity.
Qed.

(** The UTF-8 bytes of one code unit, read back. *)
Lemma bufferFrom_cons (c : Ascii.ascii) (rest : string) :
  let n := Z.of_N (Ascii.N_of_ascii c) in
  (n < 128 /\ bufferFrom (String c rest) = n :: bufferFrom rest)
  \/ (128 <= n
      /\ exists b1 b2,
           bufferFrom (String c rest) = b1 :: b2 :: bufferFrom rest
           /\ 192 <= b1 /\ n = (b1 - 192) * 64 + (b2 - 128)).
Proof.
  cbn [bufferFrom].
  destruct c as [[] [] [] [] [] [] [] []]; cbv zeta;
    (left; split; [reflexivity | reflexivity])
    || (right; split; [vm_compute; discriminate |];
        eexists; eexists; split; [reflexivity |];
        split; [vm_compute; discriminate | reflexivity]).
Qed.

Lemma N_of_ascii_inj (c1 c2 : Ascii.ascii) :
  Z.of_N (Ascii.N_of_ascii c1) = Z.of_N (Ascii.N_of_ascii c2) -> c1 = c2.
Proof.
  intros E. apply N2Z.inj in E.
  rewrite <- (Ascii.ascii_N_embedding c1), <- (Ascii.ascii_N_embedding c2).
  congruence.
Qed.

(** [Buffer.from] is injective. *)
Lemma bufferFrom_inj (s1 s2 : string) :
  bufferFrom s1 = bufferFrom s2 -> s1 = s2.
Proof.
  revert s2. induction s1 as [| c1 r1 IH]; intros [| c2 r2] E.
  - reflexivity.
  - exfalso. destruct (bufferFrom_cons c2 r2) as [[_ E2] | (_ & b1 & b2 & E2 & _)];
      rewrite E2 in E; discriminate.
  - exfalso. destruct (bufferFrom_cons c1 r1) as [[_ E1] | (_ & b1 & b2 & E1 & _)];
      rewrite E1 in E; discriminate.
  - destruct (bufferFrom_cons c1 r1) as [[L1 E1] | (L1 & a1 & a2 & E1 & Ha & Hn1)];
      destruct (bufferFrom_cons c2 r2) as [[L2 E2] | (L2 & b1 & b2 & E2 & Hb & Hn2)];
      rewrite E1, E2 in E.
    + injection E as En Er. f_equal; [apply N_of_ascii_inj; exact En | auto].
    + exfalso. injection E as En _. lia.
    + exfalso. injection E as En _. lia.
    + injection E as Ea Eb Er. f_equal; [apply N_of_ascii_inj; lia | auto].
Qed.

Lemma fixedTimeDiff_zero (a b : list Z) (acc : Z) :
  length a = length b ->
  fixedTimeDiff a b acc = 0 <-> acc = 0 /\ a = b.
Proof.
  revert b acc. induction a as [| x a IH]; intros [| y b] acc Hlen;
    try discriminate; cbn [fixedTimeDiff].
  - tauto.
  - injection Hlen as Hlen. rewrite (IH b _ Hlen), Z.lor_eq_0_iff, Z.lxor_eq_0_iff.
    split.
    + intros [[-> ->] ->]. auto.
    + intros [-> [= -> ->]]. auto.
Qed.

(** On buffers of one length, [timingSafeEqual] is equality. *)
Lemma timingSafeEqual_same_length (a b : list Z) :
  length a = length b ->
  timingSafeEqual a b = Ok (bool_decide (a = b)).
Proof.
  intros Hlen. unfold timingSafeEqual.
  rewrite Hlen, Nat.eqb_refl. cbn [negb]. f_equal.
  destruct (Z.eqb_spec (fixedTimeDiff a b 0) 0) as [E | E];
    rewrite (fixedTimeDiff_zero a b 0 Hlen) in E.
  - symmetry. apply bool_decide_eq_true. tauto.
  - symmetry. apply bool_decide_eq_false. tauto.
Qed.

Lemma timingSafeEqual_other_length (a b : list Z) :
  length a <> length b ->
  timingSafeEqual a b
  = Throw (RangeError "Input buffers must have the same byte length").
Proof.
  intros Hlen. unfold timingSafeEqual.
  destruct (Nat.eqb_spec (length a) (length b)); [contradiction | reflexivity].
Qed.

(** [verifyTokenHash] against a stored hash of the digest's length. *)
Lemma verifyTokenHash_same_length (token hash : string) :
  length (bufferFrom hash) = 64%nat ->
  verifyTokenHash token hash
  = Ok (bool_decide (hashVerificationToken token = hash)).
Proof.
  intros Hlen. unfold verifyTokenHash.
  rewrite timingSafeEqual_same_length
    by (unfold hashVerificationToken, sha256Hex;
        rewrite bufferFrom_hexDigest_length; congruence).
  f_equal. apply bool_decide_ext. split; [apply bufferFrom_inj | congruence].
Qed.

(** [verifyTokenHash] against a stored hash of any other length. *)
Lemma verifyTokenHash_other_length (token hash : string) :
  length (bufferFrom hash) <> 64%nat ->
  verifyTokenHash token hash
  = Throw (RangeError "Input buffers must have the same byte length").
Proof.
  intros Hlen. unfold verifyTokenHash.
  apply timingSafeEqual_other_length.
  unfold hashVerificationToken, sha256Hex.
  rewrite bufferFrom_hexDigest_length. congruence.
Qed.

(** [verifyTokenHash] against the hash of an issued token. *)
Lemma verifyTokenHash_issued (token issued : string) :
  verifyTokenHash token (hashVerificationToken issued)
  = Ok (bool_decide (hashVerificationToken token
                     = hashVerificationToken issued)).
Proof.
  apply verifyTokenHash_same_length.
  apply bufferFrom_hexDigest_length.
Qed.

(** C4.  [verifyTokenHash] has no length check of its own: handed a
    stored hash that is not 64 bytes long, here "deadbeef", it does not
    return false but throws the RangeError of [crypto.timingSafeEqual]. *)
Theorem C4_verifyTokenHash_throws_on_length_mismatch :
  verifyTokenHash "abc" "deadbeef"
  = Throw (RangeError "Input buffers must have the same byte length").
Proof. vm_compute. reflexivity. Qed.

End TokenHash.

(** ** bcrypt's radix-64 encoding *)

Section Base64.
Import Bcrypt.

Lemma range_check (f : Z -> bool) (n : Z) :
  forallb f (seqZ 0 n) = true -> forall x, 0 <= x < n -> f x = true.
Proof.
  intros Hall x Hx. rewrite forallb_forall in Hall. apply Hall.
  apply list_elem_of_In, elem_of_seqZ. lia.
Qed.

Lemma range_check2 (f : Z -> Z -> bool) (n m : Z) :
  forallb (fun x => forallb (f x) (seqZ 0 m)) (seqZ 0 n) = true ->
  forall x y, 0 <= x < n -> 0 <= y < m -> f x y = true.
Proof.
  intros Hall x y Hx Hy.
  apply (range_check (f x) m); [| exact Hy].
  exact (range_check (fun x => forallb (f x) (seqZ 0 m)) n Hall x Hx).
Qed.

Lemma land_255_range (x : Z) : 0 <= Z.land x 255 < 256.
Proof.
  change 255 with (Z.ones 8). rewrite Z.land_ones by lia.
  apply Z.mod_pos_bound. lia.
Qed.

Lemma land_63_range (x : Z) : 0 <= Z.land x 63 < 64.
Proof.
  change 63 with (Z.ones 6). rewrite Z.land_ones by lia.
  apply Z.mod_pos_bound. lia.
Qed.

Lemma land_15_range (x : Z) : 0 <= Z.land x 15 < 16.
Proof.
  change 15 with (Z.ones 4). rewrite Z.land_ones by lia.
  apply Z.mod_pos_bound. lia.
Qed.

Lemma land_3_range (x : Z) : 0 <= Z.land x 3 < 4.
Proof.
  change 3 with (Z.ones 2). rewrite Z.land_ones by lia.
  apply Z.mod_pos_bound. lia.
Qed.

Lemma land_255_idem (x : Z) : Z.land (Z.land x 255) 255 = Z.land x 255.
Proof. rewrite <- Z.land_assoc. reflexivity. Qed.

(** Every index below 64 has a character, and the table inverts it. *)
Lemma base64Index_Char (i : Z) :
  0 <= i < 64 -> base64Index (base64Char i) = i.
Proof.
  intros Hi. apply Z.eqb_eq.
  exact (range_check (fun i => base64Index (base64Char i) =? i) 64
           eq_refl i Hi).
Qed.

Lemma base64Index_Char_land (x : Z) :
  base64Index (base64Char (Z.land x 63)) = Z.land x 63.
Proof. apply base64Index_Char, land_63_range. Qed.

(** The three bytes of a group, read back from its four characters. *)
Lemma group_byte1 (c1 yh : Z) :
  0 <= c1 < 256 -> 0 <= yh < 16 ->
  Z.lor (Z.shiftl (Z.land (Z.shiftr c1 2) 63) 2)
        (Z.shiftr
           (Z.land (Z.land (Z.lor (Z.shiftl (Z.land c1 3) 4) yh) 63) 48) 4)
  = c1.
Proof.
  intros H1 H2. apply Z.eqb_eq.
  exact (range_check2
           (fun c1 yh =>
              Z.lor (Z.shiftl (Z.land (Z.shiftr c1 2) 63) 2)
                (Z.shiftr
                   (Z.land
                      (Z.land (Z.lor (Z.shiftl (Z.land c1 3) 4) yh) 63) 48)
                   4) =? c1)
           256 16 eq_refl c1 yh H1 H2).
Qed.

Lemma group_byte2 (x3 c2 zh : Z) :
  0 <= x3 < 4 -> 0 <= c2 < 256 -> 0 <= zh < 4 ->
  Z.lor
    (Z.shiftl
       (Z.land
          (Z.land (Z.lor (Z.shiftl x3 4) (Z.land (Z.shiftr c2 4) 15)) 63)
          15) 4)
    (Z.shiftr
       (Z.land (Z.land (Z.lor (Z.shiftl (Z.land c2 15) 2) zh) 63) 60) 2)
  = c2.
Proof.
  intros H1 H2 H3. apply Z.eqb_eq.
  assert (Hx : x3 = 0 \/ x3 = 1 \/ x3 = 2 \/ x3 = 3) by lia.
  destruct Hx as [-> | [-> | [-> | ->]]];
    match goal with
    | |- (Z.lor (Z.shiftl (Z.land (Z.land (Z.lor (Z.shiftl ?k 4) _) _) _) _) _
          =? _) = true =>
        exact (range_check2
                 (fun c2 zh =>
                    Z.lor
                      (Z.shiftl
                         (Z.land
                            (Z.land
                               (Z.lor (Z.shiftl k 4)
                                  (Z.land (Z.shiftr c2 4) 15)) 63) 15) 4)
                      (Z.shiftr
                         (Z.land
                            (Z.land (Z.lor (Z.shiftl (Z.land c2 15) 2) zh)
                               63) 60) 2) =? c2)
                 256 4 eq_refl c2 zh H2 H3)
    end.
Qed.

Lemma group_byte3 (yl c3 : Z) :
  0 <= yl < 16 -> 0 <= c3 < 256 ->
  Z.lor
    (Z.shiftl
       (Z.land
          (Z.land (Z.lor (Z.shiftl yl 2) (Z.land (Z.shiftr c3 6) 3)) 63) 3)
       6)
    (Z.land c3 63)
  = c3.
Proof.
  intros H1 H2. apply Z.eqb_eq.
  exact (range_check2
           (fun yl c3 =>
              Z.lor
                (Z.shiftl
                   (Z.land
                      (Z.land
                         (Z.lor (Z.shiftl yl 2) (Z.land (Z.shiftr c3 6) 3))
                         63) 3) 6)
                (Z.land c3 63) =? c3)
           16 256 eq_refl yl c3 H1 H2).
Qed.

Lemma group_tail1 (c1 : Z) :
  0 <= c1 < 256 ->
  Z.lor (Z.shiftl (Z.land (Z.shiftr c1 2) 63) 2)
        (Z.shiftr (Z.land (Z.land (Z.shiftl (Z.land c1 3) 4) 63) 48) 4)
  = c1.
Proof.
  intros H1. apply Z.eqb_eq.
  exact (range_check
           (fun c1 =>
              Z.lor (Z.shiftl (Z.land (Z.shiftr c1 2) 63) 2)
                (Z.shiftr
                   (Z.land (Z.land (Z.shiftl (Z.land c1 3) 4) 63) 48) 4)
              =? c1)
           256 eq_refl c1 H1).
Qed.

Lemma group_tail2 (x3 c2 : Z) :
  0 <= x3 < 4 -> 0 <= c2 < 256 ->
  Z.lor
    (Z.shiftl
       (Z.land
          (Z.land (Z.lor (Z.shiftl x3 4) (Z.land (Z.shiftr c2 4) 15)) 63)
          15) 4)
    (Z.shiftr (Z.land (Z.land (Z.shiftl (Z.land c2 15) 2) 63) 60) 2)
  = c2.
Proof.
  intros H1 H2. apply Z.eqb_eq.
  exact (range_check2
           (fun x3 c2 =>
              Z.lor
                (Z.shiftl
                   (Z.land
                      (Z.land
                         (Z.lor (Z.shiftl x3 4) (Z.land (Z.shiftr c2 4) 15))
                         63) 15) 4)
                (Z.shiftr
                   (Z.land (Z.land (Z.shiftl (Z.land c2 15) 2) 63) 60) 2)
              =? c2)
           4 256 eq_refl x3 c2 H1 H2).
Qed.

Lemma list_ind3 (P : list Z -> Prop) :
  P [] -> (forall x, P [x]) -> (forall x y, P [x; y]) ->
  (forall x y z rest, P rest -> P (x :: y :: z :: rest)) ->
  forall l, P l.
Proof.
  intros H0 H1 H2 H3.
  assert (Hall : forall l, P l /\ (forall x, P (x :: l))
                           /\ (forall x y, P (x :: y :: l))).
  { induction l as [| z l (Ha & Hb & Hc)].
    - auto.
    - split; [apply Hb |]. split; [intros; apply Hc |].
      intros x y. apply H3. exact Ha. }
  intros l. apply Hall.
Qed.

(** Decoding what was encoded gives the bytes back (each reduced to
    eight bits, as the encoder reads them). *)
Lemma base64_decode_encode (b : list Z) :
  base64_decode_loop (base64_encode_loop b) (length b)
  = map (fun x => Z.land x 255) b.
Proof.
  induction b as [| x | x y | x y z rest IH] using list_ind3.
  - reflexivity.
  - cbn [base64_encode_loop base64_decode_loop length map].
    rewrite !base64Index_Char_land.
    pose proof (land_63_range (Z.shiftr (Z.land x 255) 2)).
    pose proof (land_63_range (Z.shiftl (Z.land (Z.land x 255) 3) 4)).
    destruct (Z.eqb_spec (Z.land (Z.shiftr (Z.land x 255) 2) 63) (-1)); [lia |].
    destruct (Z.eqb_spec
                (Z.land (Z.shiftl (Z.land (Z.land x 255) 3) 4) 63) (-1));
      [lia |].
    cbn [orb]. rewrite group_tail1 by apply land_255_range. reflexivity.
  - cbn [base64_encode_loop base64_decode_loop length map].
    rewrite !base64Index_Char_land.
    repeat match goal with
           | |- context [Z.land ?a 63 =? -1] =>
               let Hr := fresh in
               pose proof (land_63_range a) as Hr;
               destruct (Z.eqb_spec (Z.land a 63) (-1)); [lia |]; clear Hr
           end.
    cbn [orb].
    rewrite group_byte1
      by (apply land_255_range || apply land_15_range).
    rewrite group_tail2 by (apply land_3_range || apply land_255_range).
    reflexivity.
  - cbn [base64_encode_loop base64_decode_loop length map].
    rewrite !base64Index_Char_land.
    repeat match goal with
           | |- context [Z.land ?a 63 =? -1] =>
               let Hr := fresh in
               pose proof (land_63_range a) as Hr;
               destruct (Z.eqb_spec (Z.land a 63) (-1)); [lia |]; clear Hr
           end.
    cbn [orb].
    rewrite group_byte1
      by (apply land_255_range || apply land_15_range).
    rewrite group_byte2
      by (apply land_3_range || apply land_255_range).
    rewrite group_byte3
      by (apply land_15_range || apply land_255_range).
    rewrite IH. reflexivity.
Qed.

(** The encoding depends on the low eight bits of each byte only. *)
Lemma base64_encode_land (b : list Z) :
  base64_encode_loop (map (fun x => Z.land x 255) b) = base64_encode_loop b.
Proof.
  induction b as [| x | x y | x y z rest IH] using list_ind3;
    cbn [base64_encode_loop map]; rewrite ?land_255_idem, ?IH; reflexivity.
Qed.

(** Equal encodings come from equal bytes. *)
Lemma base64_encode_inj (b1 b2 : list Z) :
  length b1 = length b2 ->
  base64_encode_loop b1 = base64_encode_loop b2 ->
  map (fun x => Z.land x 255) b1 = map (fun x => Z.land x 255) b2.
Proof.
  intros Hlen E.
  rewrite <- (base64_decode_encode b1), <- (base64_decode_encode b2).
  rewrite E, Hlen. reflexivity.
Qed.

End Base64.

(** ** The Blowfish key schedule reads 72 bytes of the key *)

Section KeySchedule.
Import Bcrypt.

Example P_ORIG_head :
  take 4 P_ORIG = [0x243f6a88; 0x85a308d3; 0x13198a2e; 0x03707344].
Proof. reflexivity. Qed.

Example S_ORIG_ends :
  take 2 S_ORIG = [0xd1310ba6; 0x98dfb5ac]
  /\ drop 1022 S_ORIG = [0x578fdfe3; 0x3ac372e6].
Proof. split; reflexivity. Qed.

Lemma P_ORIG_length : length P_ORIG = 18%nat.
Proof. reflexivity. Qed.

Lemma xorKey_length (key : list Z) (P : list Z) (offp : Z) :
  length (xorKey key offp P) = length P.
Proof.
  revert offp. induction P as [| p P IH]; intros offp; cbn [xorKey].
  - reflexivity.
  - destruct (streamtoword key offp). cbn [length]. rewrite IH. reflexivity.
Qed.

Lemma fillP_length (n i : nat) (data : option (list Z)) (st : BfState) :
  length (bf_P (fillP n i data st)) = length (bf_P st).
Proof.
  revert i st. induction n as [| n IH]; intros i st; cbn [fillP].
  - reflexivity.
  - destruct (mixData data st) as [lr offp]. rewrite IH. cbn [bf_P].
    rewrite !length_insert. reflexivity.
Qed.

Lemma fillS_P (n : nat) (i : Z) (data : option (list Z)) (st : BfState) :
  bf_P (fillS n i data st) = bf_P st.
Proof.
  revert i st. induction n as [| n IH]; intros i st; cbn [fillS].
  - reflexivity.
  - destruct (mixData data st) as [lr offp]. rewrite IH. reflexivity.
Qed.

Lemma expand_length (data : option (list Z)) (key : list Z)
    (PS : list Z * array) :
  length (fst (expand data key PS)) = length (fst PS).
Proof.
  unfold expand. cbn [fst]. rewrite fillS_P, fillP_length. cbn [bf_P].
  apply xorKey_length.
Qed.

Variables key1 key2 : list Z.
Hypothesis same_prefix : take 72 key1 = take 72 key2.
Hypothesis long1 : (72 <= length key1)%nat.
Hypothesis long2 : (72 <= length key2)%nat.

Lemma nth_prefix (i : nat) : (i < 72)%nat -> nth i key1 0 = nth i key2 0.
Proof.
  intros Hi.
  rewrite <- (take_drop 72 key1), <- (take_drop 72 key2), same_prefix.
  rewrite !app_nth1 by (rewrite length_take; lia). reflexivity.
Qed.

Lemma streamBytes_prefix (n : nat) (word o1 o2 : Z) :
  (n <> 0%nat -> o1 = o2 /\ 0 <= o1 /\ o1 + Z.of_nat n <= 72) ->
  fst (streamBytes n key1 word o1) = fst (streamBytes n key2 word o2)
  /\ (n <> 0%nat -> o1 + Z.of_nat n < 72 ->
      snd (streamBytes n key1 word o1) = o1 + Z.of_nat n
      /\ snd (streamBytes n key2 word o2) = o1 + Z.of_nat n).
Proof.
  revert word o1 o2. induction n as [| n IH]; intros word o1 o2 Hn;
    cbn [streamBytes].
  - cbn [fst snd]. split; [reflexivity | intros Hne; congruence].
  - destruct (Hn ltac:(discriminate)) as (<- & H0 & Hlen).
    rewrite (nth_prefix (Z.to_nat o1)) by lia.
    destruct n as [| n].
    + cbn [streamBytes fst snd]. split; [reflexivity |].
      intros _ Hlt. rewrite !Z.mod_small by lia. lia.
    + destruct (IH (Z.lor (m32 (Z.shiftl word 8))
                      (Z.land (nth (Z.to_nat o1) key2 0) 255))
                   ((o1 + 1) mod Z.of_nat (length key1))
                   ((o1 + 1) mod Z.of_nat (length key2))) as [Hw Ho].
      { intros _. rewrite !Z.mod_small by lia. lia. }
      split; [exact Hw |]. intros _ Hlt.
      destruct (Ho ltac:(discriminate)) as [E1 E2].
      { rewrite Z.mod_small by lia. lia. }
      rewrite E1, E2. rewrite !Z.mod_small by lia. lia.
Qed.

(** The 18 words that the key schedule mixes into [P] are the same for
    both keys. *)
Lemma xorKey_prefix (P : list Z) (o1 o2 : Z) :
  (P <> [] -> o1 = o2 /\ 0 <= o1 /\ o1 + 4 * Z.of_nat (length P) <= 72) ->
  xorKey key1 o1 P = xorKey key2 o2 P.
Proof.
  revert o1 o2. induction P as [| p P IH]; intros o1 o2 Hp.
  - reflexivity.
  - destruct (Hp ltac:(discriminate)) as (<- & H0 & Hlen).
    cbn [length] in Hlen. cbn [xorKey]. unfold streamtoword.
    destruct (streamBytes_prefix 4 0 o1 o1 ltac:(intros _; lia)) as [Hw Ho].
    destruct (streamBytes 4 key1 0 o1) as [w1 p1].
    destruct (streamBytes 4 key2 0 o1) as [w2 p2].
    cbn [fst snd] in *. subst w2. f_equal.
    apply IH. intros Hne.
    assert (0 < Z.of_nat (length P)) by (destruct P; [congruence | cbn; lia]).
    destruct (Ho ltac:(discriminate) ltac:(lia)) as [-> ->]. lia.
Qed.

Lemma expand_prefix (data : option (list Z)) (PS : list Z * array) :
  length (fst PS) = 18%nat ->
  expand data key1 PS = expand data key2 PS.
Proof.
  intros HP. unfold expand.
  rewrite (xorKey_prefix (fst PS) 0 0) by (intros _; lia).
  reflexivity.
Qed.

Lemma key__prefix (PS : list Z * array) :
  length (fst PS) = 18%nat -> key_ key1 PS = key_ key2 PS.
Proof. apply expand_prefix. Qed.

Lemma key__length (key : list Z) (PS : list Z * array) :
  length (fst (key_ key PS)) = length (fst PS).
Proof. apply expand_length. Qed.

Lemma schedule_prefix (salt : list Z) (n : N) (PS : list Z * array) :
  length (fst PS) = 18%nat ->
  N.iter n (fun PS => key_ salt (key_ key1 PS)) PS
  = N.iter n (fun PS => key_ salt (key_ key2 PS)) PS
  /\ length (fst (N.iter n (fun PS => key_ salt (key_ key1 PS)) PS))
     = 18%nat.
Proof.
  intros HP. induction n as [| n [IHe IHl]] using N.peano_ind.
  - cbn. auto.
  - rewrite !N.iter_succ, <- IHe.
    rewrite (key__prefix _ IHl). split; [reflexivity |].
    rewrite !key__length. exact IHl.
Qed.

(** Two keys that share their first 72 bytes give one digest. *)
Lemma eksBlowfish_prefix (salt : list Z) (iterations : Z) :
  eksBlowfish key1 salt iterations = eksBlowfish key2 salt iterations.
Proof.
  unfold eksBlowfish, ekskey.
  rewrite (expand_prefix (Some salt) (P_ORIG, fromList S_ORIG) P_ORIG_length).
  destruct (schedule_prefix salt (Z.to_N iterations)
              (expand (Some salt) key2 (P_ORIG, fromList S_ORIG))) as [-> _].
  - rewrite expand_length. exact P_ORIG_length.
  - reflexivity.
Qed.

End KeySchedule.

Section Digest.
Import Bcrypt.

Lemma encipherPairs_length (PS : list Z * array) (cdata : list Z) :
  length (encipherPairs cdata PS) = length cdata.
Proof.
  assert (Hall : forall l,
             length (encipherPairs l PS) = length l
             /\ forall x, length (encipherPairs (x :: l) PS)
                          = length (x :: l)).
  { induction l as [| y l [IHa IHb]].
    - split; reflexivity.
    - split; [apply IHb |]. intros x. cbn [encipherPairs].
      destruct (encipher _ _ _). cbn [length]. rewrite IHa. reflexivity. }
  apply Hall.
Qed.

Lemma wordBytes_length (ws : list Z) :
  length (wordBytes ws) = (4 * length ws)%nat.
Proof.
  induction ws as [| w ws IH]; cbn [wordBytes length]; [reflexivity | lia].
Qed.

(** The digest has 24 bytes. *)
Lemma eksBlowfish_length (b salt : list Z) (iterations : Z) :
  length (eksBlowfish b salt iterations) = 24%nat.
Proof.
  unfold eksBlowfish. rewrite wordBytes_length.
  set (PS := N.iter _ _ _). clearbody PS.
  assert (Hn : forall n, length (Nat.iter n (fun c => encipherPairs c PS) C_ORIG)
                         = 6%nat).
  { induction n as [| n IH]; [reflexivity |].
    rewrite Nat.iter_succ, encipherPairs_length. exact IH. }
  rewrite Hn. reflexivity.
Qed.

(** [_crypt] accepts a cost from 4 to 31 and a salt of 16 bytes. *)
Lemma crypt_ok (b salt : list Z) (r : Z) :
  4 <= r <= 31 -> length salt = 16%nat ->
  crypt b salt (Some r) = Ok (eksBlowfish b salt (2 ^ r)).
Proof.
  intros Hr Hs. unfold crypt.
  destruct (Z.ltb_spec r 4); [lia |].
  destruct (Z.gtb_spec r 31); [lia |].
  cbn [orb]. rewrite Hs. reflexivity.
Qed.

End Digest.
(** ** All that the key schedule takes from a key *)

Section KeyWords.
Import Bcrypt BcryptRecord.

(** The key enters [P] as 18 words, whatever [P] holds. *)
Lemma xorKey_words (key : list Z) (P : list Z) (o : Z) :
  xorKey key o P
  = zip_with Z.lxor P (xorKey key o (replicate (length P) 0)).
Proof.
  revert o. induction P as [| p P IH]; intros o; [reflexivity |].
  cbn [length replicate xorKey].
  destruct (streamtoword key o) as [w o']. cbn [zip_with].
  rewrite Z.lxor_0_l, <- IH. reflexivity.
Qed.

Variables key1 key2 : list Z.
Hypothesis same_words : keyWords key1 = keyWords key2.

Lemma expand_words (data : option (list Z)) (PS : list Z * array) :
  length (fst PS) = 18%nat ->
  expand data key1 PS = expand data key2 PS.
Proof.
  intros HP. unfold expand.
  rewrite (xorKey_words key1), (xorKey_words key2), HP.
  change (xorKey key1 0 (replicate 18 0)) with (keyWords key1).
  change (xorKey key2 0 (replicate 18 0)) with (keyWords key2).
  rewrite same_words. reflexivity.
Qed.

Lemma key__words (PS : list Z * array) :
  length (fst PS) = 18%nat -> key_ key1 PS = key_ key2 PS.
Proof. apply expand_words. Qed.

Lemma schedule_words (salt : list Z) (n : N) (PS : list Z * array) :
  length (fst PS) = 18%nat ->
  N.iter n (fun PS => key_ salt (key_ key1 PS)) PS
  = N.iter n (fun PS => key_ salt (key_ key2 PS)) PS
  /\ length (fst (N.iter n (fun PS => key_ salt (key_ key1 PS)) PS))
     = 18%nat.
Proof.
  intros HP. induction n as [| n [IHe IHl]] using N.peano_ind.
  - cbn. auto.
  - rewrite !N.iter_succ, <- IHe.
    rewrite (key__words _ IHl). split; [reflexivity |].
    rewrite !key__length. exact IHl.
Qed.

(** Two keys that the schedule reads as the same 18 words give one
    digest. *)
Lemma eksBlowfish_words (salt : list Z) (iterations : Z) :
  eksBlowfish key1 salt iterations = eksBlowfish key2 salt iterations.
Proof.
  unfold eksBlowfish, ekskey.
  rewrite (expand_words (Some salt) (P_ORIG, fromList S_ORIG) P_ORIG_length).
  destruct (schedule_words salt (Z.to_N iterations)
              (expand (Some salt) key2 (P_ORIG, fromList S_ORIG))) as [-> _].
  - rewrite expand_length. exact P_ORIG_length.
  - reflexivity.
Qed.

End KeyWords.

Section DigestBytes.
Import Bcrypt BcryptRecord.

Lemma wordBytes_bytes (ws : list Z) :
  map (fun x => Z.land x 255) (wordBytes ws) = wordBytes ws.
Proof.
  induction ws as [| w ws IH]; [reflexivity |].
  cbn [wordBytes map]. rewrite !land_255_idem, IH. reflexivity.
Qed.

Lemma digest_bytes (s : string) (r : Z) (b : list Z) :
  map (fun x => Z.land x 255) (digest s r b) = digest s r b.
Proof.
  unfold digest. rewrite <- firstn_map. f_equal.
  unfold eksBlowfish. apply wordBytes_bytes.
Qed.

Lemma digest_length (s : string) (r : Z) (b : list Z) :
  length (digest s r b) = 23%nat.
Proof. unfold digest. rewrite length_take, eksBlowfish_length. reflexivity. Qed.

End DigestBytes.

(** ** bcryptjs: salts, hashes and comparison *)

Section BcryptHash.
Import Bcrypt BcryptRecord.

Lemma roundsText_digits (r : Z) :
  4 <= r <= 31 ->
  exists d1 d2,
    roundsText (Some r) = String d1 (String d2 "")
    /\ match parseDigit (Some d1), parseDigit (Some d2) with
       | Some a, Some b => Some (a * 10 + b)
       | _, _ => None
       end = Some r.
Proof.
  intros Hr.
  assert (Hc : r = 4 \/ r = 5 \/ r = 6 \/ r = 7 \/ r = 8 \/ r = 9 \/ r = 10
               \/ r = 11 \/ r = 12 \/ r = 13 \/ r = 14 \/ r = 15 \/ r = 16
               \/ r = 17 \/ r = 18 \/ r = 19 \/ r = 20 \/ r = 21 \/ r = 22
               \/ r = 23 \/ r = 24 \/ r = 25 \/ r = 26 \/ r = 27 \/ r = 28
               \/ r = 29 \/ r = 30 \/ r = 31) by lia.
  repeat (destruct Hc as [-> | Hc];
          [eexists; eexists; split; vm_compute; reflexivity |]).
  subst r. eexists; eexists; split; vm_compute; reflexivity.
Qed.

Lemma substring_all (s : string) : String.substring 0 (String.length s) s = s.
Proof. induction s as [| c s IH]; simpl; [reflexivity | rewrite IH; reflexivity]. Qed.

Lemma string_length_app (s1 s2 : string) :
  String.length (s1 +:+ s2) = (String.length s1 + String.length s2)%nat.
Proof. induction s1 as [| c s1 IH]; simpl; [reflexivity | rewrite IH; reflexivity]. Qed.

Lemma substring_prefix (s1 s2 : string) :
  String.substring 0 (String.length s1) (s1 +:+ s2) = s1.
Proof. induction s1 as [| c s1 IH]; simpl; [destruct s2; reflexivity | rewrite IH; reflexivity]. Qed.

Lemma base64_encode_loop_length_16 (b : list Z) :
  length b = 16%nat -> String.length (base64_encode_loop b) = 22%nat.
Proof.
  intros Hb. do 17 (destruct b as [| ? b]; try discriminate). reflexivity.
Qed.

Lemma base64_encode_loop_length_23 (b : list Z) :
  length b = 23%nat -> String.length (base64_encode_loop b) = 31%nat.
Proof.
  intros Hb. do 24 (destruct b as [| ? b]; try discriminate). reflexivity.
Qed.

(** [_hash] on a salt string "$2a$", two characters, "$" and the
    encoded salt. *)
Lemma hash__2a (s : string) (d1 d2 : Ascii.ascii) (E : string) :
  hash_ s (String "$" (String "2" (String "a" (String "$"
            (String d1 (String d2 (String "$" E)))))))
  = let rounds :=
      match parseDigit (Some d1), parseDigit (Some d2) with
      | Some a, Some b => Some (a * 10 + b)
      | _, _ => None
      end in
    bind (base64_decode (String.substring 0 22 E) BCRYPT_SALT_LEN)
      (fun saltb =>
    bind (crypt (Crypto.bufferFrom (s +:+ String Ascii.zero "")) saltb rounds)
      (fun bytes =>
    bind (base64_encode saltb (Z.of_nat (length saltb))) (fun encSalt =>
    bind (base64_encode bytes 23) (fun encHash =>
    Ok ("$2" +:+ "a" +:+ "$" +:+ roundsText rounds +:+ "$"
        +:+ encSalt +:+ encHash))))).
Proof.
  set (salt := String "$" (String "2" (String "a" (String "$"
                 (String d1 (String d2 (String "$" E))))))).
  assert (H0 : charAt salt 0 = Some "$"%char) by reflexivity.
  assert (H1 : charAt salt 1 = Some "2"%char) by reflexivity.
  assert (H2 : charAt salt 2 = Some "a"%char) by reflexivity.
  assert (H3 : charAt salt 3 = Some "$"%char) by reflexivity.
  assert (H4 : charAt salt 4 = Some d1) by reflexivity.
  assert (H5 : charAt salt 5 = Some d2) by reflexivity.
  assert (H6 : charAt salt 6 = Some "$"%char) by reflexivity.
  assert (H7 : String.substring 7 22 salt = String.substring 0 22 E)
    by reflexivity.
  unfold hash_. rewrite H0, H1, H2, H3.
  rewrite (bool_decide_eq_true_2 (Some "$"%char = Some "$"%char)) by reflexivity.
  rewrite (bool_decide_eq_true_2 (Some "2"%char = Some "2"%char)) by reflexivity.
  rewrite (bool_decide_eq_false_2 (Some "a"%char = Some "$"%char))
    by discriminate.
  rewrite (bool_decide_eq_true_2 (Some "a"%char = Some "a"%char)) by reflexivity.
  cbn [negb andb orb Nat.add]. rewrite H4, H5, H6, H7.
  reflexivity.
Qed.

(** The salt string of [genSaltSync] at cost [r] over the bytes [b]. *)
Lemma hash__on_generated_salt (s : string) (r : Z) (b : list Z) :
  4 <= r <= 31 -> length b = 16%nat ->
  hash_ s ("$2a$" +:+ roundsText (Some r) +:+ "$" +:+ base64_encode_loop b)
  = Ok (hashedRecord s r b).
Proof.
  intros Hr Hb. unfold hashedRecord, keyBytes.
  destruct (roundsText_digits r Hr) as (d1 & d2 & Ht & Hd).
  rewrite Ht.
  change ("$2a$" +:+ String d1 (String d2 "") +:+ "$" +:+ base64_encode_loop b)
    with (String "$" (String "2" (String "a" (String "$"
            (String d1 (String d2 (String "$" (base64_encode_loop b)))))))).
  rewrite hash__2a. cbv zeta. rewrite Hd.
  rewrite <- (base64_encode_loop_length_16 b Hb) at 1.
  rewrite substring_all.
  assert (Hdec : base64_decode_loop (base64_encode_loop b) 16
                 = map (fun x => Z.land x 255) b).
  { rewrite <- Hb. apply base64_decode_encode. }
  unfold base64_decode, BCRYPT_SALT_LEN.
  change (16 <=? 0) with false. change (Z.to_nat 16) with 16%nat.
  cbn [bind]. rewrite !Hdec.
  rewrite crypt_ok by (rewrite ?length_map; assumption).
  cbn [bind]. unfold base64_encode.
  rewrite !length_map, !Hb, eksBlowfish_length.
  change (Z.of_nat 16 <=? 0) with false.
  change (Z.of_nat 16 >? Z.of_nat 16) with false.
  change (23 <=? 0) with false.
  change (23 >? Z.of_nat 24) with false.
  change (Z.to_nat (Z.of_nat 16)) with 16%nat.
  change (Z.to_nat 23) with 23%nat.
  cbn [orb bind].
  rewrite <- Hb at 1. rewrite <- (length_map (fun x => Z.land x 255) b) at 1.
  rewrite firstn_all. rewrite base64_encode_land.
  rewrite Ht. reflexivity.
Qed.

Lemma cost_range (rounds : Z) : 4 <= cost rounds <= 31.
Proof.
  unfold cost, GENSALT_DEFAULT_LOG2_ROUNDS.
  destruct (rounds =? 0);
    repeat match goal with
           | |- context [?a <? ?b] => destruct (Z.ltb_spec a b)
           | |- context [?a >? ?b] => destruct (Z.gtb_spec a b)
           end; lia.
Qed.

Lemma cost_id (rounds : Z) : 4 <= rounds <= 31 -> cost rounds = rounds.
Proof.
  intros Hr. unfold cost.
  destruct (Z.eqb_spec rounds 0); [lia |].
  destruct (Z.ltb_spec rounds 4); [lia |].
  destruct (Z.gtb_spec rounds 31); [lia | reflexivity].
Qed.

(** [genSaltSync] succeeds as soon as it is given 16 random bytes. *)
Lemma genSaltSync_ok (rounds : Z) (random : list Z) :
  (16 <= length random)%nat ->
  genSaltSync rounds random
  = Ok ("$2a$" +:+ roundsText (Some (cost rounds)) +:+ "$"
        +:+ base64_encode_loop (take 16 random)).
Proof.
  intros Hlen. unfold genSaltSync, base64_encode, BCRYPT_SALT_LEN.
  change (16 <=? 0) with false.
  destruct (Z.gtb_spec 16 (Z.of_nat (length random))); [lia |].
  reflexivity.
Qed.

(** [bcrypt.hash] never fails on a string and 16 random bytes, and
    returns the record in closed form. *)
Lemma hash_ok (s : string) (rounds : Z) (random : list Z) :
  (16 <= length random)%nat ->
  hash s rounds random = Ok (hashedRecord s (cost rounds) (take 16 random)).
Proof.
  intros Hlen. unfold hash. rewrite (genSaltSync_ok rounds random Hlen).
  cbn [bind]. apply hash__on_generated_salt.
  - apply cost_range.
  - rewrite length_take. lia.
Qed.

Lemma string_app_assoc (a b c : string) : (a +:+ b) +:+ c = a +:+ (b +:+ c).
Proof.
  induction a as [| x a IH]; [reflexivity |].
  change (String x ((a +:+ b) +:+ c) = String x (a +:+ (b +:+ c))).
  f_equal. exact IH.
Qed.

Lemma roundsText_length (r : Z) :
  4 <= r <= 31 -> String.length (roundsText (Some r)) = 2%nat.
Proof.
  intros Hr. destruct (roundsText_digits r Hr) as (d1 & d2 & -> & _).
  reflexivity.
Qed.

Lemma hashedRecord_length (s : string) (r : Z) (b : list Z) :
  4 <= r <= 31 -> length b = 16%nat ->
  String.length (hashedRecord s r b) = 60%nat.
Proof.
  intros Hr Hb. unfold hashedRecord.
  rewrite !string_length_app, (roundsText_length r Hr).
  rewrite (base64_encode_loop_length_16 b Hb).
  rewrite base64_encode_loop_length_23
    by (rewrite length_take, eksBlowfish_length; reflexivity).
  reflexivity.
Qed.

Lemma hashedRecord_salt (s : string) (r : Z) (b : list Z) :
  4 <= r <= 31 -> length b = 16%nat ->
  String.substring 0 29 (hashedRecord s r b)
  = "$2a$" +:+ roundsText (Some r) +:+ "$" +:+ base64_encode_loop b.
Proof.
  intros Hr Hb. unfold hashedRecord.
  set (H := base64_encode_loop (take 23 _)).
  replace ("$2a$" +:+ roundsText (Some r) +:+ "$" +:+ base64_encode_loop b +:+ H)
    with (("$2a$" +:+ roundsText (Some r) +:+ "$" +:+ base64_encode_loop b) +:+ H)
    by (rewrite !string_app_assoc; reflexivity).
  replace 29%nat
    with (String.length
            ("$2a$" +:+ roundsText (Some r) +:+ "$" +:+ base64_encode_loop b)).
  - apply substring_prefix.
  - rewrite !string_length_app, (roundsText_length r Hr),
      (base64_encode_loop_length_16 b Hb). reflexivity.
Qed.

Lemma wrongCount_zero (known unknown : string) :
  String.length known = String.length unknown ->
  wrongCount known unknown = 0%nat <-> known = unknown.
Proof.
  revert unknown. induction known as [| k known IH];
    intros [| u unknown] Hlen; try discriminate; cbn [wrongCount].
  - tauto.
  - injection Hlen as Hlen. destruct (Ascii.eqb_spec k u) as [-> | Hne].
    + cbn [Nat.add]. rewrite (IH unknown Hlen).
      split; [intros ->; reflexivity | intros [= ->]; reflexivity].
    + split; [discriminate | intros [= -> _]; contradiction].
Qed.

Lemma safeStringCompare_same_length (known unknown : string) :
  String.length known = String.length unknown ->
  safeStringCompare known unknown = bool_decide (known = unknown).
Proof.
  intros Hlen. unfold safeStringCompare.
  destruct (Nat.eqb_spec (wrongCount known unknown) 0) as [E | E];
    rewrite (wrongCount_zero known unknown Hlen) in E; symmetry.
  - apply bool_decide_eq_true_2. exact E.
  - apply bool_decide_eq_false_2. exact E.
Qed.

(** Comparing a password with a record written by [hash]: the record
    is rebuilt for that password from the record's own cost and salt,
    and the two are compared. *)
Lemma compare_hashedRecord (s1 s2 : string) (r : Z) (b : list Z) :
  4 <= r <= 31 -> length b = 16%nat ->
  compare s1 (hashedRecord s2 r b)
  = Ok (bool_decide (hashedRecord s1 r b = hashedRecord s2 r b)).
Proof.
  intros Hr Hb. unfold compare.
  rewrite (hashedRecord_length s2 r b Hr Hb), Nat.eqb_refl. cbn [negb].
  rewrite (hashedRecord_salt s2 r b Hr Hb).
  rewrite (hash__on_generated_salt s1 r b Hr Hb). cbn [bind].
  rewrite safeStringCompare_same_length
    by (rewrite !hashedRecord_length by assumption; reflexivity).
  reflexivity.
Qed.



End BcryptHash.

Section BcryptKnownAnswer.
Import Bcrypt.

(** The known answer of the reference implementation for the password
    "U*U" at cost 5. *)
Example bcrypt_known_answer :
  hash_ "U*U" "$2a$05$CCCCCCCCCCCCCCCCCCCCC."
  = Ok "$2a$05$CCCCCCCCCCCCCCCCCCCCC.E5YPO9kmyuRGyh0XouQYb4YMJKvyOeW".
Proof.
  vm_cast_no_check
    (eq_refl (Ok "$2a$05$CCCCCCCCCCCCCCCCCCCCC.E5YPO9kmyuRGyh0XouQYb4YMJKvyOeW")).
Qed.

(** And for "U*U*" under the same salt. *)
Example bcrypt_known_answer_2 :
  hash_ "U*U*" "$2a$05$CCCCCCCCCCCCCCCCCCCCC."
  = Ok "$2a$05$CCCCCCCCCCCCCCCCCCCCC.VGOzA784oUp/Z0DY336zx7pLYAy0lwK".
Proof.
  vm_cast_no_check
    (eq_refl (Ok "$2a$05$CCCCCCCCCCCCCCCCCCCCC.VGOzA784oUp/Z0DY336zx7pLYAy0lwK")).
Qed.

End BcryptKnownAnswer.

(** ** passwordUtils *)

Section PasswordUtils.
Import Bcrypt BcryptRecord Auth.

Lemma Ok_inj {A : Type} (a b : A) : Ok a = Ok b -> a = b.
Proof. intros E. injection E as E. exact E. Qed.

Lemma string_app_inv_head (a x y : string) : a +:+ x = a +:+ y -> x = y.
Proof.
  induction a as [| c a IH]; intros E; [exact E |].
  change (String c (a +:+ x) = String c (a +:+ y)) in E.
  injection E as E. exact (IH E).
Qed.

Lemma string_app_inv_length (a b x y : string) :
  String.length a = String.length b -> a +:+ x = b +:+ y -> a = b.
Proof.
  revert b. induction a as [| c a IH]; intros [| d b] Hlen E;
    try discriminate; [reflexivity |].
  change (String c (a +:+ x) = String d (b +:+ y)) in E.
  injection E as -> E. injection Hlen as Hlen.
  f_equal. exact (IH b Hlen E).
Qed.

(** The salt can be read off the record. *)
Lemma hashedRecord_salt_inj (s1 s2 : string) (r : Z) (b1 b2 : list Z) :
  length b1 = 16%nat -> length b2 = 16%nat ->
  hashedRecord s1 r b1 = hashedRecord s2 r b2 ->
  map (fun x => Z.land x 255) b1 = map (fun x => Z.land x 255) b2.
Proof.
  intros H1 H2 E. unfold hashedRecord in E.
  apply string_app_inv_head in E. apply string_app_inv_head in E.
  apply string_app_inv_head in E.
  apply string_app_inv_length in E;
    [| rewrite !base64_encode_loop_length_16 by assumption; reflexivity].
  apply base64_encode_inj; [congruence | exact E].
Qed.

(** Passwords whose key bytes agree on the first 72 get one record. *)
Lemma hashedRecord_prefix (s1 s2 : string) (r : Z) (b : list Z) :
  take 72 (keyBytes s1) = take 72 (keyBytes s2) ->
  (72 <= length (keyBytes s1))%nat -> (72 <= length (keyBytes s2))%nat ->
  hashedRecord s1 r b = hashedRecord s2 r b.
Proof.
  intros Hp H1 H2. unfold hashedRecord.
  rewrite (eksBlowfish_prefix (keyBytes s1) (keyBytes s2) Hp H1 H2).
  reflexivity.
Qed.

Variable cfg : Config.

(** A password is accepted for the record of any password with which
    it shares the first 72 key bytes. *)
Lemma verify_shared_prefix (p q : string) (random : list Z) :
  (16 <= length random)%nat ->
  take 72 (keyBytes q) = take 72 (keyBytes p) ->
  (72 <= length (keyBytes q))%nat ->
  (72 <= length (keyBytes p))%nat ->
  passwordUtils_verify (VStr q)
    (hashedRecord p (cost (BCRYPT_ROUNDS cfg)) (take 16 random))
  = Ok true.
Proof.
  intros Hlen Hp H1 H2. unfold passwordUtils_verify.
  rewrite compare_hashedRecord
    by (apply cost_range || (rewrite length_take; lia)).
  rewrite (hashedRecord_prefix q p _ _ Hp H1 H2).
  rewrite bool_decide_eq_true_2 by reflexivity. reflexivity.
Qed.


(** Passwords that the key schedule reads as the same 18 words get
    one record. *)
Lemma hashedRecord_words (s1 s2 : string) (r : Z) (b : list Z) :
  keyWords (keyBytes s1) = keyWords (keyBytes s2) ->
  hashedRecord s1 r b = hashedRecord s2 r b.
Proof.
  intros Hw. unfold hashedRecord.
  rewrite (eksBlowfish_words (keyBytes s1) (keyBytes s2) Hw).
  reflexivity.
Qed.

(** Two records under one cost and salt are equal exactly when their
    digests are. *)
Lemma hashedRecord_digest (s1 s2 : string) (r : Z) (b : list Z) :
  hashedRecord s1 r b = hashedRecord s2 r b <-> digest s1 r b = digest s2 r b.
Proof.
  split.
  - intros E. unfold hashedRecord in E.
    do 4 apply string_app_inv_head in E.
    apply base64_encode_inj in E;
      [| fold (digest s1 r b); fold (digest s2 r b);
         rewrite !digest_length; reflexivity].
    fold (digest s1 r b) in E. fold (digest s2 r b) in E.
    rewrite !digest_bytes in E. exact E.
  - intros E. unfold hashedRecord. fold (digest s1 r b). fold (digest s2 r b).
    rewrite E. reflexivity.
Qed.

(** C8 (amended).  With 16 random bytes for the salt,
    [passwordUtils.hash] returns a record [h] such that
    [verify(p, h)] is true.  For any password [q], [verify(q, h)] is
    true when bcrypt's 23-byte digest of [q] under the cost and salt of
    the record is that of [p], and false when it is another; this is
    also when hashing [q] with the same salt gives the same record.
    The digest takes from a password only the 18 words that the key
    schedule reads off its key bytes (UTF-8 and a closing NUL), going
    around them: every [q] read as the same words is accepted, among
    them every [q] that agrees with [p] on the first 72 key bytes.
    And two calls of [hash] on one password give different records
    whenever their salts differ. *)
Theorem C8_hash_verify_salted :
  forall (p : string) (random : list Z),
    (16 <= length random)%nat ->
    exists h,
      passwordUtils_hash cfg (VStr p) random = Ok h
      /\ passwordUtils_verify (VStr p) h = Ok true
      /\ (forall q,
            passwordUtils_verify (VStr q) h
            = Ok (bool_decide
                    (digest q (cost (BCRYPT_ROUNDS cfg)) (take 16 random)
                     = digest p (cost (BCRYPT_ROUNDS cfg)) (take 16 random))))
      /\ (forall q,
            passwordUtils_verify (VStr q) h
            = Ok (bool_decide (passwordUtils_hash cfg (VStr q) random = Ok h)))
      /\ (forall q,
            keyWords (keyBytes q) = keyWords (keyBytes p) ->
            passwordUtils_verify (VStr q) h = Ok true)
      /\ (forall q,
            take 72 (keyBytes q) = take 72 (keyBytes p) ->
            (72 <= length (keyBytes q))%nat ->
            (72 <= length (keyBytes p))%nat ->
            passwordUtils_verify (VStr q) h = Ok true)
      /\ (forall random',
            (16 <= length random')%nat ->
            map (fun x => Z.land x 255) (take 16 random')
            <> map (fun x => Z.land x 255) (take 16 random) ->
            passwordUtils_hash cfg (VStr p) random'
            <> passwordUtils_hash cfg (VStr p) random).
Proof.
  intros p random Hlen.
  assert (Hb : length (take 16 random) = 16%nat) by (rewrite length_take; lia).
  pose proof (cost_range (BCRYPT_ROUNDS cfg)) as Hr.
  exists (hashedRecord p (cost (BCRYPT_ROUNDS cfg)) (take 16 random)).
  unfold passwordUtils_hash, passwordUtils_verify.
  split; [apply hash_ok; exact Hlen |].
  split; [| split; [| split; [| split; [| split]]]].
  - rewrite compare_hashedRecord by assumption.
    rewrite bool_decide_eq_true_2 by reflexivity. reflexivity.
  - intros q. rewrite compare_hashedRecord by assumption.
    f_equal. apply bool_decide_ext. apply hashedRecord_digest.
  - intros q. rewrite compare_hashedRecord by assumption.
    rewrite (hash_ok q _ _ Hlen). f_equal. apply bool_decide_ext.
    split; [intros ->; reflexivity | apply Ok_inj].
  - intros q Hw. rewrite compare_hashedRecord by assumption.
    rewrite (hashedRecord_words q p _ _ Hw).
    rewrite bool_decide_eq_true_2 by reflexivity. reflexivity.
  - intros q Hp H1 H2.
    exact (verify_shared_prefix p q random Hlen Hp H1 H2).
  - intros random' Hlen' Hne.
    rewrite (hash_ok p _ _ Hlen), (hash_ok p _ _ Hlen').
    intros E. apply Ok_inj in E. apply Hne.
    apply (hashedRecord_salt_inj p p (cost (BCRYPT_ROUNDS cfg)));
      [rewrite length_take; lia | exact Hb | exact E].
Qed.

End PasswordUtils.

Section KnownRecords.
Import Bcrypt BcryptRecord Scenario.

Lemma saltOfCs_text :
  "$2a$" +:+ roundsText (Some 5) +:+ "$" +:+ base64_encode_loop saltOfCs
  = "$2a$05$CCCCCCCCCCCCCCCCCCCCC.".
Proof. vm_compute. reflexivity. Qed.

(** The records of "U*U" and of "U*U*" at cost 5 under that salt, by
    the two known answers. *)
Lemma hashedRecord_known :
  hashedRecord "U*U" 5 saltOfCs
  = "$2a$05$CCCCCCCCCCCCCCCCCCCCC.E5YPO9kmyuRGyh0XouQYb4YMJKvyOeW"
  /\ hashedRecord "U*U*" 5 saltOfCs
     = "$2a$05$CCCCCCCCCCCCCCCCCCCCC.VGOzA784oUp/Z0DY336zx7pLYAy0lwK".
Proof.
  assert (Hr : 4 <= 5 <= 31) by lia.
  assert (Hb : length saltOfCs = 16%nat) by reflexivity.
  split.
  - pose proof (hash__on_generated_salt "U*U" 5 saltOfCs Hr Hb) as E.
    rewrite saltOfCs_text, bcrypt_known_answer in E.
    symmetry. exact (Ok_inj _ _ E).
  - pose proof (hash__on_generated_salt "U*U*" 5 saltOfCs Hr Hb) as E.
    rewrite saltOfCs_text, bcrypt_known_answer_2 in E.
    symmetry. exact (Ok_inj _ _ E).
Qed.

End KnownRecords.

(** Two pairs of distinct passwords, each accepted for the other's
    record: two passwords of 73 characters that share their first 72,
    and the short passwords "a" and "a", NUL, "a", which the key
    schedule reads alike as it goes around the key. *)
Lemma C8_counterexample :
  let p1 :=
    "aaaaaaaaaaaaaaaaaaaaaaaaaaaaaaaaaaaaaaaaaaaaaaaaaaaaaaaaaaaaaaaaaaaaaaaa1" in
  let p2 :=
    "aaaaaaaaaaaaaaaaaaaaaaaaaaaaaaaaaaaaaaaaaaaaaaaaaaaaaaaaaaaaaaaaaaaaaaaa2" in
  let p3 := "a" in
  let p4 := "a" +:+ String Ascii.zero "a" in
  let random := [1; 2; 3; 4; 5; 6; 7; 8; 9; 10; 11; 12; 13; 14; 15; 16] in
  (p1 <> p2
   /\ exists h,
        Auth.passwordUtils_hash Auth.defaultConfig (VStr p2) random = Ok h
        /\ Auth.passwordUtils_verify (VStr p1) h = Ok true)
  /\ (p3 <> p4
      /\ exists h,
           Auth.passwordUtils_hash Auth.defaultConfig (VStr p4) random = Ok h
           /\ Auth.passwordUtils_verify (VStr p3) h = Ok true).
Proof.
  intros p1 p2 p3 p4 random. split.
  - split; [discriminate |].
    eexists. split.
    + unfold Auth.passwordUtils_hash. apply hash_ok. vm_compute. lia.
    + apply verify_shared_prefix;
        [vm_compute; lia | vm_compute; reflexivity
         | vm_compute; lia | vm_compute; lia].
  - split; [discriminate |].
    eexists. split.
    + unfold Auth.passwordUtils_hash. apply hash_ok. vm_compute. lia.
    + unfold Auth.passwordUtils_verify.
      rewrite compare_hashedRecord
        by (apply cost_range || (vm_compute; reflexivity)).
      rewrite (hashedRecord_words p3 p4) by (vm_compute; reflexivity).
      rewrite bool_decide_eq_true_2 by reflexivity. reflexivity.
Qed.

(** C8 at cost 5 with the salt of the known answers: the record of
    "U*U" accepts "U*U", rejects "U*U*", and accepts "U*U", NUL,
    "U*U". *)
Lemma C8_witness :
  let known := "$2a$05$CCCCCCCCCCCCCCCCCCCCC.E5YPO9kmyuRGyh0XouQYb4YMJKvyOeW" in
  Auth.passwordUtils_hash Scenario.costFive (VStr "U*U") Scenario.saltOfCs
  = Ok known
  /\ Auth.passwordUtils_verify (VStr "U*U") known = Ok true
  /\ Auth.passwordUtils_verify (VStr "U*U*") known = Ok false
  /\ Auth.passwordUtils_verify (VStr ("U*U" +:+ String Ascii.zero "U*U")) known
     = Ok true.
Proof.
  intros known.
  destruct (C8_hash_verify_salted Scenario.costFive "U*U" Scenario.saltOfCs)
    as (h & Hh & Hv & Hd & _ & Hw & _).
  { vm_compute. lia. }
  destruct hashedRecord_known as [K1 K2].
  assert (Eh : h = known).
  { pose proof (hash_ok "U*U" (Auth.BCRYPT_ROUNDS Scenario.costFive)
                  Scenario.saltOfCs ltac:(vm_compute; lia)) as E.
    change (BcryptRecord.cost (Auth.BCRYPT_ROUNDS Scenario.costFive))
      with 5 in E.
    change (take 16 Scenario.saltOfCs) with Scenario.saltOfCs in E.
    rewrite K1 in E.
    exact (Ok_inj _ _ (eq_trans (eq_sym Hh) E)). }
  change (BcryptRecord.cost (Auth.BCRYPT_ROUNDS Scenario.costFive))
    with 5 in Hd.
  change (take 16 Scenario.saltOfCs) with Scenario.saltOfCs in Hd.
  rewrite Eh in Hh, Hv, Hd, Hw.
  split; [exact Hh |]. split; [exact Hv |]. split.
  - rewrite (Hd "U*U*"), bool_decide_eq_false_2; [reflexivity |].
    intros Ed. apply hashedRecord_digest in Ed.
    rewrite K1, K2 in Ed. discriminate Ed.
  - apply Hw. vm_compute. reflexivity.
Defined.

(** ** POST /api/login *)

Section Login.
Import Auth Routes.
Context {S : Type} `{IStorage S}.
Variable cfg : Config.

Lemma login_missing_field (w : World) (req : Request) (st : S) (u : string) :
  normalizedUsername (nullish (req_body req) (VObj [])) = Ok u ->
  truthy (VStr u) = false
  \/ truthy (get (nullish (req_body req) (VObj [])) "password") = false ->
  loginHandler cfg w req st
  = (json 400 [("message", VStr "Username and password are required")], st).
Proof.
  intros Hu Hm. unfold loginHandler. rewrite Hu.
  destruct Hm as [-> | ->]; [reflexivity |].
  rewrite orb_true_r. reflexivity.
Qed.

Lemma login_unknown_user (w : World) (req : Request) (st : S) (u : string) :
  normalizedUsername (nullish (req_body req) (VObj [])) = Ok u ->
  truthy (VStr u) = true ->
  truthy (get (nullish (req_body req) (VObj [])) "password") = true ->
  getUserByUsername u st = Ok None ->
  loginHandler cfg w req st
  = (json 401 [("message", VStr "Invalid credentials")], st).
Proof.
  intros Hu Ht Hp Hg. unfold loginHandler. rewrite Hu, Ht, Hp, Hg.
  reflexivity.
Qed.

Lemma login_verify_result (w : World) (req : Request) (st : S) (u : string)
    (user : User) :
  normalizedUsername (nullish (req_body req) (VObj [])) = Ok u ->
  truthy (VStr u) = true ->
  truthy (get (nullish (req_body req) (VObj [])) "password") = true ->
  getUserByUsername u st = Ok (Some user) ->
  match passwordUtils_verify
          (get (nullish (req_body req) (VObj [])) "password")
          (password user) with
  | Ok false =>
      loginHandler cfg w req st
      = (json 401 [("message", VStr "Invalid credentials")], st)
  | Ok true =>
      exists r, loginHandler cfg w req st = (Respond r, st) /\ status r = 200
  | Throw e => loginHandler cfg w req st = (Fail e, st)
  end.
Proof.
  intros Hu Ht Hp Hg. unfold loginHandler. rewrite Hu, Ht, Hp, Hg.
  cbn [negb orb].
  destruct (passwordUtils_verify _ _) as [[|] | e]; try reflexivity.
  eexists. split; reflexivity.
Qed.

(** With a password that is a string, the two failures get one
    answer: a username the store does not know and a stored user
    whose record the password fails to verify against are both
    answered 401 "Invalid credentials". *)
Lemma login_failures_same_answer (w1 w2 : World) (req1 req2 : Request)
    (st : S) (u1 u2 : string) (user : User) :
  let body1 := nullish (req_body req1) (VObj []) in
  let body2 := nullish (req_body req2) (VObj []) in
  normalizedUsername body1 = Ok u1 ->
  truthy (VStr u1) = true ->
  truthy (get body1 "password") = true ->
  getUserByUsername u1 st = Ok None ->
  normalizedUsername body2 = Ok u2 ->
  truthy (VStr u2) = true ->
  truthy (get body2 "password") = true ->
  getUserByUsername u2 st = Ok (Some user) ->
  passwordUtils_verify (get body2 "password") (password user) = Ok false ->
  loginHandler cfg w1 req1 st = loginHandler cfg w2 req2 st
  /\ loginHandler cfg w1 req1 st
     = (json 401 [("message", VStr "Invalid credentials")], st).
Proof.
  intros body1 body2 Hu1 Ht1 Hp1 Hg1 Hu2 Ht2 Hp2 Hg2 Hv.
  pose proof (login_unknown_user w1 req1 st u1 Hu1 Ht1 Hp1 Hg1) as E1.
  pose proof (login_verify_result w2 req2 st u2 user Hu2 Ht2 Hp2 Hg2) as E2.
  fold body2 in E2. rewrite Hv in E2.
  split; [congruence | exact E1].
Qed.

(** C5.  The login handler does not answer the two failures alike
    when the password of the request is a JSON number other than 0: it
    hands the password to [passwordUtils.verify] unchecked, so for a
    stored user bcrypt rejects the argument and the handler fails
    (Express answers 500), while for a username the store does not
    know the answer is 401 "Invalid credentials", whatever the stored
    record is.  The two answers tell a stored username from an unknown
    one. *)
Theorem C5_login_number_password_reveals_existence :
  forall (w1 w2 : World) (req1 req2 : Request) (st : S)
         (u1 u2 : string) (user : User) (n : Z),
    let body1 := nullish (req_body req1) (VObj []) in
    let body2 := nullish (req_body req2) (VObj []) in
    normalizedUsername body1 = Ok u1 -> u1 <> "" ->
    normalizedUsername body2 = Ok u2 -> u2 <> "" ->
    get body1 "password" = VNum n -> get body2 "password" = VNum n ->
    n <> 0 ->
    getUserByUsername u1 st = Ok None ->
    getUserByUsername u2 st = Ok (Some user) ->
    loginHandler cfg w1 req1 st
    = (json 401 [("message", VStr "Invalid credentials")], st)
    /\ loginHandler cfg w2 req2 st
       = (Fail (Error "Illegal arguments: number, string"), st)
    /\ loginHandler cfg w1 req1 st <> loginHandler cfg w2 req2 st.
Proof.
  intros w1 w2 req1 req2 st u1 u2 user n body1 body2
         Hu1 Hn1 Hu2 Hn2 Hp1 Hp2 Hn Hg1 Hg2.
  assert (Ht : forall u, u <> "" -> truthy (VStr u) = true).
  { intros u Hu. cbn [truthy]. destruct (String.eqb_spec u "");
      [contradiction | reflexivity]. }
  assert (Hp : truthy (VNum n) = true).
  { cbn [truthy]. destruct (Z.eqb_spec n 0); [contradiction | reflexivity]. }
  assert (E1 : loginHandler cfg w1 req1 st
               = (json 401 [("message", VStr "Invalid credentials")], st)).
  { apply (login_unknown_user w1 req1 st u1 Hu1 (Ht u1 Hn1));
      [fold body1; rewrite Hp1; exact Hp | exact Hg1]. }
  assert (E2 : loginHandler cfg w2 req2 st
               = (Fail (Error "Illegal arguments: number, string"), st)).
  { pose proof (login_verify_result w2 req2 st u2 user Hu2 (Ht u2 Hn2)) as E.
    fold body2 in E. rewrite Hp2 in E. exact (E Hp Hg2). }
  split; [exact E1 |]. split; [exact E2 |].
  rewrite E1, E2. intros E. apply (f_equal fst) in E. discriminate E.
Qed.

End Login.

Section LoginScenario.
Import Auth Routes Scenario.

(** C5 at two concrete requests with the password 123456 as a
    number: ann is stored, nobody is not. *)
Lemma C5_witness :
  let req1 :=
    publicRequest "203.0.113.7" None
      [("username", VStr "nobody@example.com"); ("password", VNum 123456)] in
  let req2 :=
    publicRequest "203.0.113.7" None
      [("username", VStr "ann@example.com"); ("password", VNum 123456)] in
  mem_getUserByUsername "nobody@example.com" threeUsers = None
  /\ mem_getUserByUsername "ann@example.com" threeUsers = Some ann
  /\ loginHandler defaultConfig world req1 threeUsers
     = (json 401 [("message", VStr "Invalid credentials")], threeUsers)
  /\ loginHandler defaultConfig world req2 threeUsers
     = (Fail (Error "Illegal arguments: number, string"), threeUsers).
Proof.
  intros req1 req2.
  split; [reflexivity |]. split; [reflexivity |].
  destruct (C5_login_number_password_reveals_existence defaultConfig
              world world req1 req2 threeUsers
              "nobody@example.com" "ann@example.com" ann 123456)
    as (E1 & E2 & _);
    try reflexivity; try discriminate.
  split; [exact E1 | exact E2].
Defined.

End LoginScenario.

(** ** passwordUtils.verify on records that [hash] never wrote *)

Section MalformedRecord.
Import Bcrypt BcryptRecord Auth Routes.



Context {S : Type} `{IStorage S}.
Variable cfg : Config.


End MalformedRecord.



(** ** POST /api/register *)

Section Register.
Import Auth Routes.
Context {S : Type} `{IStorage S}.
Variable cfg : Config.

Lemma emailRegex_not_empty (u : string) :
  Regex.test emailRegex u = true -> u <> "".
Proof. intros Ht ->. discriminate Ht. Qed.

(** The schema asks of the username what the pattern asks, and of the
    password that it be a string of six characters or more. *)
Lemma insertUserSchema_spec (u : string) (pw : value) :
  insertUserSchema (VStr u) pw
  = Regex.test emailRegex u && stringMin 6 pw.
Proof.
  unfold insertUserSchema, emailString.
  destruct u as [| c u]; [reflexivity |]. reflexivity.
Qed.


Lemma register_duplicate (w : World) (req : Request) (st : S) (u : string)
    (user : User) :
  normalizedUsername (nullish (req_body req) (VObj [])) = Ok u ->
  insertUserSchema (VStr u)
    (get (nullish (req_body req) (VObj [])) "password") = true ->
  getUserByUsername u st = Ok (Some user) ->
  registerHandler cfg w req st
  = (json 409 [("message", VStr "User already exists")], st).
Proof.
  intros Hu Hs Hg. unfold registerHandler. rewrite Hu, Hs, Hg. reflexivity.
Qed.

Lemma register_created (w : World) (req : Request) (st st' : S)
    (u h : string) (created : User) :
  normalizedUsername (nullish (req_body req) (VObj [])) = Ok u ->
  insertUserSchema (VStr u)
    (get (nullish (req_body req) (VObj [])) "password") = true ->
  getUserByUsername u st = Ok None ->
  passwordUtils_hash cfg
    (get (nullish (req_body req) (VObj [])) "password") (saltBytes w) = Ok h ->
  createUser {| iu_username := u; iu_password := h; iu_role := Some "user" |}
    (newId w) (now w) st = Ok (created, st') ->
  registerHandler cfg w req st
  = (json 201
       [("user",
         VObj [("id", VStr (id created));
               ("username", VStr (username created));
               ("role", VStr (role created))]);
        ("token",
         VJwt (jwtUtils_generateToken cfg (now w) (id created)
                 (username created) (Some (role created))));
        ("message", VStr "Registration successful")],
     st').
Proof.
  intros Hu Hs Hg Hh Hc. unfold registerHandler.
  rewrite Hu, Hs, Hg, Hh, Hc. reflexivity.
Qed.

(** Whenever the handler answers 201, a user was created and the
    answer is the one of [register_created]. *)
Lemma register_201_inv (w : World) (req : Request) (st st' : S)
    (r : Response) :
  registerHandler cfg w req st = (Respond r, st') ->
  status r = 201 ->
  exists u h created,
    normalizedUsername (nullish (req_body req) (VObj [])) = Ok u
    /\ insertUserSchema (VStr u)
         (get (nullish (req_body req) (VObj [])) "password") = true
    /\ getUserByUsername u st = Ok None
    /\ passwordUtils_hash cfg
         (get (nullish (req_body req) (VObj [])) "password") (saltBytes w)
       = Ok h
    /\ createUser
         {| iu_username := u; iu_password := h; iu_role := Some "user" |}
         (newId w) (now w) st = Ok (created, st').
Proof.
  unfold registerHandler.
  destruct (normalizedUsername _) as [u | e]; [| discriminate].
  destruct (insertUserSchema _ _) eqn:Hs; cbn [negb].
  - destruct (getUserByUsername u st) as [[user |] | e] eqn:Hg.
    + intros [= <- <-] Hst. discriminate Hst.
    + destruct (passwordUtils_hash _ _ _) as [h | e] eqn:Hh; [| discriminate].
      destruct (createUser _ _ _ _) as [[created st''] | e] eqn:Hc;
        [| discriminate].
      intros [= <- <-] _. exists u, h, created. auto.
    + discriminate.
  - intros [= <- <-] Hst. discriminate Hst.
Qed.

(** C2 (amended).  Every successful registration, that is every
    request for which the handler creates a user, is answered with
    status 201 and a body that holds the created user's id, username
    and role under [user], an access token for those three claims
    under [token], and a message; the body has no refresh token.  And
    every 201 answer of the handler comes from such a creation. *)
Theorem C2_registration_response :
  forall (w : World) (req : Request) (st : S),
    let reqBody := nullish (req_body req) (VObj []) in
    (forall (st' : S) (u h : string) (created : User),
       normalizedUsername reqBody = Ok u ->
       insertUserSchema (VStr u) (get reqBody "password") = true ->
       getUserByUsername u st = Ok None ->
       passwordUtils_hash cfg (get reqBody "password") (saltBytes w) = Ok h ->
       createUser
         {| iu_username := u; iu_password := h; iu_role := Some "user" |}
         (newId w) (now w) st = Ok (created, st') ->
       exists r,
         registerHandler cfg w req st = (Respond r, st')
         /\ status r = 201
         /\ get (Express.body r) "user"
            = VObj [("id", VStr (id created));
                    ("username", VStr (username created));
                    ("role", VStr (role created))]
         /\ (exists t,
               get (Express.body r) "token" = VJwt t
               /\ jwt_payload t
                  = [("id", id created); ("username", username created);
                     ("role", str_or (Some (role created)) "user")]
               /\ jwt_secret t = JWT_SECRET cfg
               /\ jwt_expiresIn t = JWT_EXPIRES_IN cfg)
         /\ get (Express.body r) "refreshToken" = VUndefined
         /\ get (Express.body r) "message"
            = VStr "Registration successful")
    /\ (forall (st' : S) (r : Response),
          registerHandler cfg w req st = (Respond r, st') ->
          status r = 201 ->
          get (Express.body r) "refreshToken" = VUndefined
          /\ exists u h created,
               createUser
                 {| iu_username := u; iu_password := h;
                    iu_role := Some "user" |}
                 (newId w) (now w) st = Ok (created, st')
               /\ get (Express.body r) "user"
                  = VObj [("id", VStr (id created));
                          ("username", VStr (username created));
                          ("role", VStr (role created))]).
Proof.
  intros w req st reqBody. split.
  - intros st' u h created Hu Hs Hg Hh Hc.
    pose proof (register_created w req st st' u h created Hu Hs Hg Hh Hc) as E.
    eexists. split; [exact E |].
    split; [reflexivity |]. split; [reflexivity |].
    split; [| split; reflexivity].
    eexists. split; [reflexivity |]. auto.
  - intros st' r Hr Hst.
    destruct (register_201_inv w req st st' r Hr Hst)
      as (u & h & created & Hu & Hs & Hg & Hh & Hc).
    pose proof (register_created w req st st' u h created Hu Hs Hg Hh Hc) as E.
    rewrite E in Hr. injection Hr as <-.
    split; [reflexivity |].
    exists u, h, created. split; [exact Hc | reflexivity].
Qed.



End Register.

Section RegisterScenario.
Import Auth Routes Scenario.

(** A first registration at a fresh store is answered 201, and the
    body has no refresh token. *)
Lemma C2_counterexample :
  let req :=
    publicRequest "203.0.113.7" (Some (API_KEY defaultConfig))
      [("username", VStr "Test@Example.COM"); ("password", VStr "secret123")] in
  exists r st',
    registerHandler defaultConfig world req emptyMem = (Respond r, st')
    /\ status r = 201
    /\ get (body r) "user"
       = VObj [("id", VStr "n-1"); ("username", VStr "test@example.com");
               ("role", VStr "user")]
    /\ get (body r) "refreshToken" = VUndefined.
Proof.
  intros req.
  pose (h := BcryptRecord.hashedRecord "secret123"
               (BcryptRecord.cost (BCRYPT_ROUNDS defaultConfig))
               (take 16 (saltBytes world))).
  pose (ins := {| iu_username := "test@example.com"; iu_password := h;
                  iu_role := Some "user" |}).
  eexists. exists (snd (mem_createUser ins "n-1" 1000 emptyMem)).
  split.
  - apply (register_created defaultConfig world req emptyMem _
             "test@example.com" h (fst (mem_createUser ins "n-1" 1000 emptyMem))).
    + reflexivity.
    + vm_compute. reflexivity.
    + reflexivity.
    + apply hash_ok. vm_compute. lia.
    + reflexivity.
  - split; [reflexivity |]. split; reflexivity.
Qed.

(** C2 at that registration. *)
Lemma C2_witness :
  let req :=
    publicRequest "203.0.113.7" (Some (API_KEY defaultConfig))
      [("username", VStr "Test@Example.COM"); ("password", VStr "secret123")] in
  let h := BcryptRecord.hashedRecord "secret123"
             (BcryptRecord.cost (BCRYPT_ROUNDS defaultConfig))
             (take 16 (saltBytes world)) in
  let ins := {| iu_username := "test@example.com"; iu_password := h;
                iu_role := Some "user" |} in
  exists r,
    registerHandler defaultConfig world req emptyMem
    = (Respond r, snd (mem_createUser ins "n-1" 1000 emptyMem))
    /\ status r = 201
    /\ get (body r) "user"
       = VObj [("id", VStr "n-1"); ("username", VStr "test@example.com");
               ("role", VStr "user")]
    /\ get (body r) "refreshToken" = VUndefined.
Proof.
  intros req h ins.
  destruct (C2_registration_response defaultConfig world req emptyMem)
    as [Hc _].
  destruct (Hc (snd (mem_createUser ins "n-1" 1000 emptyMem))
              "test@example.com" h
              (fst (mem_createUser ins "n-1" 1000 emptyMem)))
    as (r & Hr & Hs & Hu & _ & Hn & _).
  - reflexivity.
  - vm_compute. reflexivity.
  - reflexivity.
  - apply hash_ok. vm_compute. lia.
  - reflexivity.
  - exists r. auto.
Defined.



End RegisterScenario.

(** ** The verification endpoints *)

Section StorageFacts.

Lemma mapGet_mapSet_eq {V : Type} (k : string) (v : V)
    (m : list (string * V)) :
  mapGet k (mapSet k v m) = Some v.
Proof.
  induction m as [| [k' v'] m IH]; cbn [mapSet mapGet].
  - rewrite String.eqb_refl. reflexivity.
  - destruct (String.eqb_spec k k') as [-> | Hne]; cbn [mapGet].
    + rewrite String.eqb_refl. reflexivity.
    + destruct (String.eqb_spec k k'); [contradiction | exact IH].
Qed.

Lemma mapGet_mapSet_ne {V : Type} (k k0 : string) (v : V)
    (m : list (string * V)) :
  k0 <> k -> mapGet k0 (mapSet k v m) = mapGet k0 m.
Proof.
  intros Hne. induction m as [| [k' v'] m IH]; cbn [mapSet mapGet].
  - destruct (String.eqb_spec k0 k); [contradiction | reflexivity].
  - destruct (String.eqb_spec k k') as [-> | Hk]; cbn [mapGet].
    + destruct (String.eqb_spec k0 k'); [contradiction | reflexivity].
    + destruct (String.eqb_spec k0 k'); [reflexivity | exact IH].
Qed.

Lemma find_updateFirst {V : Type} (p : V -> bool) (f : V -> V)
    (m : list (string * V)) :
  (forall v, p (f v) = p v) ->
  find p (mapValues (updateFirst p f m)) = f <$> find p (mapValues m).
Proof.
  intros Hp. induction m as [| [k v] m IH]; [reflexivity |].
  cbn [updateFirst mapValues map snd find].
  destruct (p v) eqn:Hv; cbn [mapValues map snd find].
  - rewrite Hp, Hv. reflexivity.
  - rewrite Hv. exact IH.
Qed.

Lemma find_map_update {A : Type} (p : A -> bool) (f : A -> A) (l : list A) :
  (forall v, p (f v) = p v) ->
  find p (map (fun row => if p row then f row else row) l) = f <$> find p l.
Proof.
  intros Hp. induction l as [| v l IH]; [reflexivity |].
  cbn [map find]. destruct (p v) eqn:Hv.
  - rewrite Hp, Hv. reflexivity.
  - rewrite Hv. exact IH.
Qed.

Lemma digest_not_empty (t : string) :
  orNull (Some (Verification.hashVerificationToken t))
  = Some (Verification.hashVerificationToken t).
Proof. reflexivity. Qed.

Lemma present_Some (s : string) : s <> "" -> present (Some s) = true.
Proof.
  intros Hs. cbn [present]. destruct (String.eqb_spec s ""); [contradiction |].
  reflexivity.
Qed.

Lemma truthyQ_QStr (s : string) : s <> "" -> truthyQ (Some (QStr s)) = true.
Proof.
  intros Hs. cbn [truthyQ]. destruct (String.eqb_spec s ""); [contradiction |].
  reflexivity.
Qed.

Lemma str_or_Some (s d : string) : s <> "" -> str_or (Some s) d = s.
Proof.
  intros Hs. cbn [str_or]. destruct (String.eqb_spec s ""); [contradiction |].
  reflexivity.
Qed.

End StorageFacts.

Section VerifyWaitlist.
Import Routes Verification.
Context {S : Type} {storage : IStorage S}.

Variables (w : World) (req : Request) (st : S).
Variables (token email : string).
Hypothesis has_token : query "token" (req_query req) = Some (QStr token).
Hypothesis token_present : token <> "".
Hypothesis has_email : query "email" (req_query req) = Some (QStr email).
Hypothesis email_present : email <> "".
Variable found : option WaitlistEntry.
Hypothesis looked_up : getWaitlistEntryByEmail email st = Ok found.

Lemma verifyWaitlist_unfold :
  verifyWaitlistHandler w req st
  = match found ≫= (fun e => orNull (wl_emailVerificationToken e)), found with
    | Some storedHash, Some entry =>
        match verifyTokenHash token storedHash with
        | Throw e => (Fail e, st)
        | Ok false =>
            (json 400 [("message", VStr "Invalid verification token")], st)
        | Ok true =>
            if match wl_emailVerificationExpires entry with
               | Some expires => isVerificationExpired (now w) expires
               | None => false
               end
            then
              (json 400 [("message", VStr "Verification link has expired")],
               st)
            else
              match updateWaitlistVerification email true None None (now w) st
              with
              | Throw e => (Fail e, st)
              | Ok st' =>
                  (json 200
                     [("message",
                       VStr "Email verified successfully! You've been added to the waitlist.")],
                   st')
              end
        end
    | _, _ => (json 404 [("message", VStr "Invalid verification link")], st)
    end.
Proof.
  unfold verifyWaitlistHandler.
  rewrite has_token, has_email.
  rewrite (truthyQ_QStr token token_present),
    (truthyQ_QStr email email_present).
  cbn [negb orb waitlistEntryFor verifyTokenHashOf verifyWaitlistEntryOf].
  rewrite looked_up. reflexivity.
Qed.

Lemma verifyWaitlist_not_found :
  found = None
  \/ (exists entry, found = Some entry
                    /\ wl_emailVerificationToken entry = None) ->
  verifyWaitlistHandler w req st
  = (json 404 [("message", VStr "Invalid verification link")], st).
Proof.
  intros Hno. rewrite verifyWaitlist_unfold.
  destruct Hno as [-> | (entry & -> & Hn)]; [reflexivity |].
  cbn [mbind option_bind]. rewrite Hn. reflexivity.
Qed.

Variable entry : WaitlistEntry.
Hypothesis is_found : found = Some entry.

(** Against a stored hash of the length of a digest the handler
    compares, then looks at the expiry. *)
Lemma verifyWaitlist_stored (stored : string) :
  wl_emailVerificationToken entry = Some stored ->
  length (Crypto.bufferFrom stored) = 64%nat ->
  verifyWaitlistHandler w req st
  = if bool_decide (hashVerificationToken token = stored)
    then
      if match wl_emailVerificationExpires entry with
         | Some expires => now w >? expires
         | None => false
         end
      then
        (json 400 [("message", VStr "Verification link has expired")], st)
      else
        match updateWaitlistVerification email true None None (now w) st with
        | Throw e => (Fail e, st)
        | Ok st' =>
            (json 200
               [("message",
                 VStr "Email verified successfully! You've been added to the waitlist.")],
             st')
        end
    else (json 400 [("message", VStr "Invalid verification token")], st).
Proof.
  intros Hs Hlen. rewrite verifyWaitlist_unfold, is_found.
  cbn [mbind option_bind]. rewrite Hs.
  assert (Hne : orNull (Some stored) = Some stored).
  { cbn [orNull]. destruct (String.eqb_spec stored "") as [-> | _];
      [discriminate Hlen | reflexivity]. }
  rewrite Hne, (verifyTokenHash_same_length token stored Hlen).
  destruct (bool_decide _); reflexivity.
Qed.

Variable issued : string.
Hypothesis pending :
  wl_emailVerificationToken entry = Some (hashVerificationToken issued).

Lemma verifyWaitlist_pending :
  verifyWaitlistHandler w req st
  = if bool_decide (hashVerificationToken token = hashVerificationToken issued)
    then
      if match wl_emailVerificationExpires entry with
         | Some expires => now w >? expires
         | None => false
         end
      then
        (json 400 [("message", VStr "Verification link has expired")], st)
      else
        match updateWaitlistVerification email true None None (now w) st with
        | Throw e => (Fail e, st)
        | Ok st' =>
            (json 200
               [("message",
                 VStr "Email verified successfully! You've been added to the waitlist.")],
             st')
        end
    else (json 400 [("message", VStr "Invalid verification token")], st).
Proof.
  rewrite verifyWaitlist_unfold, is_found.
  cbn [mbind option_bind]. rewrite pending, digest_not_empty.
  rewrite verifyTokenHash_issued.
  destruct (bool_decide _); reflexivity.
Qed.

End VerifyWaitlist.

Section VerifyRegistration.
Import Routes Verification.
Context {S : Type} {storage : IStorage S}.

Variables (w : World) (req : Request) (st : S).
Variables (token email : string).
Hypothesis has_token : query "token" (req_query req) = Some (QStr token).
Hypothesis token_present : token <> "".
Hypothesis has_email : query "email" (req_query req) = Some (QStr email).
Hypothesis email_present : email <> "".
Variable found : option User.
Hypothesis looked_up : getUserByUsername email st = Ok found.

Lemma verifyRegistration_unfold :
  verifyRegistrationHandler w req st
  = match found ≫= (fun u => orNull (emailVerificationToken u)), found with
    | Some storedHash, Some user =>
        match verifyTokenHash token storedHash with
        | Throw e => (Fail e, st)
        | Ok false =>
            (json 400 [("message", VStr "Invalid verification token")], st)
        | Ok true =>
            if match emailVerificationExpires user with
               | Some expires => isVerificationExpired (now w) expires
               | None => false
               end
            then
              (json 400 [("message", VStr "Verification link has expired")],
               st)
            else
              match updateUserVerification email true None None (now w) st
              with
              | Throw e => (Fail e, st)
              | Ok st' =>
                  (json 200
                     [("message",
                       VStr "Email verified successfully! Your account is now active.")],
                   st')
              end
        end
    | _, _ => (json 404 [("message", VStr "Invalid verification link")], st)
    end.
Proof.
  unfold verifyRegistrationHandler.
  rewrite has_token, has_email.
  rewrite (truthyQ_QStr token token_present),
    (truthyQ_QStr email email_present).
  cbn [negb orb userFor verifyTokenHashOf verifyUserOf].
  rewrite looked_up. reflexivity.
Qed.

Lemma verifyRegistration_not_found :
  found = None
  \/ (exists user, found = Some user /\ emailVerificationToken user = None) ->
  verifyRegistrationHandler w req st
  = (json 404 [("message", VStr "Invalid verification link")], st).
Proof.
  intros Hno. rewrite verifyRegistration_unfold.
  destruct Hno as [-> | (user & -> & Hn)]; [reflexivity |].
  cbn [mbind option_bind]. rewrite Hn. reflexivity.
Qed.

Variable user : User.
Hypothesis is_found : found = Some user.

Lemma verifyRegistration_stored (stored : string) :
  emailVerificationToken user = Some stored ->
  length (Crypto.bufferFrom stored) = 64%nat ->
  verifyRegistrationHandler w req st
  = if bool_decide (hashVerificationToken token = stored)
    then
      if match emailVerificationExpires user with
         | Some expires => now w >? expires
         | None => false
         end
      then
        (json 400 [("message", VStr "Verification link has expired")], st)
      else
        match updateUserVerification email true None None (now w) st with
        | Throw e => (Fail e, st)
        | Ok st' =>
            (json 200
               [("message",
                 VStr "Email verified successfully! Your account is now active.")],
             st')
        end
    else (json 400 [("message", VStr "Invalid verification token")], st).
Proof.
  intros Hs Hlen. rewrite verifyRegistration_unfold, is_found.
  cbn [mbind option_bind]. rewrite Hs.
  assert (Hne : orNull (Some stored) = Some stored).
  { cbn [orNull]. destruct (String.eqb_spec stored "") as [-> | _];
      [discriminate Hlen | reflexivity]. }
  rewrite Hne, (verifyTokenHash_same_length token stored Hlen).
  destruct (bool_decide _); reflexivity.
Qed.

Variable issued : string.
Hypothesis pending :
  emailVerificationToken user = Some (hashVerificationToken issued).

Lemma verifyRegistration_pending :
  verifyRegistrationHandler w req st
  = if bool_decide (hashVerificationToken token = hashVerificationToken issued)
    then
      if match emailVerificationExpires user with
         | Some expires => now w >? expires
         | None => false
         end
      then
        (json 400 [("message", VStr "Verification link has expired")], st)
      else
        match updateUserVerification email true None None (now w) st with
        | Throw e => (Fail e, st)
        | Ok st' =>
            (json 200
               [("message",
                 VStr "Email verified successfully! Your account is now active.")],
             st')
        end
    else (json 400 [("message", VStr "Invalid verification token")], st).
Proof.
  rewrite verifyRegistration_unfold, is_found.
  cbn [mbind option_bind]. rewrite pending, digest_not_empty.
  rewrite verifyTokenHash_issued.
  destruct (bool_decide _); reflexivity.
Qed.

End VerifyRegistration.

(** What the two stores of server/storage.ts hold after a successful
    verification: the entry found under the email, verified at the
    given instant, its token hash and expiry cleared. *)
Section VerifiedAfter.
Variables (email : string) (at_ : Z).

Lemma mem_waitlist_verified_after (st : MemStorage) (entry : WaitlistEntry) :
  mem_getWaitlistEntryByEmail email st = Some entry ->
  exists entry',
    mem_getWaitlistEntryByEmail email
      (mem_updateWaitlistVerification email true None None at_ st)
    = Some entry'
    /\ wl_emailVerified entry' = Some at_
    /\ wl_emailVerificationToken entry' = None
    /\ wl_emailVerificationExpires entry' = None.
Proof.
  intros Hf. unfold mem_updateWaitlistVerification.
  unfold mem_getWaitlistEntryByEmail in Hf. rewrite Hf.
  unfold mem_getWaitlistEntryByEmail. cbn [waitlistEntries].
  rewrite mapGet_mapSet_eq. eexists. split; [reflexivity |].
  repeat split.
Qed.

Lemma mem_user_verified_after (st : MemStorage) (user : User) :
  mem_getUserByUsername email st = Some user ->
  exists user',
    mem_getUserByUsername email
      (mem_updateUserVerification email true None None at_ st)
    = Some user'
    /\ emailVerified user' = Some at_
    /\ emailVerificationToken user' = None
    /\ emailVerificationExpires user' = None.
Proof.
  intros Hf. unfold mem_getUserByUsername, mem_updateUserVerification.
  cbn [users]. rewrite find_updateFirst by reflexivity.
  unfold mem_getUserByUsername in Hf. rewrite Hf.
  eexists. split; [reflexivity |]. repeat split.
Qed.

Lemma db_waitlist_verified_after (st : DbStorage) (entry : WaitlistEntry) :
  db_getWaitlistEntryByEmail email st = Some entry ->
  exists entry',
    db_getWaitlistEntryByEmail email
      (db_updateWaitlistVerification email true None None at_ st)
    = Some entry'
    /\ wl_emailVerified entry' = Some at_
    /\ wl_emailVerificationToken entry' = None
    /\ wl_emailVerificationExpires entry' = None.
Proof.
  intros Hf. unfold db_getWaitlistEntryByEmail, db_updateWaitlistVerification.
  cbn [db_waitlist].
  rewrite (find_map_update (fun row => String.eqb (wl_email row) email))
    by reflexivity.
  unfold db_getWaitlistEntryByEmail in Hf. rewrite Hf.
  eexists. split; [reflexivity |]. repeat split.
Qed.

Lemma db_user_verified_after (st : DbStorage) (user : User) :
  db_getUserByUsername email st = Some user ->
  exists user',
    db_getUserByUsername email
      (db_updateUserVerification email true None None at_ st)
    = Some user'
    /\ emailVerified user' = Some at_
    /\ emailVerificationToken user' = None
    /\ emailVerificationExpires user' = None.
Proof.
  intros Hf. unfold db_getUserByUsername, db_updateUserVerification.
  cbn [db_users].
  rewrite (find_map_update (fun row => String.eqb (username row) email))
    by reflexivity.
  unfold db_getUserByUsername in Hf. rewrite Hf.
  eexists. split; [reflexivity |]. repeat split.
Qed.

End VerifiedAfter.

Section AnyToken.
Import Routes Verification.
Context {S : Type} {storage : IStorage S}.

(** Whatever the token of the query is, a string, an array or an
    object, without a stored hash the answer is 404: the token is not
    looked at. *)
Lemma verifyWaitlist_no_hash (w : World) (req : Request) (st : S)
    (tokenV : qvalue) (email : string) (found : option WaitlistEntry) :
  query "token" (req_query req) = Some tokenV ->
  truthyQ (Some tokenV) = true ->
  query "email" (req_query req) = Some (QStr email) -> email <> "" ->
  getWaitlistEntryByEmail email st = Ok found ->
  found = None
  \/ (exists entry, found = Some entry
                    /\ wl_emailVerificationToken entry = None) ->
  verifyWaitlistHandler w req st
  = (json 404 [("message", VStr "Invalid verification link")], st).
Proof.
  intros Ht Htr He Hep Hl Hno. unfold verifyWaitlistHandler.
  rewrite Ht, He, Htr, (truthyQ_QStr email Hep).
  cbn [negb orb waitlistEntryFor]. rewrite Hl.
  destruct Hno as [-> | (entry & -> & Hn)]; [reflexivity |].
  cbn [mbind option_bind]. rewrite Hn. reflexivity.
Qed.

(** A token of the query that is no string passes the check for
    presence, and the handler fails when it comes to hash it. *)
Lemma verifyWaitlist_token_not_string (w : World) (req : Request) (st : S)
    (tokenV : qvalue) (email : string) (entry : WaitlistEntry)
    (stored : string) :
  query "token" (req_query req) = Some tokenV ->
  (forall s, tokenV <> QStr s) ->
  query "email" (req_query req) = Some (QStr email) -> email <> "" ->
  getWaitlistEntryByEmail email st = Ok (Some entry) ->
  wl_emailVerificationToken entry = Some stored -> stored <> "" ->
  verifyWaitlistHandler w req st
  = (Fail (invalidData (Some tokenV)), st).
Proof.
  intros Ht Hns He Hep Hl Hs Hne. unfold verifyWaitlistHandler.
  rewrite Ht, He, (truthyQ_QStr email Hep).
  assert (Htr : truthyQ (Some tokenV) = true).
  { destruct tokenV as [s | |]; [exfalso; exact (Hns s eq_refl) | |];
      reflexivity. }
  rewrite Htr. cbn [negb orb waitlistEntryFor]. rewrite Hl.
  cbn [mbind option_bind]. rewrite Hs.
  cbn [orNull]. destruct (String.eqb_spec stored ""); [contradiction |].
  destruct tokenV as [s | |]; [exfalso; exact (Hns s eq_refl) | |];
    reflexivity.
Qed.

Lemma verifyRegistration_token_not_string (w : World) (req : Request)
    (st : S) (tokenV : qvalue) (email : string) (user : User)
    (stored : string) :
  query "token" (req_query req) = Some tokenV ->
  (forall s, tokenV <> QStr s) ->
  query "email" (req_query req) = Some (QStr email) -> email <> "" ->
  getUserByUsername email st = Ok (Some user) ->
  emailVerificationToken user = Some stored -> stored <> "" ->
  verifyRegistrationHandler w req st
  = (Fail (invalidData (Some tokenV)), st).
Proof.
  intros Ht Hns He Hep Hl Hs Hne. unfold verifyRegistrationHandler.
  rewrite Ht, He, (truthyQ_QStr email Hep).
  assert (Htr : truthyQ (Some tokenV) = true).
  { destruct tokenV as [s | |]; [exfalso; exact (Hns s eq_refl) | |];
      reflexivity. }
  rewrite Htr. cbn [negb orb userFor]. rewrite Hl.
  cbn [mbind option_bind]. rewrite Hs.
  cbn [orNull]. destruct (String.eqb_spec stored ""); [contradiction |].
  destruct tokenV as [s | |]; [exfalso; exact (Hns s eq_refl) | |];
    reflexivity.
Qed.

End AnyToken.

(** Through the waitlist routes the database store only ever holds
    token hashes that [hashVerificationToken] wrote. *)
Section IssuedHashes.
Import Routes Verification Scenario.

Lemma waitlistHandler_digestSized (w : World) (req : Request)
    (st : DbStorage) :
  digestSized st -> digestSized (snd (waitlistHandler w req st)).
Proof.
  intros Hst. unfold waitlistHandler.
  destruct (insertWaitlistSchema _ _ _) as [[[name email] interests] |];
    [| exact Hst].
  destruct (getWaitlistEntryByEmail email st) as [[found |] | e];
    try exact Hst.
  match goal with
  | |- context [createWaitlistEntry ?d ?i ?n st] =>
      change (createWaitlistEntry d i n st)
        with (db_createWaitlistEntry d i n st)
  end.
  unfold db_createWaitlistEntry.
  destruct (existsb _ _); [exact Hst |].
  cbn [snd]. unfold digestSized. cbn [db_waitlist].
  apply Forall_app. split; [exact Hst |].
  apply Forall_cons. split; [| apply Forall_nil_2].
  cbn [wl_emailVerificationToken iw_emailVerificationToken].
  intros h [= <-]. apply bufferFrom_hexDigest_length.
Qed.

Lemma db_updateWaitlistVerification_digestSized (email : string) (at_ : Z)
    (st : DbStorage) :
  digestSized st ->
  digestSized (db_updateWaitlistVerification email true None None at_ st).
Proof.
  unfold digestSized, db_updateWaitlistVerification. cbn [db_waitlist].
  induction (db_waitlist st) as [| row rows IH]; intros Hst;
    [apply Forall_nil_2 |].
  apply Forall_cons in Hst as [Hrow Hrows]. cbn [map].
  apply Forall_cons. split; [| exact (IH Hrows)].
  destruct (String.eqb (wl_email row) email); [| exact Hrow].
  cbn [wl_emailVerificationToken orNull]. discriminate.
Qed.

Lemma verifyWaitlistHandler_digestSized (w : World) (req : Request)
    (st : DbStorage) :
  digestSized st -> digestSized (snd (verifyWaitlistHandler w req st)).
Proof.
  intros Hst. unfold verifyWaitlistHandler.
  destruct (negb _ || negb _); [exact Hst |].
  destruct (waitlistEntryFor _ st) as [[entry |] | e];
    cbn [mbind option_bind]; try exact Hst.
  destruct (orNull (wl_emailVerificationToken entry)) as [stored |];
    [| exact Hst].
  destruct (verifyTokenHashOf _ stored) as [[|] | e]; try exact Hst.
  destruct (match wl_emailVerificationExpires entry with
            | Some expires => _
            | None => false
            end); [exact Hst |].
  destruct (query "email" (req_query req)) as [[email | items | fields] |];
    cbn [verifyWaitlistEntryOf snd]; try exact Hst.
  change (updateWaitlistVerification email true None None (now w) st)
    with (Ok (db_updateWaitlistVerification email true None None (now w) st)).
  cbn [snd]. apply db_updateWaitlistVerification_digestSized. exact Hst.
Qed.

Lemma serve_digestSized (calls : list WaitlistCall) (st : DbStorage) :
  digestSized st -> digestSized (serve calls st).
Proof.
  revert st. unfold serve.
  induction calls as [| c calls IH]; intros st Hst; [exact Hst |].
  cbn [fold_left]. apply IH. destruct c as [w req | w req]; cbn [serveOne].
  - apply waitlistHandler_digestSized. exact Hst.
  - apply verifyWaitlistHandler_digestSized. exact Hst.
Qed.

Lemma digestSized_found (st : DbStorage) (email : string)
    (entry : WaitlistEntry) (stored : string) :
  digestSized st ->
  db_getWaitlistEntryByEmail email st = Some entry ->
  wl_emailVerificationToken entry = Some stored ->
  length (Crypto.bufferFrom stored) = 64%nat.
Proof.
  unfold digestSized, db_getWaitlistEntryByEmail.
  induction (db_waitlist st) as [| row rows IH]; intros Hst;
    cbn [find]; [discriminate |].
  apply Forall_cons in Hst as [Hrow Hrows].
  destruct (String.eqb (wl_email row) email).
  - intros [= <-] Hs. exact (Hrow stored Hs).
  - exact (IH Hrows).
Qed.

End IssuedHashes.

Section VerificationConfirm.
Import Routes Verification Scenario.
Context {S : Type} {storage : IStorage S}.

(** C6 (amended).  For a verification request whose token and email
    are present as strings, over any store behind the storage
    interface: when the store finds no entry (waitlist entry or user)
    under the email, or the entry holds no token hash, the answer is
    404 "Invalid verification link" and the store is unchanged; when
    the entry holds a hash of 64 bytes, the length of a SHA-256 digest
    in hexadecimal, and the hash of the presented token differs from
    it, the answer is 400 "Invalid verification token" and the store is
    unchanged; when they agree and the clock is past the stored expiry,
    the answer is 400 "Verification link has expired" and the store is
    unchanged; otherwise the answer is 200 and the store is the one
    updated with the entry verified at that instant, token and expiry
    cleared.  The three failures are three different answers.  In both
    stores of server/storage.ts that update leaves the entry found
    under the email verified, with no token hash; and every token
    hash that the database store holds after any sequence of waitlist
    signups and verification requests, starting from the empty store,
    has those 64 bytes.  A token that is
    present but is no string (an array or an object of the query)
    against a stored hash makes the handler fail with the TypeError of
    the hash function, the store unchanged. *)
Theorem C6_verification_confirm_outcomes :
  forall (w : World) (req : Request) (st : S) (token email : string),
    query "token" (req_query req) = Some (QStr token) -> token <> "" ->
    query "email" (req_query req) = Some (QStr email) -> email <> "" ->
    let notFound := json 404 [("message", VStr "Invalid verification link")] in
    let invalid := json 400 [("message", VStr "Invalid verification token")] in
    let expired :=
      json 400 [("message", VStr "Verification link has expired")] in
    (forall found,
       getWaitlistEntryByEmail email st = Ok found ->
       found = None
       \/ (exists entry, found = Some entry
                         /\ wl_emailVerificationToken entry = None) ->
       verifyWaitlistHandler w req st = (notFound, st))
    /\ (forall entry stored,
          getWaitlistEntryByEmail email st = Ok (Some entry) ->
          wl_emailVerificationToken entry = Some stored ->
          length (Crypto.bufferFrom stored) = 64%nat ->
          (hashVerificationToken token <> stored ->
           verifyWaitlistHandler w req st = (invalid, st))
          /\ (hashVerificationToken token = stored ->
              (exists expires,
                 wl_emailVerificationExpires entry = Some expires
                 /\ expires < now w) ->
              verifyWaitlistHandler w req st = (expired, st))
          /\ (hashVerificationToken token = stored ->
              (forall expires,
                 wl_emailVerificationExpires entry = Some expires ->
                 now w <= expires) ->
              forall st',
                updateWaitlistVerification email true None None (now w) st
                = Ok st' ->
                verifyWaitlistHandler w req st
                = (json 200
                     [("message",
                       VStr "Email verified successfully! You've been added to the waitlist.")],
                   st')))
    /\ (forall found,
          getUserByUsername email st = Ok found ->
          found = None
          \/ (exists user, found = Some user
                           /\ emailVerificationToken user = None) ->
          verifyRegistrationHandler w req st = (notFound, st))
    /\ (forall user stored,
          getUserByUsername email st = Ok (Some user) ->
          emailVerificationToken user = Some stored ->
          length (Crypto.bufferFrom stored) = 64%nat ->
          (hashVerificationToken token <> stored ->
           verifyRegistrationHandler w req st = (invalid, st))
          /\ (hashVerificationToken token = stored ->
              (exists expires,
                 emailVerificationExpires user = Some expires
                 /\ expires < now w) ->
              verifyRegistrationHandler w req st = (expired, st))
          /\ (hashVerificationToken token = stored ->
              (forall expires,
                 emailVerificationExpires user = Some expires ->
                 now w <= expires) ->
              forall st',
                updateUserVerification email true None None (now w) st
                = Ok st' ->
                verifyRegistrationHandler w req st
                = (json 200
                     [("message",
                       VStr "Email verified successfully! Your account is now active.")],
                   st')))
    /\ (notFound <> invalid /\ notFound <> expired /\ invalid <> expired)
    /\ (forall (m : MemStorage) entry,
          mem_getWaitlistEntryByEmail email m = Some entry ->
          exists entry',
            mem_getWaitlistEntryByEmail email
              (mem_updateWaitlistVerification email true None None (now w) m)
            = Some entry'
            /\ wl_emailVerified entry' = Some (now w)
            /\ wl_emailVerificationToken entry' = None
            /\ wl_emailVerificationExpires entry' = None)
    /\ (forall (m : MemStorage) user,
          mem_getUserByUsername email m = Some user ->
          exists user',
            mem_getUserByUsername email
              (mem_updateUserVerification email true None None (now w) m)
            = Some user'
            /\ emailVerified user' = Some (now w)
            /\ emailVerificationToken user' = None
            /\ emailVerificationExpires user' = None)
    /\ (forall (d : DbStorage) entry,
          db_getWaitlistEntryByEmail email d = Some entry ->
          exists entry',
            db_getWaitlistEntryByEmail email
              (db_updateWaitlistVerification email true None None (now w) d)
            = Some entry'
            /\ wl_emailVerified entry' = Some (now w)
            /\ wl_emailVerificationToken entry' = None
            /\ wl_emailVerificationExpires entry' = None)
    /\ (forall (d : DbStorage) user,
          db_getUserByUsername email d = Some user ->
          exists user',
            db_getUserByUsername email
              (db_updateUserVerification email true None None (now w) d)
            = Some user'
            /\ emailVerified user' = Some (now w)
            /\ emailVerificationToken user' = None
            /\ emailVerificationExpires user' = None)
    /\ (forall (calls : list WaitlistCall) entry stored,
          db_getWaitlistEntryByEmail email (serve calls emptyDb) = Some entry ->
          wl_emailVerificationToken entry = Some stored ->
          length (Crypto.bufferFrom stored) = 64%nat)
    /\ (forall (req' : Request) (tokenV : qvalue),
          query "token" (req_query req') = Some tokenV ->
          (forall s, tokenV <> QStr s) ->
          query "email" (req_query req') = Some (QStr email) ->
          (forall entry stored,
             getWaitlistEntryByEmail email st = Ok (Some entry) ->
             wl_emailVerificationToken entry = Some stored -> stored <> "" ->
             verifyWaitlistHandler w req' st
             = (Fail (invalidData (Some tokenV)), st))
          /\ (forall user stored,
                getUserByUsername email st = Ok (Some user) ->
                emailVerificationToken user = Some stored -> stored <> "" ->
                verifyRegistrationHandler w req' st
                = (Fail (invalidData (Some tokenV)), st))).
Proof.
  intros w req st token email Ht Htp He Hep notFound invalid expired.
  split.
  { intros found Hl.
    apply (verifyWaitlist_not_found w req st token email Ht Htp He Hep
             found Hl). }
  split.
  { intros entry stored Hl Hs Hlen.
    pose proof (verifyWaitlist_stored w req st token email Ht Htp He Hep
                  (Some entry) Hl entry eq_refl stored Hs Hlen) as E.
    split; [| split].
    - intros Hne. rewrite E, bool_decide_eq_false_2 by exact Hne. reflexivity.
    - intros Heq (expires & Hx & Hlt).
      rewrite E, bool_decide_eq_true_2, Hx by exact Heq.
      destruct (Z.gtb_spec (now w) expires); [reflexivity | lia].
    - intros Heq Hx st' Hup. rewrite E, bool_decide_eq_true_2 by exact Heq.
      assert (Hnot : match wl_emailVerificationExpires entry with
                     | Some expires => now w >? expires
                     | None => false
                     end = false).
      { destruct (wl_emailVerificationExpires entry) as [expires |];
          [| reflexivity].
        specialize (Hx expires eq_refl).
        destruct (Z.gtb_spec (now w) expires); [lia | reflexivity]. }
      rewrite Hnot, Hup. reflexivity. }
  split.
  { intros found Hl.
    apply (verifyRegistration_not_found w req st token email Ht Htp He Hep
             found Hl). }
  split.
  { intros user stored Hl Hs Hlen.
    pose proof (verifyRegistration_stored w req st token email Ht Htp He Hep
                  (Some user) Hl user eq_refl stored Hs Hlen) as E.
    split; [| split].
    - intros Hne. rewrite E, bool_decide_eq_false_2 by exact Hne. reflexivity.
    - intros Heq (expires & Hx & Hlt).
      rewrite E, bool_decide_eq_true_2, Hx by exact Heq.
      destruct (Z.gtb_spec (now w) expires); [reflexivity | lia].
    - intros Heq Hx st' Hup. rewrite E, bool_decide_eq_true_2 by exact Heq.
      assert (Hnot : match emailVerificationExpires user with
                     | Some expires => now w >? expires
                     | None => false
                     end = false).
      { destruct (emailVerificationExpires user) as [expires |];
          [| reflexivity].
        specialize (Hx expires eq_refl).
        destruct (Z.gtb_spec (now w) expires); [lia | reflexivity]. }
      rewrite Hnot, Hup. reflexivity. }
  split; [repeat split; discriminate |].
  split; [intros m entry; apply mem_waitlist_verified_after |].
  split; [intros m user; apply mem_user_verified_after |].
  split; [intros d entry; apply db_waitlist_verified_after |].
  split; [intros d user; apply db_user_verified_after |].
  split.
  { intros calls entry stored.
    apply digestSized_found, serve_digestSized, Forall_nil_2. }
  intros req' tokenV Ht' Hns He'. split.
  - intros entry stored Hl Hs Hne.
    exact (verifyWaitlist_token_not_string w req' st tokenV email entry stored
             Ht' Hns He' Hep Hl Hs Hne).
  - intros user stored Hl Hs Hne.
    exact (verifyRegistration_token_not_string w req' st tokenV email user
             stored Ht' Hns He' Hep Hl Hs Hne).
Qed.

End VerificationConfirm.

Section VerificationScenario.
Import Routes Verification Scenario.

(** The request [GET /api/verify-waitlist?token[]=x&email=zoe@example.com]
    against zoe's pending entry: token and email are present, and the
    answer is none of 404, 400 and 200: the handler fails. *)
Lemma C6_counterexample :
  let req :=
    parsedQueryRequest "203.0.113.7"
      [("token", QArr [QStr "x"]); ("email", QStr "zoe@example.com")] in
  let out := verifyWaitlistHandler world req pendingDb in
  truthyQ (query "token" (req_query req)) = true
  /\ truthyQ (query "email" (req_query req)) = true
  /\ db_getWaitlistEntryByEmail "zoe@example.com" pendingDb = Some zoe
  /\ wl_emailVerificationToken zoe = Some (hashVerificationToken "3f9a-token")
  /\ (forall r, fst out <> Respond r)
  /\ out
     = (Fail (TypeError
                "The 'data' argument must be of type string or an instance of Buffer, TypedArray, or DataView. Received an instance of Array"),
        pendingDb).
Proof.
  intros req out.
  assert (E : out = (Fail (invalidData (Some (QArr [QStr "x"]))), pendingDb)).
  { apply (verifyWaitlist_token_not_string (storage := dbStorage) world req
             pendingDb (QArr [QStr "x"]) "zoe@example.com" zoe
             (hashVerificationToken "3f9a-token"));
      [reflexivity | discriminate | reflexivity | discriminate
       | reflexivity | reflexivity |].
    intros E. apply (f_equal String.length) in E.
    unfold hashVerificationToken, Crypto.sha256Hex in E.
    rewrite hexDigest_length in E. discriminate E. }
  split; [reflexivity |]. split; [reflexivity |]. split; [reflexivity |].
  split; [reflexivity |]. split; [| exact E].
  intros r. rewrite E. discriminate.
Qed.

(** C6 over the database store: zoe presents the token she was sent,
    before it expires. *)
Lemma C6_witness :
  let req :=
    queryRequest "203.0.113.7"
      [("token", "3f9a-token"); ("email", "zoe@example.com")] in
  let st' :=
    db_updateWaitlistVerification "zoe@example.com" true None None (now world)
      pendingDb in
  verifyWaitlistHandler world req pendingDb
  = (json 200
       [("message",
         VStr "Email verified successfully! You've been added to the waitlist.")],
     st')
  /\ exists entry',
       db_getWaitlistEntryByEmail "zoe@example.com" st' = Some entry'
       /\ wl_emailVerified entry' = Some (now world)
       /\ wl_emailVerificationToken entry' = None
       /\ wl_emailVerificationExpires entry' = None.
Proof.
  intros req st'.
  destruct (C6_verification_confirm_outcomes (S := DbStorage) world req
              pendingDb "3f9a-token" "zoe@example.com"
              eq_refl ltac:(discriminate) eq_refl ltac:(discriminate))
    as (_ & Hw & _ & _ & _ & _ & _ & Hd & _).
  split.
  - destruct (Hw zoe (hashVerificationToken "3f9a-token") eq_refl eq_refl
                (bufferFrom_hexDigest_length _)) as (_ & _ & Hok).
    apply Hok; [reflexivity | | reflexivity].
    intros expires [= <-]. vm_compute. discriminate.
  - apply (Hd pendingDb zoe). reflexivity.
Defined.

End VerificationScenario.

(** ** Waitlist entries of the in-memory store *)

Section MemWaitlist.
Import Routes Verification Scenario.

(** An entry without a token hash stays as it is under any
    verify-waitlist request. *)
Lemma verifyWaitlist_keeps_unissued (w : World) (req : Request)
    (st : MemStorage) (e : string) (entry : WaitlistEntry) :
  mem_getWaitlistEntryByEmail e st = Some entry ->
  wl_emailVerificationToken entry = None ->
  mem_getWaitlistEntryByEmail e (snd (verifyWaitlistHandler w req st))
  = Some entry.
Proof.
  intros Hf Hn. unfold verifyWaitlistHandler.
  destruct (negb (truthyQ (query "token" (req_query req)))
            || negb (truthyQ (query "email" (req_query req))));
    [exact Hf |].
  destruct (query "email" (req_query req)) as [[email | items | fields] |];
    cbn [waitlistEntryFor verifyWaitlistEntryOf mbind option_bind];
    try exact Hf.
  change (getWaitlistEntryByEmail email st)
    with (Ok (mem_getWaitlistEntryByEmail email st)).
  destruct (mem_getWaitlistEntryByEmail email st) as [entry' |] eqn:Hf';
    cbn [mbind option_bind]; [| exact Hf].
  destruct (orNull (wl_emailVerificationToken entry')) as [stored |] eqn:Hs;
    [| exact Hf].
  destruct (verifyTokenHashOf _ stored) as [[|] | err]; try exact Hf.
  destruct (match wl_emailVerificationExpires entry' with
            | Some expires => isVerificationExpired (now w) expires
            | None => false
            end); [exact Hf |].
  change (updateWaitlistVerification email true None None (now w) st)
    with (Ok (mem_updateWaitlistVerification email true None None (now w) st)).
  cbn [snd].
  assert (Hne : e <> email).
  { intros ->. rewrite Hf in Hf'. injection Hf' as <-.
    rewrite Hn in Hs. discriminate Hs. }
  unfold mem_updateWaitlistVerification.
  unfold mem_getWaitlistEntryByEmail in Hf'. rewrite Hf'.
  unfold mem_getWaitlistEntryByEmail. cbn [waitlistEntries].
  rewrite mapGet_mapSet_ne by exact Hne. exact Hf.
Qed.

(** An entry that exists is not touched by a waitlist signup. *)
Lemma waitlistHandler_keeps (w : World) (req : Request)
    (st : MemStorage) (e : string) (entry : WaitlistEntry) :
  mem_getWaitlistEntryByEmail e st = Some entry ->
  mem_getWaitlistEntryByEmail e (snd (waitlistHandler w req st)) = Some entry.
Proof.
  intros Hf. unfold waitlistHandler.
  destruct (insertWaitlistSchema _ _ _) as [[[name email] interests] |];
    [| exact Hf].
  change (getWaitlistEntryByEmail email st)
    with (Ok (mem_getWaitlistEntryByEmail email st)).
  destruct (mem_getWaitlistEntryByEmail email st) as [entry' |] eqn:Hf';
    [exact Hf |].
  match goal with
  | |- context [createWaitlistEntry ?d ?i ?n st] =>
      change (createWaitlistEntry d i n st)
        with (Ok (mem_createWaitlistEntry d i n st))
  end.
  cbn [mem_createWaitlistEntry snd fst wl_email iw_email].
  assert (Hne : e <> email) by (intros ->; congruence).
  unfold mem_getWaitlistEntryByEmail. cbn [waitlistEntries].
  rewrite mapGet_mapSet_ne by exact Hne. exact Hf.
Qed.

Lemma serve_keeps_unissued (calls : list WaitlistCall) (st : MemStorage)
    (e : string) (entry : WaitlistEntry) :
  mem_getWaitlistEntryByEmail e st = Some entry ->
  wl_emailVerificationToken entry = None ->
  mem_getWaitlistEntryByEmail e (serve calls st) = Some entry.
Proof.
  intros Hf Hn. revert st Hf. unfold serve.
  induction calls as [| c calls IH]; intros st Hf; [exact Hf |].
  cbn [fold_left]. apply IH. destruct c as [w req | w req]; cbn [serveOne].
  - apply waitlistHandler_keeps. exact Hf.
  - apply verifyWaitlist_keeps_unissued; assumption.
Qed.

(** C10.  [MemStorage.createWaitlistEntry] stores no token hash and
    no expiry, whatever its input holds.  Hence, after any further
    waitlist signups and verification requests, the entry is still the
    one that was created, unverified, and every verify-waitlist
    request that names its email and carries a token is answered 404
    "Invalid verification link" and changes nothing, whether the
    token is a string or an array or object of the query. *)
Theorem C10_mem_waitlist_entry_never_verified :
  forall (entry : InsertWaitlist) (newId : string) (t0 : Z)
         (st : MemStorage),
    let created := fst (mem_createWaitlistEntry entry newId t0 st) in
    let st0 := snd (mem_createWaitlistEntry entry newId t0 st) in
    wl_emailVerificationToken created = None
    /\ wl_emailVerificationExpires created = None
    /\ wl_emailVerified created = None
    /\ forall (calls : list WaitlistCall),
         let st' := serve calls st0 in
         mem_getWaitlistEntryByEmail (iw_email entry) st' = Some created
         /\ forall (w : World) (req : Request) (token : qvalue),
              query "token" (req_query req) = Some token ->
              truthyQ (Some token) = true ->
              query "email" (req_query req) = Some (QStr (iw_email entry)) ->
              iw_email entry <> "" ->
              verifyWaitlistHandler w req st'
              = (json 404 [("message", VStr "Invalid verification link")],
                 st').
Proof.
  intros entry newId t0 st created st0.
  split; [reflexivity |]. split; [reflexivity |]. split; [reflexivity |].
  intros calls st'.
  assert (Hf : mem_getWaitlistEntryByEmail (iw_email entry) st' = Some created).
  { apply serve_keeps_unissued; [| reflexivity].
    unfold st0, mem_getWaitlistEntryByEmail.
    cbn [mem_createWaitlistEntry snd waitlistEntries wl_email].
    apply mapGet_mapSet_eq. }
  split; [exact Hf |].
  intros w req token Ht Htp He Hep.
  apply (verifyWaitlist_no_hash (storage := memStorage) w req st' token
           (iw_email entry)
           (mem_getWaitlistEntryByEmail (iw_email entry) st')
           Ht Htp He Hep eq_refl).
  right. exists created. split; [exact Hf | reflexivity].
Qed.

(** The same through the route: a signup answered 201 by the waitlist
    handler over the in-memory store, then the very token that was
    mailed, is answered 404. *)
Lemma mem_waitlist_signup_then_verify (w w' : World) (req : Request)
    (st : MemStorage) (name email : string) (interests : option string) :
  insertWaitlistSchema
    (get (nullish (req_body req) (VObj [])) "name")
    (get (nullish (req_body req) (VObj [])) "email")
    (get (nullish (req_body req) (VObj [])) "interests")
  = Some (name, email, interests) ->
  mem_getWaitlistEntryByEmail email st = None ->
  email <> "" -> hexOfBytes (tokenBytes w) <> "" ->
  exists r st',
    waitlistHandler w req st = (Respond r, st') /\ status r = 201
    /\ verifyWaitlistHandler w'
         (queryRequest "203.0.113.7"
            [("token", hexOfBytes (tokenBytes w)); ("email", email)]) st'
       = (json 404 [("message", VStr "Invalid verification link")], st').
Proof.
  intros Hs Hf He Htok. unfold waitlistHandler. rewrite Hs.
  change (getWaitlistEntryByEmail email st)
    with (Ok (mem_getWaitlistEntryByEmail email st)).
  rewrite Hf.
  match goal with
  | |- context [createWaitlistEntry ?d ?i ?n st] =>
      change (createWaitlistEntry d i n st)
        with (Ok (mem_createWaitlistEntry d i n st));
      set (ins := d)
  end.
  eexists. eexists. split; [reflexivity |]. split; [reflexivity |].
  match goal with
  | |- verifyWaitlistHandler _ ?r ?s = _ =>
      apply (verifyWaitlist_not_found (storage := memStorage) w' r s
               (hexOfBytes (tokenBytes w)) email
               eq_refl Htok eq_refl He
               (mem_getWaitlistEntryByEmail email s) eq_refl)
  end.
  right. eexists. split.
  - unfold mem_getWaitlistEntryByEmail.
    cbn [mem_createWaitlistEntry snd waitlistEntries wl_email iw_email ins].
    apply mapGet_mapSet_eq.
  - reflexivity.
Qed.

(** C10 at a concrete signup that carried a token hash and an expiry. *)
Lemma C10_witness :
  let entry := {|
    iw_name := "Zoe"; iw_email := "zoe@example.com"; iw_interests := None;
    iw_emailVerified := None;
    iw_emailVerificationToken := Some (hashVerificationToken "3f9a-token");
    iw_emailVerificationExpires := Some 5000
  |} in
  let st0 := snd (mem_createWaitlistEntry entry "k3j9x0q1z" 0 emptyMem) in
  verifyWaitlistHandler world
    (queryRequest "203.0.113.7"
       [("token", "3f9a-token"); ("email", "zoe@example.com")]) st0
  = (json 404 [("message", VStr "Invalid verification link")], st0).
Proof.
  intros entry st0.
  destruct (C10_mem_waitlist_entry_never_verified entry "k3j9x0q1z" 0 emptyMem)
    as (_ & _ & _ & Hc).
  destruct (Hc []) as [_ Hv].
  apply (Hv world _ (QStr "3f9a-token"));
    [reflexivity | reflexivity | reflexivity | discriminate].
Defined.

End MemWaitlist.

(** ** The same signup over the database store *)

Section DbWaitlist.
Import Routes Verification Scenario.

Lemma find_app_not_found {A : Type} (p : A -> bool) (l : list A) (x : A) :
  find p l = None -> p x = true -> find p (l ++ [x]) = Some x.
Proof.
  intros Hn Hx. induction l as [| y l IH]; cbn [app find] in *.
  - rewrite Hx. reflexivity.
  - destruct (p y); [discriminate | exact (IH Hn)].
Qed.

Lemma existsb_find_none {A : Type} (p : A -> bool) (l : list A) :
  find p l = None -> existsb p l = false.
Proof.
  induction l as [| y l IH]; cbn [find existsb]; [reflexivity |].
  destruct (p y); [discriminate | exact IH].
Qed.

End DbWaitlist.

(** ** The rate limiters over many requests *)

Section Quota.
Import Auth RateWindow Scenario Traffic.
Variables maxRequests windowMs : Z.
Variable req : Request.

Lemma replay_cons (limiter : Request -> Z -> gmap string Stats
                             -> Outcome * gmap string Stats)
    (t : Z) (times : list Z) (m : gmap string Stats) :
  replay limiter req (t :: times) m
  = (fst (limiter req t m)
       :: fst (replay limiter req times (snd (limiter req t m))),
     snd (replay limiter req times (snd (limiter req t m)))).
Proof.
  cbn [replay]. destruct (limiter req t m) as [o m']. cbn [fst snd].
  destruct (replay limiter req times m') as [os m'']. reflexivity.
Qed.

Lemma passes_nil : passes [] = 0%nat.
Proof. reflexivity. Qed.

Lemma passes_cons_next (outs : list Outcome) :
  passes (Next :: outs) = S (passes outs).
Proof. reflexivity. Qed.

Lemma passes_cons_respond (r : Response) (outs : list Outcome) :
  passes (Respond r :: outs) = passes outs.
Proof. reflexivity. Qed.

(** Inside a window the IP limiter lets through what is left of the
    quota, and nothing more. *)
Lemma strictRateLimitByIP_in_window (times : list Z) :
  forall (m : gmap string Stats) (st : Stats),
    m !! clientIP req = Some st ->
    Forall (fun t => t <= resetTime st) times ->
    let out := replay (strictRateLimitByIP maxRequests windowMs) req times m in
    Z.of_nat (passes (fst out))
    = Z.min (Z.of_nat (length times)) (Z.max 0 (maxRequests - count st))
    /\ snd out !! clientIP req
       = Some {| count := count st + Z.of_nat (passes (fst out));
                 resetTime := resetTime st |}.
Proof.
  induction times as [| t times IH]; intros m st Hm Hall out.
  - subst out. cbn [replay fst snd length]. rewrite passes_nil.
    split; [lia |]. rewrite Hm. destruct st. cbn. f_equal. f_equal. lia.
  - subst out. rewrite replay_cons. cbn [fst snd].
    apply Forall_cons in Hall as [Ht Hall].
    destruct (Z.lt_ge_cases (count st) maxRequests) as [Hc | Hc].
    + rewrite (strictRateLimitByIP_under _ _ _ _ _ st Hm Ht Hc).
      cbn [fst snd]. rewrite passes_cons_next.
      destruct (IH (<[clientIP req := bumped st]> m) (bumped st)
                  (lookup_insert_eq _ _ _) Hall) as [Hp Hs].
      cbn [bumped count resetTime] in Hp, Hs.
      split; [cbn [length]; lia |].
      rewrite Hs. f_equal. f_equal. lia.
    + rewrite (strictRateLimitByIP_over _ _ _ _ _ st Hm Ht Hc).
      cbn [fst snd]. unfold ipDenied, json. rewrite passes_cons_respond.
      destruct (IH m st Hm Hall) as [Hp Hs].
      split; [cbn [length]; lia | exact Hs].
Qed.

Lemma rateLimitByUser_in_window (times : list Z) :
  forall (m : gmap string Stats) (st : Stats),
    m !! userKey req = Some st ->
    Forall (fun t => t <= resetTime st) times ->
    let out := replay (rateLimitByUser maxRequests windowMs) req times m in
    Z.of_nat (passes (fst out))
    = Z.min (Z.of_nat (length times)) (Z.max 0 (maxRequests - count st))
    /\ snd out !! userKey req
       = Some {| count := count st + Z.of_nat (passes (fst out));
                 resetTime := resetTime st |}.
Proof.
  induction times as [| t times IH]; intros m st Hm Hall out.
  - subst out. cbn [replay fst snd length]. rewrite passes_nil.
    split; [lia |]. rewrite Hm. destruct st. cbn. f_equal. f_equal. lia.
  - subst out. rewrite replay_cons. cbn [fst snd].
    apply Forall_cons in Hall as [Ht Hall].
    destruct (Z.lt_ge_cases (count st) maxRequests) as [Hc | Hc].
    + rewrite (rateLimitByUser_under _ _ _ _ _ st Hm Ht Hc).
      cbn [fst snd]. rewrite passes_cons_next.
      destruct (IH (<[userKey req := bumped st]> m) (bumped st)
                  (lookup_insert_eq _ _ _) Hall) as [Hp Hs].
      cbn [bumped count resetTime] in Hp, Hs.
      split; [cbn [length]; lia |].
      rewrite Hs. f_equal. f_equal. lia.
    + rewrite (rateLimitByUser_over _ _ _ _ _ st Hm Ht Hc).
      cbn [fst snd]. unfold userDenied, json. rewrite passes_cons_respond.
      destruct (IH m st Hm Hall) as [Hp Hs].
      split; [cbn [length]; lia | exact Hs].
Qed.

(** X1.  Both limiters admit exactly their quota per window.  When a
    client's first request (no entry under its key) arrives at [t] and
    all of [times] fall inside the window it opens, that is none is
    later than [t + windowMs], then of these [1 + length times]
    requests exactly [min (1 + length times) (max 1 maxRequests)] are
    let through: the first one always, also when [maxRequests] is 0 or
    negative, and of the others as many as the quota still allows.
    The entry then holds that number as its count. *)
Theorem rate_limiters_admit_exactly_the_quota :
  forall (t : Z) (times : list Z) (m : gmap string Stats),
    Forall (fun t' => t' <= t + windowMs) times ->
    (m !! clientIP req = None ->
     let out :=
       replay (strictRateLimitByIP maxRequests windowMs) req (t :: times) m in
     Z.of_nat (passes (fst out))
     = Z.min (1 + Z.of_nat (length times)) (Z.max 1 maxRequests)
     /\ snd out !! clientIP req
        = Some {| count := Z.of_nat (passes (fst out));
                  resetTime := t + windowMs |})
    /\ (m !! userKey req = None ->
        let out :=
          replay (rateLimitByUser maxRequests windowMs) req (t :: times) m in
        Z.of_nat (passes (fst out))
        = Z.min (1 + Z.of_nat (length times)) (Z.max 1 maxRequests)
        /\ snd out !! userKey req
           = Some {| count := Z.of_nat (passes (fst out));
                     resetTime := t + windowMs |}).
Proof.
  intros t times m Hall. split.
  - intros Hm out. subst out. rewrite replay_cons.
    rewrite (strictRateLimitByIP_first _ _ _ _ _ Hm). cbn [fst snd].
    rewrite passes_cons_next.
    destruct (strictRateLimitByIP_in_window times
                (<[clientIP req := fresh windowMs t]> m) (fresh windowMs t)
                (lookup_insert_eq _ _ _) Hall) as [Hp Hs].
    cbn [fresh count resetTime] in Hp, Hs.
    split; [lia |]. rewrite Hs. f_equal. f_equal. lia.
  - intros Hm out. subst out. rewrite replay_cons.
    rewrite (rateLimitByUser_first _ _ _ _ _ Hm). cbn [fst snd].
    rewrite passes_cons_next.
    destruct (rateLimitByUser_in_window times
                (<[userKey req := fresh windowMs t]> m) (fresh windowMs t)
                (lookup_insert_eq _ _ _) Hall) as [Hp Hs].
    cbn [fresh count resetTime] in Hp, Hs.
    split; [lia |]. rewrite Hs. f_equal. f_equal. lia.
Qed.

End Quota.

(** The quota at five requests per minute: of seven requests inside
    one window, five pass. *)
Lemma rate_limiters_admit_exactly_the_quota_witness :
  Z.of_nat
    (Traffic.passes
       (fst (Scenario.replay (Auth.strictRateLimitByIP 5 60000)
               (Scenario.requestFrom "203.0.113.7")
               [0; 10; 20; 30; 40; 50; 60000] ∅)))
  = 5.
Proof.
  destruct (rate_limiters_admit_exactly_the_quota 5 60000
              (Scenario.requestFrom "203.0.113.7") 0
              [10; 20; 30; 40; 50; 60000] ∅) as [Hip _].
  - repeat constructor; lia.
  - destruct (Hip (lookup_empty _)) as [Hp _]. exact Hp.
Defined.

Section Isolation.
Import Auth RateWindow Scenario Traffic.
Variables maxRequests windowMs : Z.

Lemma strictRateLimitByIP_frame (req : Request) (now : Z)
    (m : gmap string Stats) (k : string) :
  k <> clientIP req ->
  snd (strictRateLimitByIP maxRequests windowMs req now m) !! k = m !! k.
Proof.
  intros Hk. unfold strictRateLimitByIP. fold (clientIP req).
  destruct (m !! clientIP req) as [st |]; cbn [snd].
  - destruct (now >? resetTime st); cbn [snd];
      [apply lookup_insert_ne; congruence |].
    destruct (count st >=? maxRequests); cbn [snd]; [reflexivity |].
    apply lookup_insert_ne; congruence.
  - apply lookup_insert_ne; congruence.
Qed.

Lemma rateLimitByUser_frame (req : Request) (now : Z)
    (m : gmap string Stats) (k : string) :
  k <> userKey req ->
  snd (rateLimitByUser maxRequests windowMs req now m) !! k = m !! k.
Proof.
  intros Hk. unfold rateLimitByUser. fold (userKey req).
  destruct (m !! userKey req) as [st |]; cbn [snd].
  - destruct (now >? resetTime st); cbn [snd];
      [apply lookup_insert_ne; congruence |].
    destruct (count st >=? maxRequests); cbn [snd]; [reflexivity |].
    apply lookup_insert_ne; congruence.
  - apply lookup_insert_ne; congruence.
Qed.

Lemma replay_frame (limiter : Request -> Z -> gmap string Stats
                              -> Outcome * gmap string Stats)
    (req : Request) (k : string) :
  (forall now m, snd (limiter req now m) !! k = m !! k) ->
  forall times m, snd (replay limiter req times m) !! k = m !! k.
Proof.
  intros Hstep times. induction times as [| t times IH]; intros m;
    [reflexivity |].
  rewrite replay_cons. cbn [snd]. rewrite IH. apply Hstep.
Qed.

(** What a limiter decides for a request depends on the entry under
    the request's key alone. *)
Lemma strictRateLimitByIP_verdict (req : Request) (now : Z)
    (m1 m2 : gmap string Stats) :
  m1 !! clientIP req = m2 !! clientIP req ->
  fst (strictRateLimitByIP maxRequests windowMs req now m1)
  = fst (strictRateLimitByIP maxRequests windowMs req now m2).
Proof.
  intros E. unfold strictRateLimitByIP. fold (clientIP req). rewrite E.
  destruct (m2 !! clientIP req) as [st |]; [| reflexivity].
  destruct (now >? resetTime st); [reflexivity |].
  destruct (count st >=? maxRequests); reflexivity.
Qed.

Lemma rateLimitByUser_verdict (req : Request) (now : Z)
    (m1 m2 : gmap string Stats) :
  m1 !! userKey req = m2 !! userKey req ->
  fst (rateLimitByUser maxRequests windowMs req now m1)
  = fst (rateLimitByUser maxRequests windowMs req now m2).
Proof.
  intros E. unfold rateLimitByUser. fold (userKey req). rewrite E.
  destruct (m2 !! userKey req) as [st |]; [| reflexivity].
  destruct (now >? resetTime st); [reflexivity |].
  destruct (count st >=? maxRequests); reflexivity.
Qed.

(** X2.  The limiters keep clients apart: however many requests one
    client sends, at whatever times, the entry of a client counted
    under another key is left as it was, and the limiter decides that
    other client's next request as if the first had sent nothing. *)
Theorem rate_limiters_keep_clients_apart :
  forall (req other : Request) (times : list Z) (now : Z)
         (m : gmap string Stats),
    (clientIP other <> clientIP req ->
     let m' :=
       snd (replay (strictRateLimitByIP maxRequests windowMs) req times m) in
     m' !! clientIP other = m !! clientIP other
     /\ fst (strictRateLimitByIP maxRequests windowMs other now m')
        = fst (strictRateLimitByIP maxRequests windowMs other now m))
    /\ (userKey other <> userKey req ->
        let m' :=
          snd (replay (rateLimitByUser maxRequests windowMs) req times m) in
        m' !! userKey other = m !! userKey other
        /\ fst (rateLimitByUser maxRequests windowMs other now m')
           = fst (rateLimitByUser maxRequests windowMs other now m)).
Proof.
  intros req other times now m. split; intros Hk m'.
  - assert (E : m' !! clientIP other = m !! clientIP other).
    { apply replay_frame. intros t m0.
      apply strictRateLimitByIP_frame. exact Hk. }
    split; [exact E | apply strictRateLimitByIP_verdict; exact E].
  - assert (E : m' !! userKey other = m !! userKey other).
    { apply replay_frame. intros t m0.
      apply rateLimitByUser_frame. exact Hk. }
    split; [exact E | apply rateLimitByUser_verdict; exact E].
Qed.

End Isolation.

(** One client uses up its five requests; the first request of
    another client still passes. *)
Lemma rate_limiters_keep_clients_apart_witness :
  fst (Auth.strictRateLimitByIP 5 60000 (Scenario.requestFrom "198.51.100.2")
         70
         (snd (Scenario.replay (Auth.strictRateLimitByIP 5 60000)
                 (Scenario.requestFrom "203.0.113.7")
                 [0; 10; 20; 30; 40; 50; 60] ∅)))
  = Next.
Proof.
  destruct (rate_limiters_keep_clients_apart 5 60000
              (Scenario.requestFrom "203.0.113.7")
              (Scenario.requestFrom "198.51.100.2")
              [0; 10; 20; 30; 40; 50; 60] 70 ∅) as [Hip _].
  destruct (Hip ltac:(discriminate)) as [_ Hv].
  rewrite Hv. reflexivity.
Defined.

(** ** The gates in front of the handlers *)

Section Gates.
Import Auth RateWindow Scenario Routes.
Context {S : Type} {storage : IStorage S}.
Variable cfg : Config.
Variable refererOrigin : string -> Exn string.

(** Only a 201 of the registration handler comes with another store. *)
Lemma registerHandler_frame (w : World) (req : Request) (st : S) :
  snd (registerHandler cfg w req st) = st
  \/ exists r, fst (registerHandler cfg w req st) = Respond r
               /\ status r = 201.
Proof.
  unfold registerHandler.
  destruct (normalizedUsername _) as [u | e]; [| by left].
  destruct (insertUserSchema _ _); cbn [negb]; [| by left].
  destruct (getUserByUsername u st) as [[user |] | e]; [by left | | by left].
  destruct (passwordUtils_hash _ _ _) as [h | e]; [| by left].
  destruct (createUser _ _ _ _) as [[created st'] | e]; [| by left].
  right. eexists. split; reflexivity.
Qed.

Lemma waitlistHandler_frame (w : World) (req : Request) (st : S) :
  snd (waitlistHandler w req st) = st
  \/ exists r, fst (waitlistHandler w req st) = Respond r /\ status r = 201.
Proof.
  unfold waitlistHandler.
  destruct (insertWaitlistSchema _ _ _) as [[[name email] interests] |];
    [| by left].
  destruct (getWaitlistEntryByEmail email st) as [[entry |] | e];
    [by left | | by left].
  destruct (createWaitlistEntry _ _ _ _) as [[created st'] | e]; [| by left].
  right. eexists. split; reflexivity.
Qed.

Lemma andThen_next {T : Type} (a : T) (k : T -> Outcome * T) :
  andThen (Next, a) k = k a.
Proof. reflexivity. Qed.

Lemma andThen_respond {T : Type} (r : Response) (a : T)
    (k : T -> Outcome * T) :
  andThen (Respond r, a) k = (Respond r, a).
Proof. reflexivity. Qed.

Lemma andThen_fail {T : Type} (e : JsError) (a : T) (k : T -> Outcome * T) :
  andThen (Fail e, a) k = (Fail e, a).
Proof. reflexivity. Qed.

(** The chain of a public endpoint around any handler. *)
Lemma publicChain_guards (maxRequests : Z) (handler : S -> Outcome * S)
    (w : World) (req : Request) (app : App S) :
  (forall st, snd (handler st) = st
              \/ exists r, fst (handler st) = Respond r /\ status r = 201) ->
  let out :=
    andThen (apiPrefix w req app) (fun app =>
    andThen (onIpCounts
               (strictRateLimitByIP maxRequests (60 * 60 * 1000) req (nowIP w))
               app) (fun app =>
    andThen (pure (requireApiKey cfg req) app) (fun app =>
    andThen (pure (validateOrigin cfg refererOrigin req) app)
      (onStore handler)))) in
  store (snd out) = store app
  \/ (fst (apiPrefix w req app) = Next
      /\ fst (strictRateLimitByIP maxRequests (60 * 60 * 1000) req (nowIP w)
                (ipRequestCounts app)) = Next
      /\ requireApiKey cfg req = Next
      /\ validateOrigin cfg refererOrigin req = Next
      /\ exists r, fst out = Respond r /\ status r = 201).
Proof.
  intros Hh out. subst out.
  destruct (apiPrefix_frame w req app) as [Hic Hst].
  destruct (apiPrefix w req app) as [o1 app1]. cbn [fst snd] in Hic, Hst.
  destruct o1;
    rewrite ?andThen_next, ?andThen_respond, ?andThen_fail;
    [| left; exact Hst ..].
  unfold onIpCounts. rewrite Hic.
  destruct (strictRateLimitByIP _ _ _ _ _) as [o2 m2].
  destruct o2;
    rewrite ?andThen_next, ?andThen_respond, ?andThen_fail;
    [| left; exact Hst ..].
  unfold pure.
  destruct (requireApiKey cfg req);
    rewrite ?andThen_next, ?andThen_respond, ?andThen_fail;
    [| left; exact Hst ..].
  destruct (validateOrigin cfg refererOrigin req);
    rewrite ?andThen_next, ?andThen_respond, ?andThen_fail;
    [| left; exact Hst ..].
  unfold onStore. cbn [store]. rewrite Hst.
  destruct (Hh (store app)) as [Hsame | (r & Hr & Hs)];
    destruct (handler (store app)) as [o s]; cbn [fst snd store] in *.
  - left. exact Hsame.
  - right. do 4 (split; [reflexivity |]). exists r. split; assumption.
Qed.

(** X3.  The public endpoints change the store only behind every
    gate: after a request to POST /api/register or POST /api/waitlist
    either the store is what it was, or the global limiter, the IP
    limiter, the API key check and the origin check all let the
    request pass and the answer is a 201. *)
Theorem public_endpoints_write_only_past_every_gate :
  forall (w : World) (req : Request) (app : App S),
    (let out := postRegister cfg refererOrigin w req app in
     store (snd out) = store app
     \/ (fst (apiPrefix w req app) = Next
         /\ fst (strictRateLimitByIP 5 (60 * 60 * 1000) req (nowIP w)
                   (ipRequestCounts app)) = Next
         /\ requireApiKey cfg req = Next
         /\ validateOrigin cfg refererOrigin req = Next
         /\ exists r, fst out = Respond r /\ status r = 201))
    /\ (let out := postWaitlist cfg refererOrigin w req app in
        store (snd out) = store app
        \/ (fst (apiPrefix w req app) = Next
            /\ fst (strictRateLimitByIP 10 (60 * 60 * 1000) req (nowIP w)
                      (ipRequestCounts app)) = Next
            /\ requireApiKey cfg req = Next
            /\ validateOrigin cfg refererOrigin req = Next
            /\ exists r, fst out = Respond r /\ status r = 201)).
Proof.
  intros w req app. split.
  - apply (publicChain_guards 5 (registerHandler cfg w req) w req app).
    intros st. apply registerHandler_frame.
  - apply (publicChain_guards 10 (waitlistHandler w req) w req app).
    intros st. apply waitlistHandler_frame.
Qed.

(** X4.  Once a client has used up the 100 requests of its
    15-minute window, every route under /api answers 429 and does
    nothing else: neither limiter map nor the store changes, so a
    login attempt is refused before any password is looked at. *)
Theorem api_routes_refuse_past_the_global_quota :
  forall (w : World) (req : Request) (app : App S) (st : Stats),
    userRequestCounts app !! userKey req = Some st ->
    nowUser w <= resetTime st ->
    100 <= count st ->
    let refused := (userDenied (nowUser w) st, app) in
    postLogin cfg w req app = refused
    /\ postRegister cfg refererOrigin w req app = refused
    /\ postWaitlist cfg refererOrigin w req app = refused
    /\ getVerifyWaitlist w req app = refused
    /\ getVerifyRegistration w req app = refused.
Proof.
  intros w req app st Hm Ht Hc refused.
  assert (E : apiPrefix w req app = refused).
  { unfold apiPrefix, andThen, pure, logAuthenticatedRequest, onUserCounts.
    cbn [fst snd].
    rewrite (rateLimitByUser_over _ _ _ _ _ st Hm Ht Hc).
    subst refused. destruct app; reflexivity. }
  unfold postLogin, postRegister, postWaitlist, getVerifyWaitlist,
    getVerifyRegistration.
  rewrite E. subst refused. unfold andThen, userDenied, json. cbn [fst snd].
  repeat split.
Qed.

End Gates.

Section OriginCheck.
Import Auth.
Variable cfg : Config.
Variable refererOrigin : string -> Exn string.

(** X5.  [validateOrigin] looks at the Origin header first: a
    request whose origin is on the allow list passes whatever its
    Referer header holds.  A request without such an origin whose
    Referer header is not a URL is not answered 403: the URL
    constructor throws and the middleware fails with that error.  And
    a request with neither header passes unless NODE_ENV is
    "production", where it is answered 403. *)
Theorem validateOrigin_edges :
  forall (req : Request),
    (forall o, req_origin req = Some o -> o <> "" ->
               includes (ALLOWED_ORIGINS cfg) o = true ->
               validateOrigin cfg refererOrigin req = Next)
    /\ (forall ref e,
          (present (req_origin req) = false
           \/ includes (ALLOWED_ORIGINS cfg) (str_or (req_origin req) "")
              = false) ->
          req_referer req = Some ref -> ref <> "" ->
          refererOrigin ref = Throw e ->
          validateOrigin cfg refererOrigin req = Fail e)
    /\ (present (req_origin req) = false ->
        present (req_referer req) = false ->
        validateOrigin cfg refererOrigin req
        = if bool_decide (NODE_ENV cfg = Some "production")
          then json 403
                 [("error", VStr "Origin not allowed");
                  ("message",
                   VStr "Requests from this origin are not permitted")]
          else Next).
Proof.
  intros req. unfold validateOrigin. split; [| split].
  - intros o Ho Hne Hin. rewrite Ho. cbn [present str_or].
    destruct (String.eqb_spec o ""); [contradiction |].
    cbn [negb andb]. rewrite Hin. reflexivity.
  - intros ref e Ho Hr Hne He. rewrite Hr. cbn [present str_or].
    destruct (String.eqb_spec ref ""); [contradiction |].
    cbn [negb andb]. rewrite andb_false_r. cbn [andb].
    rewrite He.
    destruct Ho as [-> | ->]; [reflexivity |].
    rewrite andb_false_r. reflexivity.
  - intros Ho Hr. rewrite Ho, Hr. cbn [negb andb].
    destruct (bool_decide _); reflexivity.
Qed.

End OriginCheck.

(** The global limiter at its limit in front of a login attempt. *)
Lemma api_routes_refuse_past_the_global_quota_witness :
  let req :=
    Scenario.publicRequest "203.0.113.7" None
      [("username", VStr "ann@example.com"); ("password", VStr "U*U")] in
  let app := {|
    Routes.userRequestCounts :=
      {[ "203.0.113.7" := {| Auth.count := 100; Auth.resetTime := 5000 |} ]};
    Routes.ipRequestCounts := ∅;
    Routes.store := Scenario.threeUsers
  |} in
  exists r,
    Routes.postLogin Auth.defaultConfig Scenario.world req app
    = (Respond r, app)
    /\ status r = 429.
Proof.
  intros req app.
  destruct (api_routes_refuse_past_the_global_quota Auth.defaultConfig
              Scenario.noReferer Scenario.world req app
              {| Auth.count := 100; Auth.resetTime := 5000 |})
    as [Hlogin _].
  - apply lookup_singleton_eq.
  - vm_compute. discriminate.
  - vm_compute. discriminate.
  - eexists. split; [exact Hlogin | reflexivity].
Defined.

(** An allowed origin with a Referer header that is no URL, and the
    same Referer header alone. *)
Lemma validateOrigin_edges_witness :
  let req o := {|
    req_ip := Some "203.0.113.7";
    req_remoteAddress := None;
    req_apiKey := None;
    req_origin := o;
    req_referer := Some "not a url";
    req_authorization := None;
    req_user := None;
    req_body := VUndefined;
    req_query := []
  |} in
  Auth.validateOrigin Auth.defaultConfig Scenario.noReferer
    (req (Some "http://localhost:3000")) = Next
  /\ Auth.validateOrigin Auth.defaultConfig Scenario.noReferer (req None)
     = Fail (TypeError "Invalid URL").
Proof.
  intros req. split.
  - destruct (validateOrigin_edges Auth.defaultConfig Scenario.noReferer
                (req (Some "http://localhost:3000"))) as [Hallowed _].
    apply (Hallowed "http://localhost:3000");
      [reflexivity | discriminate | reflexivity].
  - destruct (validateOrigin_edges Auth.defaultConfig Scenario.noReferer
                (req None)) as (_ & Hbad & _).
    apply (Hbad "not a url");
      [left; reflexivity | reflexivity | discriminate | reflexivity].
Defined.

(** ** Verification tokens and their hashes *)

Section Tokens.
Import Crypto Verification Routes Hex.

Lemma hexDigit_isDigit (d : Z) : 0 <= d < 16 -> isDigit (hexDigit d) = true.
Proof.
  intros Hd.
  assert (Hc : d = 0 \/ d = 1 \/ d = 2 \/ d = 3 \/ d = 4 \/ d = 5 \/ d = 6
               \/ d = 7 \/ d = 8 \/ d = 9 \/ d = 10 \/ d = 11 \/ d = 12
               \/ d = 13 \/ d = 14 \/ d = 15) by lia.
  repeat (destruct Hc as [-> | Hc]; [reflexivity |]). subst d. reflexivity.
Qed.

Lemma hexDigit_inj (d1 d2 : Z) :
  0 <= d1 < 16 -> 0 <= d2 < 16 -> hexDigit d1 = hexDigit d2 -> d1 = d2.
Proof.
  intros H1 H2 E.
  apply (f_equal (fun c => Z.of_N (Ascii.N_of_ascii c))) in E.
  rewrite (hexDigit_code d1 H1), (hexDigit_code d2 H2) in E.
  destruct (Z.ltb_spec d1 10), (Z.ltb_spec d2 10); lia.
Qed.

Lemma hex32_allHex (x : Z) (tail : string) :
  allHex tail = true -> allHex (hex32 x tail) = true.
Proof.
  intros Ht. unfold hex32. cbn [allHex].
  rewrite !hexDigit_isDigit by (apply Z.mod_pos_bound; lia).
  exact Ht.
Qed.

(** X6.  [hashVerificationToken] always gives 64 characters, all of
    them digits 0-9 or a-f, and [verifyTokenHash] accepts a token
    against its own hash; against the hash of an issued token it
    never throws, and it accepts exactly the tokens with that very
    hash. *)
Theorem verification_hash_round_trip :
  forall (token : string),
    String.length (hashVerificationToken token) = 64%nat
    /\ allHex (hashVerificationToken token) = true
    /\ verifyTokenHash token (hashVerificationToken token) = Ok true
    /\ forall other,
         verifyTokenHash other (hashVerificationToken token) = Ok true
         <-> hashVerificationToken other = hashVerificationToken token.
Proof.
  intros token. split; [apply hexDigest_length |]. split.
  - unfold hashVerificationToken, sha256Hex, hexDigest.
    repeat apply hex32_allHex. reflexivity.
  - split.
    + rewrite verifyTokenHash_issued, bool_decide_eq_true_2 by reflexivity.
      reflexivity.
    + intros other. rewrite verifyTokenHash_issued. split.
      * intros [= E]. apply bool_decide_eq_true_1 in E. exact E.
      * intros E. rewrite bool_decide_eq_true_2 by exact E. reflexivity.
Qed.

Lemma hexOfBytes_cons (b : Z) (rest : list Z) :
  hexOfBytes (b :: rest)
  = String (hexDigit ((b / 16) mod 16))
      (String (hexDigit (b mod 16)) (hexOfBytes rest)).
Proof. reflexivity. Qed.

(** X7.  [generateVerificationToken] writes two hexadecimal digits
    per random byte: the token of [n] bytes has [2 n] characters, all
    of them digits 0-9 or a-f, it is not empty when [n] is not 0, and
    different byte strings give different tokens. *)
Theorem verification_token_encoding :
  forall (bytes : list Z),
    Forall (fun b => 0 <= b < 256) bytes ->
    String.length (hexOfBytes bytes) = (2 * length bytes)%nat
    /\ allHex (hexOfBytes bytes) = true
    /\ (bytes <> [] -> present (Some (hexOfBytes bytes)) = true)
    /\ forall bytes',
         Forall (fun b => 0 <= b < 256) bytes' ->
         hexOfBytes bytes' = hexOfBytes bytes -> bytes' = bytes.
Proof.
  intros bytes Hb. split; [| split; [| split]].
  - clear Hb. induction bytes as [| b rest IH]; [reflexivity |].
    rewrite hexOfBytes_cons. cbn [String.length length]. rewrite IH. lia.
  - clear Hb. induction bytes as [| b rest IH]; [reflexivity |].
    rewrite hexOfBytes_cons. cbn [allHex].
    rewrite !hexDigit_isDigit by (apply Z.mod_pos_bound; lia).
    exact IH.
  - intros Hne. destruct bytes as [| b rest]; [contradiction |].
    reflexivity.
  - induction Hb as [| b rest Hb Hrest IH]; intros bytes' Hb' E.
    + destruct bytes' as [| b' rest']; [reflexivity | discriminate E].
    + destruct Hb' as [| b' rest' Hb' Hrest']; [discriminate E |].
      rewrite !hexOfBytes_cons in E. injection E as E1 E2 E3.
      apply hexDigit_inj in E1; try (apply Z.mod_pos_bound; lia).
      apply hexDigit_inj in E2; try (apply Z.mod_pos_bound; lia).
      f_equal; [| apply IH; assumption].
      rewrite (Z.div_mod b 16), (Z.div_mod b' 16) by lia.
      rewrite (Z.mod_small (b / 16) 16) in E1
        by (split; [apply Z.div_pos; lia | apply Z.div_lt_upper_bound; lia]).
      rewrite (Z.mod_small (b' / 16) 16) in E1
        by (split; [apply Z.div_pos; lia | apply Z.div_lt_upper_bound; lia]).
      congruence.
Qed.

End Tokens.

(** The token of the four bytes de ad be ef. *)
Lemma verification_token_encoding_witness :
  String.length (Routes.hexOfBytes [222; 173; 190; 239]) = 8%nat
  /\ Routes.hexOfBytes [222; 173; 190; 239] = "deadbeef".
Proof.
  destruct (verification_token_encoding [222; 173; 190; 239]) as [Hlen _].
  - repeat constructor; lia.
  - split; [exact Hlen | reflexivity].
Defined.

(** ** Accounts over the in-memory store *)

Section MemUsers.
Import Auth Routes BcryptRecord.

Lemma find_mapSet_new {V : Type} (p : V -> bool) (k : string) (v : V)
    (m : list (string * V)) :
  find p (mapValues m) = None -> p v = true ->
  find p (mapValues (mapSet k v m)) = Some v.
Proof.
  intros Hn Hv. induction m as [| [k' v'] m IH];
    cbn [mapSet mapValues map snd find] in *.
  - rewrite Hv. reflexivity.
  - destruct (p v') eqn:Hv'; [discriminate |].
    destruct (String.eqb k k'); cbn [mapValues map snd find].
    + rewrite Hv. reflexivity.
    + rewrite Hv'. apply IH. exact Hn.
Qed.

Lemma find_none_not_in {V : Type} (f : V -> string) (u : string)
    (l : list V) :
  find (fun v => String.eqb (f v) u) l = None -> u ∉ map f l.
Proof.
  induction l as [| v l IH]; cbn [find map]; [intros _; apply not_elem_of_nil |].
  destruct (String.eqb_spec (f v) u); [discriminate |].
  intros Hn. apply not_elem_of_cons. split; [congruence | exact (IH Hn)].
Qed.

Lemma in_mapSet {V : Type} (f : V -> string) (k : string) (v : V) (x : string)
    (m : list (string * V)) :
  x ∈ map f (mapValues (mapSet k v m)) ->
  x = f v \/ x ∈ map f (mapValues m).
Proof.
  induction m as [| [k' v'] m IH]; cbn [mapSet mapValues map snd].
  - intros Hin. apply list_elem_of_singleton in Hin. left. exact Hin.
  - destruct (String.eqb k k'); cbn [mapValues map snd];
      rewrite !elem_of_cons.
    + intros [E | Hin]; [left; exact E | right; right; exact Hin].
    + intros [E | Hin]; [right; left; exact E |].
      destruct (IH Hin) as [E | Hin'];
        [left; exact E | right; right; exact Hin'].
Qed.

Lemma NoDup_mapSet {V : Type} (f : V -> string) (k : string) (v : V)
    (m : list (string * V)) :
  NoDup (map f (mapValues m)) -> f v ∉ map f (mapValues m) ->
  NoDup (map f (mapValues (mapSet k v m))).
Proof.
  induction m as [| [k' v'] m IH]; cbn [mapSet mapValues map snd];
    intros Hnd Hni.
  - apply NoDup_singleton.
  - apply NoDup_cons in Hnd as [Hv' Hnd].
    apply not_elem_of_cons in Hni as [Hne Hni].
    destruct (String.eqb k k'); cbn [mapValues map snd]; apply NoDup_cons.
    + split; assumption.
    + split; [| apply IH; assumption].
      intros Hin. apply in_mapSet in Hin as [E | Hin]; [| exact (Hv' Hin)].
      apply Hne. symmetry. exact E.
Qed.

Variable cfg : Config.

(** What a successful registration leaves in the in-memory store. *)
Lemma mem_register_created (w : World) (req : Request) (st : MemStorage)
    (raw p : string) :
  let reqBody := nullish (req_body req) (VObj []) in
  let u := toLowerCase (trim raw) in
  let ins := {| iu_username := u;
                iu_password :=
                  hashedRecord p (cost (BCRYPT_ROUNDS cfg))
                    (take 16 (saltBytes w));
                iu_role := Some "user" |} in
  nullish (get reqBody "username") (nullish (get reqBody "email") (VStr ""))
  = VStr raw ->
  get reqBody "password" = VStr p ->
  Regex.test emailRegex u = true -> (6 <= String.length p)%nat ->
  (16 <= length (saltBytes w))%nat ->
  mem_getUserByUsername u st = None ->
  registerHandler cfg w req st
  = (json 201
       [("user",
         VObj [("id", VStr (newId w)); ("username", VStr u);
               ("role", VStr "user")]);
        ("token",
         VJwt (jwtUtils_generateToken cfg (now w) (newId w) u (Some "user")));
        ("message", VStr "Registration successful")],
     snd (mem_createUser ins (newId w) (now w) st))
  /\ mem_getUserByUsername u (snd (mem_createUser ins (newId w) (now w) st))
     = Some (fst (mem_createUser ins (newId w) (now w) st)).
Proof.
  intros reqBody u ins Hraw Hp Hre Hlen Hsalt Hfree. split.
  - apply (register_created cfg w req st _ u (iu_password ins)
             (fst (mem_createUser ins (newId w) (now w) st))).
    + unfold normalizedUsername. fold reqBody. rewrite Hraw. reflexivity.
    + fold reqBody. rewrite Hp, insertUserSchema_spec, Hre.
      cbn [stringMin andb]. apply Nat.leb_le. exact Hlen.
    + change (getUserByUsername u st) with (Ok (mem_getUserByUsername u st)).
      rewrite Hfree. reflexivity.
    + fold reqBody. rewrite Hp. apply hash_ok. exact Hsalt.
    + reflexivity.
  - unfold mem_getUserByUsername, mem_createUser. cbn [snd fst users].
    apply find_mapSet_new; [exact Hfree |].
    cbn [username iu_username ins]. apply String.eqb_refl.
Qed.

(** X8.  Registration and login fit together over the in-memory
    store: when a registration is valid (the normalised username
    matches the email pattern and is free, the password has six
    characters or more), it is answered 201, and from then on a login
    that names the same username in any spelling that normalises to
    it (other case, surrounding blanks, under [username] or [email])
    with the same password is answered 200 with the id of the created
    user, an access token and a refresh token, and leaves the store as
    it is. *)
Theorem register_then_login :
  forall (w w' : World) (req req' : Request) (st : MemStorage)
         (raw raw' p : string),
    let reqBody := nullish (req_body req) (VObj []) in
    let loginBody := nullish (req_body req') (VObj []) in
    let u := toLowerCase (trim raw) in
    nullish (get reqBody "username") (nullish (get reqBody "email") (VStr ""))
    = VStr raw ->
    get reqBody "password" = VStr p ->
    Regex.test emailRegex u = true -> (6 <= String.length p)%nat ->
    (16 <= length (saltBytes w))%nat ->
    mem_getUserByUsername u st = None ->
    nullish (get loginBody "username")
      (nullish (get loginBody "email") (VStr "")) = VStr raw' ->
    toLowerCase (trim raw') = u ->
    get loginBody "password" = VStr p ->
    exists r st',
      registerHandler cfg w req st = (Respond r, st') /\ status r = 201
      /\ loginHandler cfg w' req' st'
         = (json 200
              [("user",
                VObj [("id", VStr (newId w)); ("username", VStr u);
                      ("role", VStr "user")]);
               ("token",
                VJwt (jwtUtils_generateToken cfg (now w') (newId w) u
                        (Some "user")));
               ("refreshToken",
                VJwt (jwtUtils_generateRefreshToken cfg (now w') (newId w)));
               ("message", VStr "Login successful")],
            st').
Proof.
  intros w w' req req' st raw raw' p reqBody loginBody u
    Hraw Hp Hre Hlen Hsalt Hfree Hraw' Hu' Hp'.
  destruct (mem_register_created w req st raw p Hraw Hp Hre Hlen Hsalt Hfree)
    as [Hreg Hget].
  fold u in Hreg, Hget.
  eexists. eexists. split; [exact Hreg |]. split; [reflexivity |].
  unfold loginHandler. fold loginBody.
  unfold normalizedUsername. rewrite Hraw', Hu', Hp'.
  assert (Hne : u <> "") by (apply emailRegex_not_empty; exact Hre).
  cbn [truthy]. destruct (String.eqb_spec u ""); [contradiction |].
  destruct (String.eqb_spec p "") as [-> | _]; [cbn in Hlen; lia |].
  cbn [negb orb].
  match goal with
  | |- context [getUserByUsername u ?s] =>
      change (getUserByUsername u s) with (Ok (mem_getUserByUsername u s))
  end.
  rewrite Hget. cbn [mem_createUser fst password iu_password].
  unfold passwordUtils_verify.
  rewrite compare_hashedRecord
    by (apply cost_range || (rewrite length_take; lia)).
  rewrite bool_decide_eq_true_2 by reflexivity.
  reflexivity.
Qed.

(** Run without a break, the two steps of a registration are the
    handler. *)
Lemma registerHandler_steps {S : Type} `{IStorage S} (w : World)
    (req : Request) (st : S) :
  registerHandler cfg w req st
  = match Registration.registerCheck req st with
    | inl o => (o, st)
    | inr p => Registration.registerInsert cfg w p st
    end.
Proof.
  unfold registerHandler, Registration.registerCheck,
    Registration.registerInsert.
  destruct (normalizedUsername _) as [u | e]; [| reflexivity].
  destruct (insertUserSchema _ _); cbn [negb]; [| reflexivity].
  destruct (getUserByUsername u st) as [[user |] | e]; reflexivity.
Qed.

(** A valid registration of a free username passes the check. *)
Lemma mem_registerCheck_free (req : Request) (st : MemStorage)
    (raw p : string) :
  let reqBody := nullish (req_body req) (VObj []) in
  nullish (get reqBody "username") (nullish (get reqBody "email") (VStr ""))
  = VStr raw ->
  get reqBody "password" = VStr p ->
  Regex.test emailRegex (toLowerCase (trim raw)) = true ->
  (6 <= String.length p)%nat ->
  mem_getUserByUsername (toLowerCase (trim raw)) st = None ->
  Registration.registerCheck req st
  = inr {| Registration.pr_username := toLowerCase (trim raw);
           Registration.pr_password := VStr p |}.
Proof.
  intros reqBody Hraw Hp Hre Hlen Hfree. unfold Registration.registerCheck.
  unfold normalizedUsername. fold reqBody. rewrite Hraw, Hp.
  rewrite insertUserSchema_spec, Hre. cbn [stringMin andb].
  apply Nat.leb_le in Hlen. rewrite Hlen. cbn [negb].
  change (getUserByUsername (toLowerCase (trim raw)) st)
    with (Ok (mem_getUserByUsername (toLowerCase (trim raw)) st)).
  rewrite Hfree. reflexivity.
Qed.

(** The insert asks nothing of the store: it writes the user under
    the new id, whether the username is already there or not. *)
Lemma mem_registerInsert (w : World) (u p : string) (st : MemStorage) :
  (16 <= length (saltBytes w))%nat ->
  let ins := {| iu_username := u;
                iu_password :=
                  hashedRecord p (cost (BCRYPT_ROUNDS cfg))
                    (take 16 (saltBytes w));
                iu_role := Some "user" |} in
  Registration.registerInsert cfg w
    {| Registration.pr_username := u; Registration.pr_password := VStr p |} st
  = (json 201
       [("user",
         VObj [("id", VStr (newId w)); ("username", VStr u);
               ("role", VStr "user")]);
        ("token",
         VJwt (jwtUtils_generateToken cfg (now w) (newId w) u (Some "user")));
        ("message", VStr "Registration successful")],
     snd (mem_createUser ins (newId w) (now w) st)).
Proof.
  intros Hsalt ins. unfold Registration.registerInsert.
  cbn [Registration.pr_username Registration.pr_password].
  unfold passwordUtils_hash. rewrite (hash_ok p _ _ Hsalt).
  reflexivity.
Qed.

(** X9.  A registration is not one step: the check that the username
    is free and the insert are separated by the wait for bcrypt, and
    [MemStorage.createUser] checks nothing.  When two valid
    registrations of one free username (in any spellings that
    normalise to it) are in flight together, so that both pass the
    check before either inserts, both are answered 201 and the store
    then holds two users of that username, under the two ids.  Handled
    one after the other, the first is answered 201 and the second 409
    "User already exists". *)
Theorem concurrent_registrations_share_a_username :
  forall (w1 w2 : World) (req1 req2 : Request) (st : MemStorage)
         (raw1 raw2 p1 p2 : string),
    let body1 := nullish (req_body req1) (VObj []) in
    let body2 := nullish (req_body req2) (VObj []) in
    let u := toLowerCase (trim raw1) in
    nullish (get body1 "username") (nullish (get body1 "email") (VStr ""))
    = VStr raw1 ->
    nullish (get body2 "username") (nullish (get body2 "email") (VStr ""))
    = VStr raw2 ->
    toLowerCase (trim raw2) = u ->
    get body1 "password" = VStr p1 -> get body2 "password" = VStr p2 ->
    Regex.test emailRegex u = true ->
    (6 <= String.length p1)%nat -> (6 <= String.length p2)%nat ->
    (16 <= length (saltBytes w1))%nat -> (16 <= length (saltBytes w2))%nat ->
    mem_getUserByUsername u st = None ->
    newId w1 <> newId w2 ->
    let both := Registration.registerBoth cfg w1 w2 req1 req2 st in
    let first := registerHandler cfg w1 req1 st in
    (exists r1 r2,
       fst both = (Respond r1, Respond r2)
       /\ status r1 = 201 /\ status r2 = 201)
    /\ (exists user1 user2,
          mem_getUser (newId w1) (snd both) = Some user1
          /\ mem_getUser (newId w2) (snd both) = Some user2
          /\ username user1 = u /\ username user2 = u)
    /\ (exists r1, fst first = Respond r1 /\ status r1 = 201)
    /\ registerHandler cfg w2 req2 (snd first)
       = (json 409 [("message", VStr "User already exists")], snd first).
Proof.
  intros w1 w2 req1 req2 st raw1 raw2 p1 p2 body1 body2 u
    Hraw1 Hraw2 Hu2 Hp1 Hp2 Hre Hl1 Hl2 Hs1 Hs2 Hfree Hids both first.
  pose proof (mem_registerCheck_free req1 st raw1 p1 Hraw1 Hp1 Hre Hl1 Hfree)
    as Hc1.
  assert (Hre2 : Regex.test emailRegex (toLowerCase (trim raw2)) = true)
    by (rewrite Hu2; exact Hre).
  assert (Hfree2 : mem_getUserByUsername (toLowerCase (trim raw2)) st = None)
    by (rewrite Hu2; exact Hfree).
  pose proof (mem_registerCheck_free req2 st raw2 p2 Hraw2 Hp2 Hre2 Hl2 Hfree2)
    as Hc2.
  rewrite Hu2 in Hc2. fold u in Hc1, Hc2.
  split; [| split; [| split]].
  - unfold both, Registration.registerBoth. rewrite Hc1, Hc2.
    rewrite (mem_registerInsert w1 u p1 st Hs1).
    rewrite (mem_registerInsert w2 u p2 _ Hs2).
    eexists. eexists. split; [reflexivity |]. split; reflexivity.
  - unfold both, Registration.registerBoth. rewrite Hc1, Hc2.
    rewrite (mem_registerInsert w1 u p1 st Hs1).
    rewrite (mem_registerInsert w2 u p2 _ Hs2).
    cbn [snd mem_createUser]. unfold mem_getUser. cbn [users id].
    eexists. eexists. split; [| split; [| split]].
    + rewrite mapGet_mapSet_ne by exact Hids. apply mapGet_mapSet_eq.
    + apply mapGet_mapSet_eq.
    + reflexivity.
    + reflexivity.
  - unfold first. rewrite registerHandler_steps, Hc1.
    rewrite (mem_registerInsert w1 u p1 st Hs1).
    eexists. split; reflexivity.
  - unfold first. rewrite (registerHandler_steps w1), Hc1.
    rewrite (mem_registerInsert w1 u p1 st Hs1). cbn [snd].
    apply (register_duplicate cfg w2 req2 _ u
             (fst (mem_createUser
                     {| iu_username := u;
                        iu_password :=
                          hashedRecord p1 (cost (BCRYPT_ROUNDS cfg))
                            (take 16 (saltBytes w1));
                        iu_role := Some "user" |} (newId w1) (now w1) st))).
    + unfold normalizedUsername. fold body2. rewrite Hraw2, Hu2. reflexivity.
    + fold body2. rewrite Hp2, insertUserSchema_spec, Hre.
      cbn [stringMin andb]. apply Nat.leb_le. exact Hl2.
    + match goal with
      | |- getUserByUsername u ?s = _ =>
          change (getUserByUsername u s) with (Ok (mem_getUserByUsername u s))
      end.
      f_equal. unfold mem_getUserByUsername, mem_createUser.
      cbn [snd fst users].
      apply find_mapSet_new; [exact Hfree |].
      cbn [username iu_username]. apply String.eqb_refl.
Qed.

End MemUsers.

Section ReadOnly.
Import Auth Routes.
Context {S : Type} {storage : IStorage S}.
Variable cfg : Config.

(** X10.  Over any store: a login never changes the store, whatever
    the request and the answer; and the two verification handlers
    change it only together with a 200. *)
Theorem handlers_write_only_on_success :
  forall (w : World) (req : Request) (st : S),
    snd (loginHandler cfg w req st) = st
    /\ (snd (verifyWaitlistHandler w req st) = st
        \/ exists r, fst (verifyWaitlistHandler w req st) = Respond r
                     /\ status r = 200)
    /\ (snd (verifyRegistrationHandler w req st) = st
        \/ exists r, fst (verifyRegistrationHandler w req st) = Respond r
                     /\ status r = 200).
Proof.
  intros w req st. split; [| split].
  - unfold loginHandler.
    destruct (normalizedUsername _) as [u | e]; [| reflexivity].
    destruct (negb _ || negb _); [reflexivity |].
    destruct (getUserByUsername u st) as [[user |] | e]; try reflexivity.
    destruct (passwordUtils_verify _ _) as [[|] | e]; reflexivity.
  - unfold verifyWaitlistHandler.
    destruct (negb _ || negb _); [by left |].
    destruct (waitlistEntryFor _ st) as [[entry |] | e];
      cbn [mbind option_bind]; [| by left | by left].
    destruct (orNull (wl_emailVerificationToken entry)) as [stored |];
      [| by left].
    destruct (verifyTokenHashOf _ stored) as [[|] | e];
      [| by left | by left].
    destruct (match wl_emailVerificationExpires entry with
              | Some expires => _
              | None => false
              end); [by left |].
    destruct (verifyWaitlistEntryOf _ _ st) as [st' | e];
      [| by left].
    right. eexists. split; reflexivity.
  - unfold verifyRegistrationHandler.
    destruct (negb _ || negb _); [by left |].
    destruct (userFor _ st) as [[user |] | e];
      cbn [mbind option_bind]; [| by left | by left].
    destruct (orNull (emailVerificationToken user)) as [stored |];
      [| by left].
    destruct (verifyTokenHashOf _ stored) as [[|] | e];
      [| by left | by left].
    destruct (match emailVerificationExpires user with
              | Some expires => _
              | None => false
              end); [by left |].
    destruct (verifyUserOf _ _ st) as [st' | e];
      [| by left].
    right. eexists. split; reflexivity.
Qed.

End ReadOnly.

(** A registration with blanks and capitals in the username, then a
    login under the [email] key in lower case. *)
Lemma register_then_login_witness :
  let req :=
    Scenario.publicRequest "203.0.113.7"
      (Some (Auth.API_KEY Auth.defaultConfig))
      [("username", VStr " Test@Example.COM ");
       ("password", VStr "secret123")] in
  let req' :=
    Scenario.publicRequest "203.0.113.7" None
      [("email", VStr "test@example.com"); ("password", VStr "secret123")] in
  exists r st',
    Routes.registerHandler Auth.defaultConfig Scenario.world req emptyMem
    = (Respond r, st')
    /\ status r = 201
    /\ exists r',
         Routes.loginHandler Auth.defaultConfig Scenario.world req' st'
         = (Respond r', st')
         /\ status r' = 200.
Proof.
  intros req req'.
  destruct (register_then_login Auth.defaultConfig Scenario.world
              Scenario.world req req' emptyMem
              " Test@Example.COM " "test@example.com" "secret123")
    as (r & st' & Hr & Hs & Hl).
  - reflexivity.
  - reflexivity.
  - vm_compute. reflexivity.
  - vm_compute. lia.
  - vm_compute. lia.
  - reflexivity.
  - reflexivity.
  - vm_compute. reflexivity.
  - reflexivity.
  - exists r, st'. split; [exact Hr |]. split; [exact Hs |].
    eexists. split; [exact Hl | reflexivity].
Defined.

(** Two registrations of ann@example.com at the empty store, in
    flight together: both are answered 201. *)
Lemma concurrent_registrations_share_a_username_witness :
  let w2 := {|
    Routes.nowUser := 1000; Routes.nowIP := 1000; Routes.now := 1000;
    Routes.timeZone := Scenario.utc;
    Routes.newId := "n-2";
    Routes.saltBytes :=
      [16; 15; 14; 13; 12; 11; 10; 9; 8; 7; 6; 5; 4; 3; 2; 1];
    Routes.tokenBytes := []
  |} in
  let req :=
    Scenario.publicRequest "203.0.113.7" None
      [("username", VStr "ann@example.com"); ("password", VStr "secret123")] in
  let both :=
    Registration.registerBoth Auth.defaultConfig Scenario.world w2 req req
      emptyMem in
  (exists r1 r2,
     fst both = (Respond r1, Respond r2) /\ status r1 = 201 /\ status r2 = 201)
  /\ exists user1 user2,
       mem_getUser "n-1" (snd both) = Some user1
       /\ mem_getUser "n-2" (snd both) = Some user2
       /\ username user1 = "ann@example.com"
       /\ username user2 = "ann@example.com".
Proof.
  intros w2 req both.
  destruct (concurrent_registrations_share_a_username Auth.defaultConfig
              Scenario.world w2 req req emptyMem
              "ann@example.com" "ann@example.com" "secret123" "secret123")
    as (Hboth & Hstored & _).
  - reflexivity.
  - reflexivity.
  - reflexivity.
  - reflexivity.
  - reflexivity.
  - vm_compute. reflexivity.
  - vm_compute. lia.
  - vm_compute. lia.
  - vm_compute. lia.
  - vm_compute. lia.
  - reflexivity.
  - discriminate.
  - split; [exact Hboth | exact Hstored].
Defined.

(** ** The life of a waitlist entry in the database store *)

Section DbWaitlistLife.
Import Routes Verification Scenario.

(** X11.  Over the database store a waitlist token works once.  When
    the entry found under the email holds the hash of the token that
    the request carries and has not expired, the request is answered
    200 and the entry is verified at that instant; the same request
    sent again, at any time, is answered 404 "Invalid verification
    link" and leaves the entry verified as it was. *)
Theorem waitlist_token_works_once :
  forall (w1 w2 : World) (req : Request) (st : DbStorage)
         (token email : string) (entry : WaitlistEntry),
    query "token" (req_query req) = Some (QStr token) -> token <> "" ->
    query "email" (req_query req) = Some (QStr email) -> email <> "" ->
    db_getWaitlistEntryByEmail email st = Some entry ->
    wl_emailVerificationToken entry = Some (hashVerificationToken token) ->
    (forall expires,
       wl_emailVerificationExpires entry = Some expires ->
       now w1 <= expires) ->
    let st' := db_updateWaitlistVerification email true None None (now w1) st in
    verifyWaitlistHandler w1 req st
    = (json 200
         [("message",
           VStr "Email verified successfully! You've been added to the waitlist.")],
       st')
    /\ verifyWaitlistHandler w2 req st'
       = (json 404 [("message", VStr "Invalid verification link")], st')
    /\ exists entry',
         db_getWaitlistEntryByEmail email st' = Some entry'
         /\ wl_emailVerified entry' = Some (now w1)
         /\ wl_emailVerificationToken entry' = None.
Proof.
  intros w1 w2 req st token email entry Ht Htp He Hep Hf Hp Hx st'.
  destruct (db_waitlist_verified_after email (now w1) st entry Hf)
    as (entry' & Hf' & Hv & Hn & _).
  fold st' in Hf'.
  split; [| split].
  - rewrite (verifyWaitlist_pending (storage := dbStorage) w1 req st token
               email Ht Htp He Hep (Some entry)
               (f_equal Ok Hf) entry eq_refl token Hp).
    rewrite bool_decide_eq_true_2 by reflexivity.
    destruct (wl_emailVerificationExpires entry) as [expires |];
      [| reflexivity].
    specialize (Hx expires eq_refl).
    destruct (Z.gtb_spec (now w1) expires); [lia | reflexivity].
  - apply (verifyWaitlist_not_found (storage := dbStorage) w2 req st' token
             email Ht Htp He Hep (Some entry')
             (f_equal Ok Hf')).
    right. exists entry'. split; [reflexivity | exact Hn].
  - exists entry'. split; [exact Hf' |]. split; assumption.
Qed.

(** X12.  Once the stored expiry has passed, a waitlist entry of the
    database store is at a dead end: the token that was mailed is
    refused with 400 "Verification link has expired", and a new signup
    under the same email is refused with 409 "Email already
    registered"; neither request changes the store. *)
Theorem expired_waitlist_entry_is_stuck :
  forall (w1 w2 : World) (req signup : Request) (st : DbStorage)
         (token email name : string) (interests : option string)
         (entry : WaitlistEntry) (expires : Z),
    query "token" (req_query req) = Some (QStr token) -> token <> "" ->
    query "email" (req_query req) = Some (QStr email) -> email <> "" ->
    db_getWaitlistEntryByEmail email st = Some entry ->
    wl_emailVerificationToken entry = Some (hashVerificationToken token) ->
    wl_emailVerificationExpires entry = Some expires ->
    expires < now w1 ->
    insertWaitlistSchema
      (get (nullish (req_body signup) (VObj [])) "name")
      (get (nullish (req_body signup) (VObj [])) "email")
      (get (nullish (req_body signup) (VObj [])) "interests")
    = Some (name, email, interests) ->
    verifyWaitlistHandler w1 req st
    = (json 400 [("message", VStr "Verification link has expired")], st)
    /\ waitlistHandler w2 signup st
       = (json 409 [("message", VStr "Email already registered")], st).
Proof.
  intros w1 w2 req signup st token email name interests entry expires
    Ht Htp He Hep Hf Hp Hx Hlate Hs.
  split.
  - rewrite (verifyWaitlist_pending (storage := dbStorage) w1 req st token
               email Ht Htp He Hep (Some entry)
               (f_equal Ok Hf) entry eq_refl token Hp).
    rewrite bool_decide_eq_true_2 by reflexivity. rewrite Hx.
    destruct (Z.gtb_spec (now w1) expires); [reflexivity | lia].
  - unfold waitlistHandler. rewrite Hs.
    change (getWaitlistEntryByEmail email st)
      with (Ok (db_getWaitlistEntryByEmail email st)).
    rewrite Hf. reflexivity.
Qed.

End DbWaitlistLife.

(** Zoe's token, presented twice. *)
Lemma waitlist_token_works_once_witness :
  let req :=
    Scenario.queryRequest "203.0.113.7"
      [("token", "3f9a-token"); ("email", "zoe@example.com")] in
  let st' :=
    db_updateWaitlistVerification "zoe@example.com" true None None 1000
      Scenario.pendingDb in
  Routes.verifyWaitlistHandler Scenario.world req st'
  = (json 404 [("message", VStr "Invalid verification link")], st').
Proof.
  intros req st'.
  destruct (waitlist_token_works_once Scenario.world Scenario.world req
              Scenario.pendingDb "3f9a-token" "zoe@example.com" Scenario.zoe)
    as (_ & Hagain & _).
  - reflexivity.
  - discriminate.
  - reflexivity.
  - discriminate.
  - reflexivity.
  - reflexivity.
  - intros expires [= <-]. vm_compute. discriminate.
  - exact Hagain.
Defined.

(** Zoe's token after its expiry at 5000, and a second signup. *)
Lemma expired_waitlist_entry_is_stuck_witness :
  let late := {|
    Routes.nowUser := 6000; Routes.nowIP := 6000; Routes.now := 6000;
    Routes.timeZone := Scenario.utc;
    Routes.newId := "n-2"; Routes.saltBytes := [];
    Routes.tokenBytes := [1; 2; 3; 4]
  |} in
  let req :=
    Scenario.queryRequest "203.0.113.7"
      [("token", "3f9a-token"); ("email", "zoe@example.com")] in
  let signup :=
    Scenario.publicRequest "203.0.113.7" None
      [("name", VStr "Zoe"); ("email", VStr "zoe@example.com")] in
  Routes.verifyWaitlistHandler late req Scenario.pendingDb
  = (json 400 [("message", VStr "Verification link has expired")],
     Scenario.pendingDb)
  /\ Routes.waitlistHandler late signup Scenario.pendingDb
     = (json 409 [("message", VStr "Email already registered")],
        Scenario.pendingDb).
Proof.
  intros late req signup.
  apply (expired_waitlist_entry_is_stuck late late req signup
           Scenario.pendingDb "3f9a-token" "zoe@example.com" "Zoe" None
           Scenario.zoe 5000).
  - reflexivity.
  - discriminate.
  - reflexivity.
  - discriminate.
  - reflexivity.
  - reflexivity.
  - reflexivity.
  - vm_compute. reflexivity.
  - vm_compute. reflexivity.
Defined.

Section DbSignup.
Import Routes Verification Scenario.

(** X26.  Over the database store a waitlist signup stores the hash
    of the token it generates for the mail, and as expiry the instant
    that [setHours(getHours() + 24)] gives in the time zone of the
    process.  For a valid signup under an email that is not yet stored
    (with at least one random byte for the token) the answer is 201
    with the entry's id, name and email; the entry is then found under
    the email, unverified, holding the SHA-256 of the token and that
    expiry; and a verification request that carries the token and the
    email, no later than the stored expiry, is answered 200.  The
    expiry is 24 hours after the signup when the offset of the zone at
    the local expiry is its offset at the signup, and differs from
    that by the change of the offset otherwise. *)
Theorem db_signup_stores_the_hash_of_the_mailed_token :
  forall (w w' : World) (signup req : Request) (st : DbStorage)
         (name email : string) (interests : option string),
    insertWaitlistSchema
      (get (nullish (req_body signup) (VObj [])) "name")
      (get (nullish (req_body signup) (VObj [])) "email")
      (get (nullish (req_body signup) (VObj [])) "interests")
    = Some (name, email, interests) ->
    db_getWaitlistEntryByEmail email st = None ->
    email <> "" -> tokenBytes w <> [] ->
    query "token" (req_query req) = Some (QStr (hexOfBytes (tokenBytes w))) ->
    query "email" (req_query req) = Some (QStr email) ->
    now w' <= createVerificationExpiry (timeZone w) (now w) ->
    let expiry := createVerificationExpiry (timeZone w) (now w) in
    let created := {|
      wl_id := newId w;
      wl_name := name;
      wl_email := email;
      wl_interests := interests;
      wl_emailVerified := None;
      wl_emailVerificationToken :=
        Some (hashVerificationToken (hexOfBytes (tokenBytes w)));
      wl_emailVerificationExpires := Some expiry;
      wl_createdAt := now w
    |} in
    let st' := {| db_users := db_users st;
                  db_waitlist := db_waitlist st ++ [created] |} in
    let localExpiry :=
      now w + offsetAtUTC (timeZone w) (now w) + 24 * 60 * 60 * 1000 in
    waitlistHandler w signup st
    = (json 201
         [("id", VStr (newId w)); ("name", VStr name); ("email", VStr email);
          ("message",
           VStr "Please check your email to verify your address and complete your waitlist registration.")],
       st')
    /\ db_getWaitlistEntryByEmail email st' = Some created
    /\ verifyWaitlistHandler w' req st'
       = (json 200
            [("message",
              VStr "Email verified successfully! You've been added to the waitlist.")],
          db_updateWaitlistVerification email true None None (now w') st')
    /\ expiry
       = now w + 24 * 60 * 60 * 1000
         - (offsetAtLocal (timeZone w) localExpiry
            - offsetAtUTC (timeZone w) (now w)).
Proof.
  intros w w' signup req st name email interests Hs Hfree He Hbytes
    Ht Hq Hnow expiry created st' localExpiry.
  assert (Hf' : db_getWaitlistEntryByEmail email st' = Some created).
  { unfold db_getWaitlistEntryByEmail, st'. cbn [db_waitlist].
    apply find_app_not_found; [exact Hfree |].
    cbn [wl_email created]. apply String.eqb_refl. }
  assert (Htok : hexOfBytes (tokenBytes w) <> "").
  { destruct (tokenBytes w) as [| b rest]; [contradiction | discriminate]. }
  split; [| split; [exact Hf' | split]].
  - unfold waitlistHandler. rewrite Hs.
    change (getWaitlistEntryByEmail email st)
      with (Ok (db_getWaitlistEntryByEmail email st)).
    rewrite Hfree.
    match goal with
    | |- context [createWaitlistEntry ?d ?i ?n st] =>
        change (createWaitlistEntry d i n st)
          with (db_createWaitlistEntry d i n st)
    end.
    unfold db_createWaitlistEntry. cbn [iw_email].
    unfold db_getWaitlistEntryByEmail in Hfree.
    rewrite (existsb_find_none _ _ Hfree). reflexivity.
  - rewrite (verifyWaitlist_pending (storage := dbStorage) w' req st'
               (hexOfBytes (tokenBytes w)) email Ht Htok Hq He (Some created)
               (f_equal Ok Hf') created eq_refl (hexOfBytes (tokenBytes w))
               eq_refl).
    rewrite bool_decide_eq_true_2 by reflexivity.
    cbn [wl_emailVerificationExpires created].
    destruct (Z.gtb_spec (now w') expiry); [unfold expiry in *; lia |].
    reflexivity.
  - unfold expiry, createVerificationExpiry, localExpiry. lia.
Qed.

End DbSignup.

(** Zoe signs up on 8 March 2025 at 20:00 UTC at a process in New
    York, the evening before the clocks change: the stored expiry is
    23 hours later, not 24. *)
Lemma db_signup_stores_the_hash_of_the_mailed_token_witness :
  let w := {|
    Routes.nowUser := 1741464000000; Routes.nowIP := 1741464000000;
    Routes.now := 1741464000000;
    Routes.timeZone := Scenario.newYork;
    Routes.newId := "n-1"; Routes.saltBytes := [];
    Routes.tokenBytes := [222; 173; 190; 239]
  |} in
  let signup :=
    Scenario.publicRequest "203.0.113.7" None
      [("name", VStr "Zoe"); ("email", VStr "zoe@example.com")] in
  exists entry,
    db_getWaitlistEntryByEmail "zoe@example.com"
      (snd (Routes.waitlistHandler w signup emptyDb))
    = Some entry
    /\ wl_emailVerificationToken entry
       = Some (Verification.hashVerificationToken "deadbeef")
    /\ wl_emailVerificationExpires entry
       = Some (1741464000000 + 23 * 60 * 60 * 1000).
Proof.
  intros w signup.
  destruct (db_signup_stores_the_hash_of_the_mailed_token w w signup
              (Scenario.queryRequest "203.0.113.7"
                 [("token", "deadbeef"); ("email", "zoe@example.com")])
              emptyDb "Zoe" "zoe@example.com" None)
    as (Hsignup & Hfound & _).
  - vm_compute. reflexivity.
  - reflexivity.
  - discriminate.
  - discriminate.
  - reflexivity.
  - reflexivity.
  - vm_compute. discriminate.
  - rewrite Hsignup. cbn [snd]. eexists. split; [exact Hfound |].
    split; reflexivity.
Defined.

(** ** Normalising usernames *)

Section Normalise.
Import Routes.

Lemma isSpace_lowerChar (c : Ascii.ascii) : isSpace (lowerChar c) = isSpace c.
Proof. destruct c as [[] [] [] [] [] [] [] []]; reflexivity. Qed.

Lemma lowerChar_idem (c : Ascii.ascii) : lowerChar (lowerChar c) = lowerChar c.
Proof. destruct c as [[] [] [] [] [] [] [] []]; reflexivity. Qed.

Lemma toLowerCase_idem (s : string) : toLowerCase (toLowerCase s) = toLowerCase s.
Proof.
  induction s as [| c s IH]; [reflexivity |].
  cbn [toLowerCase]. rewrite lowerChar_idem, IH. reflexivity.
Qed.

Lemma trimStart_toLowerCase (s : string) :
  trimStart (toLowerCase s) = toLowerCase (trimStart s).
Proof.
  induction s as [| c s IH]; [reflexivity |].
  cbn [toLowerCase trimStart]. rewrite isSpace_lowerChar.
  destruct (isSpace c); [exact IH | reflexivity].
Qed.

Lemma trimEnd_toLowerCase (s : string) :
  trimEnd (toLowerCase s) = toLowerCase (trimEnd s).
Proof.
  induction s as [| c s IH]; [reflexivity |].
  cbn [toLowerCase trimEnd]. rewrite IH, isSpace_lowerChar.
  destruct (trimEnd s); cbn [toLowerCase]; [| reflexivity].
  destruct (isSpace c); reflexivity.
Qed.

Lemma trimEnd_idem (s : string) : trimEnd (trimEnd s) = trimEnd s.
Proof.
  induction s as [| c s IH]; [reflexivity |].
  cbn [trimEnd]. destruct (trimEnd s) as [| d t] eqn:E.
  - destruct (isSpace c) eqn:Hc; [reflexivity |].
    cbn [trimEnd]. rewrite Hc. reflexivity.
  - cbn [trimEnd]. cbn [trimEnd] in IH. rewrite IH. reflexivity.
Qed.

(** Trimming the end keeps a first character that is no blank. *)
Lemma trimEnd_head (c : Ascii.ascii) (s : string) :
  isSpace c = false -> exists t, trimEnd (String c s) = String c t.
Proof.
  intros Hc. cbn [trimEnd]. destruct (trimEnd s) as [| d t].
  - rewrite Hc. eexists. reflexivity.
  - eexists. reflexivity.
Qed.

Lemma trimStart_head (s : string) :
  trimStart s = ""
  \/ exists c t, trimStart s = String c t /\ isSpace c = false.
Proof.
  induction s as [| c s IH]; [left; reflexivity |].
  cbn [trimStart]. destruct (isSpace c) eqn:Hc; [exact IH |].
  right. exists c, s. split; [reflexivity | exact Hc].
Qed.

Lemma trim_idem (s : string) : trim (trim s) = trim s.
Proof.
  unfold trim. destruct (trimStart_head s) as [-> | (c & t & -> & Hc)];
    [reflexivity |].
  destruct (trimEnd_head c t Hc) as [t' E]. rewrite E.
  cbn [trimStart]. rewrite Hc. rewrite <- E. apply trimEnd_idem.
Qed.

Lemma trim_toLowerCase (s : string) :
  trim (toLowerCase s) = toLowerCase (trim s).
Proof.
  unfold trim. rewrite trimStart_toLowerCase. apply trimEnd_toLowerCase.
Qed.

(** X13.  The username normalisation of the register and login
    routes is idempotent and does not care under which key the name
    arrives: a name that came out of it, sent again under [username]
    or under [email], comes out unchanged.  So the username a
    registration answers with is one a login accepts as it is. *)
Theorem normalized_username_is_stable :
  forall (body : value) (u : string),
    normalizedUsername body = Ok u ->
    normalizedUsername (VObj [("username", VStr u)]) = Ok u
    /\ normalizedUsername (VObj [("email", VStr u)]) = Ok u
    /\ trim u = u
    /\ toLowerCase u = u.
Proof.
  intros body u Hu. unfold normalizedUsername in Hu.
  destruct (nullish _ _) as [| | | | s | |]; try discriminate.
  injection Hu as <-.
  assert (Ht : trim (toLowerCase (trim s)) = toLowerCase (trim s))
    by (rewrite trim_toLowerCase, trim_idem; reflexivity).
  assert (Hl : toLowerCase (toLowerCase (trim s)) = toLowerCase (trim s))
    by apply toLowerCase_idem.
  unfold normalizedUsername. cbn [get assoc String.eqb Ascii.eqb Bool.eqb nullish].
  rewrite Ht, Hl. repeat split; reflexivity.
Qed.

End Normalise.

(** A name with blanks and capitals, normalised once and again. *)
Lemma normalized_username_is_stable_witness :
  Routes.normalizedUsername (VObj [("email", VStr "ann@example.com")])
  = Ok "ann@example.com".
Proof.
  apply (normalized_username_is_stable
           (VObj [("username", VStr "  Ann@Example.COM ")])).
  reflexivity.
Defined.

(** ** The email pattern and its language *)

Section RegexSound.
Import Regex RegexLanguage.

Lemma append_nil_inv (s1 s2 : string) :
  s1 +:+ s2 = "" -> s1 = "" /\ s2 = "".
Proof.
  destruct s1; [intros E; exact (conj eq_refl E) | discriminate].
Qed.

Lemma append_cons_inv (s1 s2 s : string) (c : Ascii.ascii) :
  s1 +:+ s2 = String c s ->
  (s1 = "" /\ s2 = String c s)
  \/ exists s1', s1 = String c s1' /\ s = s1' +:+ s2.
Proof.
  destruct s1 as [| d s1']; [intros E; left; exact (conj eq_refl E) |].
  change (String d s1' +:+ s2) with (String d (s1' +:+ s2)).
  intros [= -> <-]. right. exists s1'. auto.
Qed.

Lemma matches_Void (s : string) : ~ matches Void s.
Proof. intros H. inversion H. Qed.

Lemma matches_Eps_inv (s : string) : matches Eps s -> s = "".
Proof. intros H. inversion H. reflexivity. Qed.

Lemma matches_Class_inv (p : Ascii.ascii -> bool) (s : string) :
  matches (Class p) s -> exists c, s = String c "" /\ p c = true.
Proof. intros H. inversion H; subst. eauto. Qed.

Lemma matches_Cat_inv (a b : re) (s : string) :
  matches (Cat a b) s ->
  exists s1 s2, s = s1 +:+ s2 /\ matches a s1 /\ matches b s2.
Proof. intros H. inversion H; subst. eauto. Qed.

Lemma matches_Alt_inv (a b : re) (s : string) :
  matches (Alt a b) s -> matches a s \/ matches b s.
Proof. intros H. inversion H; subst; auto. Qed.

Lemma nullable_matches (r : re) : nullable r = true <-> matches r "".
Proof.
  induction r as [| | p | a IHa b IHb | a IHa b IHb | a IHa]; cbn [nullable].
  - split; [discriminate | intros H; inversion H].
  - split; [constructor | reflexivity].
  - split; [discriminate | intros H; inversion H].
  - rewrite andb_true_iff, IHa, IHb. split.
    + intros [Ha Hb]. change "" with ("" +:+ ""). constructor; assumption.
    + intros H. apply matches_Cat_inv in H as (s1 & s2 & E & H1 & H2).
      symmetry in E. apply append_nil_inv in E as [-> ->]. auto.
  - rewrite orb_true_iff, IHa, IHb. split.
    + intros [H | H]; [apply MAltL | apply MAltR]; exact H.
    + apply matches_Alt_inv.
  - split; [constructor | reflexivity].
Qed.

Lemma matches_cat (a b : re) (s : string) :
  matches (cat a b) s <-> matches (Cat a b) s.
Proof.
  split.
  - intros H.
    destruct a; try (exfalso; exact (matches_Void _ H));
      destruct b; cbn [cat] in H;
      first [ exact H
            | exfalso; exact (matches_Void _ H)
            | change s with ("" +:+ s); apply MCat; [constructor | exact H] ].
  - intros H. apply matches_Cat_inv in H as (s1 & s2 & -> & H1 & H2).
    destruct a; try (exfalso; exact (matches_Void _ H1));
      destruct b; try (exfalso; exact (matches_Void _ H2)); cbn [cat];
      first [ apply MCat; assumption
            | apply matches_Eps_inv in H1; subst s1; exact H2 ].
Qed.

Lemma matches_alt (a b : re) (s : string) :
  matches (alt a b) s <-> matches (Alt a b) s.
Proof.
  split.
  - intros H.
    destruct a; destruct b; cbn [alt] in H;
      first [ exact H
            | apply MAltR; exact H
            | apply MAltL; exact H ].
  - intros H. apply matches_Alt_inv in H as [H | H];
      destruct a; try (exfalso; exact (matches_Void _ H));
      destruct b; try (exfalso; exact (matches_Void _ H)); cbn [alt];
      first [ exact H | apply MAltL; exact H | apply MAltR; exact H ].
Qed.

Lemma deriv_sound (c : Ascii.ascii) (r : re) :
  forall s, matches (deriv c r) s -> matches r (String c s).
Proof.
  induction r as [| | p | a IHa b IHb | a IHa b IHb | a IHa];
    intros s H; cbn [deriv] in H.
  - exfalso. exact (matches_Void _ H).
  - exfalso. exact (matches_Void _ H).
  - destruct (p c) eqn:Hp; [| exfalso; exact (matches_Void _ H)].
    apply matches_Eps_inv in H. subst s. constructor. exact Hp.
  - assert (Hleft : matches (cat (deriv c a) b) s -> matches (Cat a b) (String c s)).
    { intros H'. apply matches_cat in H'.
      apply matches_Cat_inv in H' as (s1 & s2 & -> & H1 & H2).
      change (String c (s1 +:+ s2)) with (String c s1 +:+ s2).
      constructor; [apply IHa; exact H1 | exact H2]. }
    destruct (nullable a) eqn:Hn; [| exact (Hleft H)].
    apply matches_alt in H. apply matches_Alt_inv in H as [H | H];
      [exact (Hleft H) |].
    change (String c s) with ("" +:+ String c s).
    constructor; [apply nullable_matches; exact Hn | apply IHb; exact H].
  - apply matches_alt in H. apply matches_Alt_inv in H as [H | H];
      [apply MAltL, IHa | apply MAltR, IHb]; exact H.
  - apply matches_cat in H.
    apply matches_Cat_inv in H as (s1 & s2 & -> & H1 & H2).
    change (String c (s1 +:+ s2)) with (String c s1 +:+ s2).
    constructor; [apply IHa; exact H1 | exact H2].
Qed.

Lemma deriv_complete (c : Ascii.ascii) (r : re) (s0 : string) :
  matches r s0 -> forall s, s0 = String c s -> matches (deriv c r) s.
Proof.
  induction 1 as [| p d Hp | a b s1 s2 H1 IH1 H2 IH2 | a b s1 H1 IH1
                  | a b s1 H1 IH1 | a | a s1 s2 H1 IH1 H2 IH2];
    intros s E; cbn [deriv].
  - discriminate.
  - injection E as -> <-. rewrite Hp. constructor.
  - assert (Hleft : forall s1', s1 = String c s1' -> s = s1' +:+ s2 ->
                    matches (cat (deriv c a) b) s).
    { intros s1' E1 ->. apply matches_cat. constructor;
        [apply IH1; exact E1 | exact H2]. }
    apply append_cons_inv in E as [[-> ->] | (s1' & E1 & Es)].
    + assert (Hn : nullable a = true) by (apply nullable_matches; exact H1).
      rewrite Hn. apply matches_alt. apply MAltR. apply IH2. reflexivity.
    + destruct (nullable a); [apply matches_alt, MAltL |];
        exact (Hleft s1' E1 Es).
  - apply matches_alt, MAltL, IH1. exact E.
  - apply matches_alt, MAltR, IH1. exact E.
  - discriminate.
  - apply append_cons_inv in E as [[-> ->] | (s1' & E1 & ->)].
    + apply (IH2 s eq_refl).
    + apply matches_cat. constructor; [apply IH1; exact E1 | exact H2].
Qed.

(** [Regex.test] decides the language of the pattern. *)
Lemma test_matches (s : string) :
  forall r, test r s = true <-> matches r s.
Proof.
  induction s as [| c s IH]; intros r; cbn [test].
  - apply nullable_matches.
  - rewrite IH. split; [apply deriv_sound |].
    intros H. exact (deriv_complete c r _ H s eq_refl).
Qed.

Lemma matches_star_class (p : Ascii.ascii -> bool) (s : string) :
  matches (Star (Class p)) s <-> all p s = true.
Proof.
  split.
  - intros H. remember (Star (Class p)) as r eqn:Er.
    induction H as [| | | | | a | a s1 s2 H1 _ H2 IH2]; try discriminate.
    + reflexivity.
    + injection Er as ->. apply matches_Class_inv in H1 as (c & -> & Hc).
      change (String c "" +:+ s2) with (String c s2). cbn [all].
      rewrite Hc. exact (IH2 eq_refl).
  - induction s as [| c s IH]; cbn [all]; [constructor |].
    intros H. apply andb_true_iff in H as [Hc Hs].
    change (String c s) with (String c "" +:+ s).
    constructor; [constructor; exact Hc | exact (IH Hs)].
Qed.

Lemma matches_plus_class (p : Ascii.ascii -> bool) (s : string) :
  matches (Plus (Class p)) s <-> s <> "" /\ all p s = true.
Proof.
  unfold Plus. split.
  - intros H. apply matches_Cat_inv in H as (s1 & s2 & -> & H1 & H2).
    apply matches_Class_inv in H1 as (c & -> & Hc).
    apply matches_star_class in H2.
    change (String c "" +:+ s2) with (String c s2).
    split; [discriminate |]. cbn [all]. rewrite Hc. exact H2.
  - intros [Hne H]. destruct s as [| c s]; [contradiction |].
    cbn [all] in H. apply andb_true_iff in H as [Hc Hs].
    change (String c s) with (String c "" +:+ s).
    constructor; [constructor; exact Hc | apply matches_star_class; exact Hs].
Qed.

Lemma matches_char (c : Ascii.ascii) (s : string) :
  matches (Class (Ascii.eqb c)) s <-> s = String c "".
Proof.
  split.
  - intros H. apply matches_Class_inv in H as (d & -> & Hd).
    apply Ascii.eqb_eq in Hd. subst d. reflexivity.
  - intros ->. constructor. apply Ascii.eqb_refl.
Qed.

Lemma countChar_app (c : Ascii.ascii) (s1 s2 : string) :
  countChar c (s1 +:+ s2) = (countChar c s1 + countChar c s2)%nat.
Proof.
  induction s1 as [| d s1 IH]; [reflexivity |].
  change (String d s1 +:+ s2) with (String d (s1 +:+ s2)).
  cbn [countChar]. rewrite IH. lia.
Qed.

Lemma all_app (p : Ascii.ascii -> bool) (s1 s2 : string) :
  all p (s1 +:+ s2) = all p s1 && all p s2.
Proof.
  induction s1 as [| d s1 IH]; [reflexivity |].
  change (String d s1 +:+ s2) with (String d (s1 +:+ s2)).
  cbn [all]. rewrite IH. apply andb_assoc.
Qed.

Lemma clean_no_at (s : string) :
  all notSpaceNorAt s = true ->
  countChar "@" s = 0%nat /\ all (fun c => negb (isSpace c)) s = true.
Proof.
  induction s as [| c s IH]; [auto |]. cbn [all countChar].
  intros H. apply andb_true_iff in H as [Hc Hs].
  destruct (IH Hs) as [-> ->]. unfold notSpaceNorAt in Hc.
  apply negb_true_iff, orb_false_iff in Hc as [Hsp Hat].
  rewrite Hsp, Hat. auto.
Qed.

(** X14.  The email pattern of shared/schema.ts accepts exactly the
    strings of the form local@domain.tld whose three parts are not
    empty and hold neither white space nor "@" (the domain may itself
    hold dots); so an accepted string has exactly one "@" and no white
    space anywhere. *)
Theorem emailRegex_shape :
  forall (s : string),
    (test emailRegex s = true
     <-> exists l d t,
           s = l +:+ "@" +:+ d +:+ "." +:+ t
           /\ l <> "" /\ d <> "" /\ t <> ""
           /\ all notSpaceNorAt l = true
           /\ all notSpaceNorAt d = true
           /\ all notSpaceNorAt t = true)
    /\ (test emailRegex s = true ->
        countChar "@" s = 1%nat
        /\ all (fun c => negb (isSpace c)) s = true).
Proof.
  intros s.
  assert (Hshape :
    test emailRegex s = true
    <-> exists l d t,
          s = l +:+ "@" +:+ d +:+ "." +:+ t
          /\ l <> "" /\ d <> "" /\ t <> ""
          /\ all notSpaceNorAt l = true
          /\ all notSpaceNorAt d = true
          /\ all notSpaceNorAt t = true).
  { rewrite test_matches. unfold emailRegex. split.
    - intros H.
      apply matches_Cat_inv in H as (l & r1 & -> & Hl & H).
      apply matches_Cat_inv in H as (a & r2 & -> & Ha & H).
      apply matches_Cat_inv in H as (d & r3 & -> & Hd & H).
      apply matches_Cat_inv in H as (o & t & -> & Ho & Ht).
      apply matches_plus_class in Hl as [Hl1 Hl2].
      apply matches_plus_class in Hd as [Hd1 Hd2].
      apply matches_plus_class in Ht as [Ht1 Ht2].
      apply matches_char in Ha. apply matches_char in Ho. subst a o.
      exists l, d, t. auto 10.
    - intros (l & d & t & -> & Hl & Hd & Ht & Hl2 & Hd2 & Ht2).
      constructor; [apply matches_plus_class; auto |].
      constructor; [apply matches_char; reflexivity |].
      constructor; [apply matches_plus_class; auto |].
      constructor; [apply matches_char; reflexivity |].
      apply matches_plus_class; auto. }
  split; [exact Hshape |].
  intros H. apply Hshape in H
    as (l & d & t & -> & _ & _ & _ & Hl & Hd & Ht).
  apply clean_no_at in Hl as [Hl1 Hl2].
  apply clean_no_at in Hd as [Hd1 Hd2].
  apply clean_no_at in Ht as [Ht1 Ht2].
  rewrite !countChar_app, !all_app, Hl1, Hd1, Ht1, Hl2, Hd2, Ht2.
  split; reflexivity.
Qed.

End RegexSound.

(** ** Authentication and authorization *)

Section BearerToken.

Lemma prefix_skipChars (p h : string) :
  String.prefix p h = true -> h = p +:+ skipChars (String.length p) h.
Proof.
  revert h. induction p as [| a p IH]; intros h; [reflexivity |].
  destruct h as [| b h]; cbn [String.prefix]; [discriminate |].
  destruct (Ascii.ascii_dec a b) as [<- | _]; [| discriminate].
  intros H. cbn [String.length skipChars].
  change (String a p +:+ skipChars (String.length p) h)
    with (String a (p +:+ skipChars (String.length p) h)).
  f_equal. exact (IH h H).
Qed.

Lemma prefix_append (p t : string) :
  String.prefix p (p +:+ t) = true
  /\ skipChars (String.length p) (p +:+ t) = t.
Proof.
  induction p as [| a p [IH1 IH2]]; [destruct t; auto |].
  change (String a p +:+ t) with (String a (p +:+ t)).
  cbn [String.prefix String.length skipChars].
  destruct (Ascii.ascii_dec a a); [auto | contradiction].
Qed.

(** The token of a request: what follows "Bearer " in the
    Authorization header. *)
Lemma bearerToken_spec (authHeader : option string) (token : string) :
  bearerToken authHeader = Some token
  <-> authHeader = Some ("Bearer " +:+ token).
Proof.
  unfold bearerToken. split.
  - destruct authHeader as [h |]; [| discriminate].
    destruct (negb (String.eqb h "") && String.prefix "Bearer " h) eqn:E;
      [| discriminate].
    apply andb_true_iff in E as [_ E]. intros [= <-].
    f_equal. exact (prefix_skipChars "Bearer " h E).
  - intros ->. destruct (prefix_append "Bearer " token) as [Hp Hs].
    rewrite Hp. cbn [String.length] in Hs. rewrite Hs. reflexivity.
Qed.

End BearerToken.

Section Authenticate.
Import Auth.
Variable cfg : Config.
Variable jwtVerify : string -> string -> Exn value.

(** A request that [authenticate] lets pass carried a bearer token
    that [jwt.verify] accepts, and [req.user] is read off its payload. *)
Lemma authenticate_next_inv (req : Request) :
  fst (authenticate cfg jwtVerify req) = Next ->
  exists token decoded,
    req_authorization req = Some ("Bearer " +:+ token)
    /\ jwtVerify token (JWT_SECRET cfg) = Ok decoded
    /\ snd (authenticate cfg jwtVerify req)
       = Some {| au_id := get decoded "id";
                 au_username := get decoded "username";
                 au_role := get decoded "role" |}.
Proof.
  unfold authenticate, jwtUtils_verifyToken.
  destruct (bearerToken (req_authorization req)) as [token |] eqn:Hb;
    [| discriminate].
  apply bearerToken_spec in Hb. cbn [present str_or].
  destruct (String.eqb_spec token "") as [-> | Hne]; cbn [negb];
    [discriminate |].
  destruct (jwtVerify token (JWT_SECRET cfg)) as [decoded | e] eqn:Hv;
    cbn [bind]; [| discriminate].
  destruct (userOf decoded) as [user | e] eqn:Hu; [| discriminate].
  intros _. exists token, decoded.
  unfold userOf in Hu.
  destruct decoded; try discriminate; injection Hu as <-;
    repeat split; (assumption || reflexivity).
Qed.

(** X15.  [authenticate] lets a request pass exactly when its
    Authorization header is "Bearer " followed by a token that is not
    empty and that [jwt.verify] accepts under the configured secret
    with a payload other than null; [req.user] then holds the [id],
    [username] and [role] of that payload and nothing else.  Every
    other request is answered 401 and leaves [req.user] unset. *)
Theorem authenticate_passes_verified_bearer_tokens_only :
  forall (req : Request),
    (fst (authenticate cfg jwtVerify req) = Next
     <-> exists token decoded,
           req_authorization req = Some ("Bearer " +:+ token)
           /\ token <> ""
           /\ jwtVerify token (JWT_SECRET cfg) = Ok decoded
           /\ decoded <> VUndefined /\ decoded <> VNull
           /\ snd (authenticate cfg jwtVerify req)
              = Some {| au_id := get decoded "id";
                        au_username := get decoded "username";
                        au_role := get decoded "role" |})
    /\ (fst (authenticate cfg jwtVerify req) = Next
        \/ exists r, authenticate cfg jwtVerify req = (Respond r, None)
                     /\ status r = 401).
Proof.
  intros req. unfold authenticate, jwtUtils_verifyToken.
  destruct (bearerToken (req_authorization req)) as [token |] eqn:Hb.
  - apply bearerToken_spec in Hb. cbn [present str_or].
    destruct (String.eqb_spec token "") as [-> | Hne]; cbn [negb].
    + split; [| right; eexists; split; reflexivity].
      split; [discriminate |].
      intros (t & d & Ht & Hne & _). rewrite Hb in Ht.
      injection Ht as Ht. apply string_app_inv_head in Ht. congruence.
    + destruct (jwtVerify token (JWT_SECRET cfg)) as [decoded | e] eqn:Hv;
        cbn [bind].
      * destruct (userOf decoded) as [user | e] eqn:Hu.
        -- split; [| left; reflexivity].
           split; [| reflexivity]. intros _. exists token, decoded.
           unfold userOf in Hu.
           destruct decoded; try discriminate; injection Hu as <-;
             repeat split; (discriminate || assumption || reflexivity).
        -- split; [| right; eexists; split; reflexivity].
           split; [discriminate |].
           intros (t & d & Ht & _ & Hd & Hu1 & Hu2 & _).
           rewrite Hb in Ht. injection Ht as Ht.
           apply string_app_inv_head in Ht. subst t.
           rewrite Hv in Hd. injection Hd as <-.
           unfold userOf in Hu. destruct decoded; congruence.
      * split; [| right; eexists; split; reflexivity].
        split; [discriminate |].
        intros (t & d & Ht & _ & Hd & _).
        rewrite Hb in Ht. injection Ht as Ht.
        apply string_app_inv_head in Ht. subst t. congruence.
  - cbn [present negb].
    split; [| right; eexists; split; reflexivity].
    split; [discriminate |].
    intros (t & d & Ht & _). apply bearerToken_spec in Ht. congruence.
Qed.

(** X16.  [optionalAuthenticate] never answers and never fails: it
    always hands over to the next middleware, and it sets [req.user]
    for exactly the requests that [authenticate] lets pass, to the
    same value. *)
Theorem optionalAuthenticate_never_blocks :
  forall (req : Request),
    fst (optionalAuthenticate cfg jwtVerify req) = Next
    /\ snd (optionalAuthenticate cfg jwtVerify req)
       = snd (authenticate cfg jwtVerify req).
Proof.
  intros req. unfold optionalAuthenticate, authenticate.
  destruct (present (bearerToken (req_authorization req))); cbn [negb];
    [| split; reflexivity].
  destruct (bind _ _); split; reflexivity.
Qed.

End Authenticate.

(** ** The authenticated routes *)

Section AdminGate.
Import Auth Routes Account.
Context {S : Type} {storage : IStorage S} {admin : IUserAdmin S}.
Variable cfg : Config.
Variable jwtVerify : string -> string -> Exn value.

Lemma putUserRoleHandler_frame (w : World) (userId : string) (req : Request)
    (st : S) :
  snd (putUserRoleHandler w userId req st) = st
  \/ exists role,
       get (req_body req) "role" = VStr role
       /\ includes ["user"; "admin"; "moderator"] role = true
       /\ fst (putUserRoleHandler w userId req st)
          = json 200 [("message", VStr "User role updated successfully")].
Proof.
  unfold putUserRoleHandler.
  destruct (req_body req) as [| | b | n | s | t | fields] eqn:Hb;
    try (left; reflexivity).
  destruct (get (VObj fields) "role") as [| | b | n | role | t | o]
    eqn:Hr; try (left; reflexivity).
  destruct (includes _ role) eqn:Hi; cbn [negb]; [| left; reflexivity].
  destruct (updateUser _ _ _ st) as [st' | e]; [| left; reflexivity].
  right. exists role. auto.
Qed.

Lemma authorize_admin (reqUser : option AuthUser) :
  authorize ["admin"] reqUser = Next ->
  exists u, reqUser = Some u /\ au_role u = VStr "admin".
Proof.
  unfold authorize. destruct reqUser as [u |]; [| discriminate].
  intros H. exists u. split; [reflexivity |].
  destruct (au_role u) as [| | b | n | s | t | o]; cbn [truthy] in H;
    try discriminate H; try (destruct b; discriminate H);
    try (destruct (n =? 0); discriminate H).
  destruct (String.eqb_spec s ""); cbn [negb includesValue includes existsb] in H;
    [discriminate H |].
  rewrite orb_false_r in H.
  destruct (String.eqb_spec s "admin"); [congruence | discriminate H].
Qed.

(** X17.  Only a verified admin token changes a role: after a request
    to PUT /api/admin/users/:userId/role either the store is what it
    was, or the Authorization header carried "Bearer " and a token
    that [jwt.verify] accepts, whose payload has the role "admin",
    the body named one of the roles "user", "admin" and "moderator",
    and the answer is 200.  The IP limiter's map is never touched. *)
Theorem only_admin_tokens_change_roles :
  forall (w : World) (userId : string) (req : Request) (app : App S),
    let out := putUserRole cfg jwtVerify w userId req app in
    ipRequestCounts (snd out) = ipRequestCounts app
    /\ (store (snd out) = store app
        \/ exists token decoded role,
             req_authorization req = Some ("Bearer " +:+ token)
             /\ jwtVerify token (JWT_SECRET cfg) = Ok decoded
             /\ get decoded "role" = VStr "admin"
             /\ get (req_body req) "role" = VStr role
             /\ includes ["user"; "admin"; "moderator"] role = true
             /\ fst out
                = json 200
                    [("message", VStr "User role updated successfully")]).
Proof.
  intros w userId req app out. subst out.
  unfold putUserRole, behindAuth.
  destruct (apiPrefix_frame w req app) as [Hic Hst].
  destruct (apiPrefix w req app) as [o1 app1]. cbn [fst snd] in Hic, Hst.
  destruct o1;
    rewrite ?andThen_next, ?andThen_respond, ?andThen_fail;
    cbn [snd]; [| split; [exact Hic | left; exact Hst] ..].
  pose proof (authenticate_next_inv cfg jwtVerify req) as Hauth.
  destruct (authenticate cfg jwtVerify req) as [o2 reqUser].
  cbn [fst snd] in Hauth.
  destruct o2; cbn [snd]; [| split; [exact Hic | left; exact Hst] ..].
  destruct (Hauth eq_refl) as (token & decoded & Hh & Hv & Hu).
  cbn [from_option].
  destruct (authorize ["admin"] reqUser) eqn:Hz; cbn [snd];
    [| split; [exact Hic | left; exact Hst] ..].
  apply authorize_admin in Hz as (u & Hu' & Hrole).
  rewrite Hu' in Hu. injection Hu as ->. cbn [au_role] in Hrole.
  unfold onStore.
  destruct (putUserRoleHandler_frame w userId req (store app1))
    as [Hsame | (role & Hr & Hi & Hok)];
    destruct (putUserRoleHandler w userId req (store app1)) as [o s];
    cbn [fst snd ipRequestCounts store] in *.
  - split; [exact Hic | left; congruence].
  - split; [exact Hic |]. right. exists token, decoded, role. auto 10.
Qed.

End AdminGate.

Section MemAdmin.
Import Auth Routes Account BcryptRecord.

Lemma mapGet_in {V : Type} (k : string) (v : V) (m : list (string * V)) :
  mapGet k m = Some v -> (k, v) ∈ m.
Proof.
  induction m as [| [k' v'] m IH]; cbn [mapGet]; [discriminate |].
  destruct (String.eqb_spec k k') as [<- | _].
  - intros [= <-]. apply list_elem_of_here.
  - intros H. apply list_elem_of_further. exact (IH H).
Qed.

Lemma mapGet_key {V : Type} (k : string) (v : V) (m : list (string * V)) :
  mapGet k m = Some v -> k ∈ map fst m.
Proof.
  induction m as [| [k' v'] m IH]; cbn [mapGet map fst]; [discriminate |].
  destruct (String.eqb_spec k k') as [<- | _].
  - intros _. apply list_elem_of_here.
  - intros H. apply list_elem_of_further. exact (IH H).
Qed.

Lemma mapSet_keys {V : Type} (k : string) (v v0 : V) (m : list (string * V)) :
  mapGet k m = Some v0 -> map fst (mapSet k v m) = map fst m.
Proof.
  induction m as [| [k' v'] m IH]; cbn [mapGet mapSet]; [discriminate |].
  destruct (String.eqb_spec k k') as [<- | _]; [reflexivity |].
  intros H. cbn [map fst]. rewrite (IH H). reflexivity.
Qed.

Lemma mapSet_keys_new {V : Type} (k : string) (v : V) (m : list (string * V)) :
  mapGet k m = None -> map fst (mapSet k v m) = map fst m ++ [k].
Proof.
  induction m as [| [k' v'] m IH]; cbn [mapGet mapSet]; [reflexivity |].
  destruct (String.eqb_spec k k') as [<- | _]; [discriminate |].
  intros H. cbn [map fst app]. rewrite (IH H). reflexivity.
Qed.

Lemma mapGet_none_keys {V : Type} (k : string) (m : list (string * V)) :
  mapGet k m = None -> k ∉ map fst m.
Proof.
  induction m as [| [k' v'] m IH]; cbn [mapGet map fst];
    [intros _; apply not_elem_of_nil |].
  destruct (String.eqb_spec k k'); [discriminate |].
  intros H. apply not_elem_of_cons. split; [assumption | exact (IH H)].
Qed.

Lemma mapSet_Forall {V : Type} (P : string * V -> Prop) (k : string) (v : V)
    (m : list (string * V)) :
  Forall P m -> P (k, v) -> Forall P (mapSet k v m).
Proof.
  intros Hm Hv. induction Hm as [| [k' v'] m Hx Hm IH]; cbn [mapSet].
  - repeat constructor. exact Hv.
  - destruct (String.eqb k k'); constructor; assumption.
Qed.

(** In a store whose users sit under their own ids, the user found
    by name is the one found under its id. *)
Lemma keyed_find_mapGet (p : User -> bool) (m : list (string * User))
    (user : User) :
  Forall (fun kv => fst kv = id (snd kv)) m -> NoDup (map fst m) ->
  find p (mapValues m) = Some user ->
  mapGet (id user) m = Some user.
Proof.
  intros Hk Hnd. induction Hk as [| [k v] m Hkv Hk IH];
    cbn [mapValues map snd find mapGet]; [discriminate |].
  cbn [fst snd] in Hkv. subst k. cbn [map fst] in Hnd.
  apply NoDup_cons in Hnd as [Hni Hnd].
  destruct (p v).
  - intros [= <-]. rewrite String.eqb_refl. reflexivity.
  - intros Hf. specialize (IH Hnd Hf).
    destruct (String.eqb_spec (id user) (id v)) as [E | _]; [| exact IH].
    exfalso. apply Hni. rewrite <- E. exact (mapGet_key _ _ _ IH).
Qed.

Lemma keyed_find_mapSet (p : User -> bool) (m : list (string * User))
    (user user' : User) :
  Forall (fun kv => fst kv = id (snd kv)) m -> NoDup (map fst m) ->
  find p (mapValues m) = Some user -> p user' = true ->
  find p (mapValues (mapSet (id user) user' m)) = Some user'.
Proof.
  intros Hk Hnd. induction Hk as [| [k v] m Hkv Hk IH];
    cbn [mapValues map snd find mapSet]; [discriminate |].
  cbn [fst snd] in Hkv. subst k. cbn [map fst] in Hnd.
  apply NoDup_cons in Hnd as [Hni Hnd].
  destruct (p v) eqn:Hv.
  - intros [= <-] Hp. rewrite String.eqb_refl.
    cbn [mapValues map snd find]. rewrite Hp. reflexivity.
  - intros Hf Hp.
    destruct (String.eqb_spec (id user) (id v)) as [E | _].
    + exfalso. apply Hni. rewrite <- E.
      exact (mapGet_key _ _ _ (keyed_find_mapGet p m user Hk Hnd Hf)).
    + cbn [mapValues map snd find]. rewrite Hv. exact (IH Hnd Hf Hp).
Qed.

(** X18.  The in-memory store keeps every user under its own id:
    [createUser] and [updateUser] preserve that each entry of the
    users map sits under the id of its user and that no key occurs
    twice; and then the user found by name is the user found under
    its id. *)
Theorem mem_store_keeps_users_under_their_ids :
  forall (st : MemStorage),
    keyedById st ->
    (forall ins newId now,
       keyedById (snd (mem_createUser ins newId now st)))
    /\ (forall userId updates now,
          keyedById (mem_updateUser userId updates now st))
    /\ (forall name user,
          mem_getUserByUsername name st = Some user ->
          mem_getUser (id user) st = Some user).
Proof.
  intros st [Hk Hnd]. split; [| split].
  - intros ins newId now. unfold keyedById, mem_createUser.
    cbn [snd users]. split.
    + apply mapSet_Forall; [exact Hk | reflexivity].
    + destruct (mapGet newId (users st)) as [v0 |] eqn:Hg.
      * rewrite (mapSet_keys _ _ v0 _ Hg). exact Hnd.
      * rewrite (mapSet_keys_new _ _ _ Hg).
        apply NoDup_app. split; [exact Hnd |]. split.
        -- intros k Hin Hk'. apply list_elem_of_singleton in Hk'. subst k.
           exact (mapGet_none_keys _ _ Hg Hin).
        -- apply NoDup_singleton.
  - intros userId updates now. unfold keyedById, mem_updateUser.
    destruct (mapGet userId (users st)) as [user |] eqn:Hg;
      [| split; assumption].
    cbn [users]. split.
    + apply mapSet_Forall; [exact Hk |]. cbn [fst snd assignUser id].
      apply mapGet_in in Hg.
      rewrite Forall_forall in Hk. exact (Hk _ Hg).
    + rewrite (mapSet_keys _ _ user _ Hg). exact Hnd.
  - intros name user Hf. unfold mem_getUser.
    exact (keyed_find_mapGet _ _ _ Hk Hnd Hf).
Qed.

(** X19.  Changing a role over the in-memory store touches one user
    and nothing else: for a body that names one of the three roles the
    handler answers 200 in every case; when no user has the id the
    store is left as it is, and otherwise the user under that id gets
    the role and the clock reading as [updatedAt], keeps its name,
    password record and id, and every other user and the waitlist are
    as they were. *)
Theorem role_update_touches_one_user :
  forall (w : World) (userId role : string) (req : Request)
         (st : MemStorage),
    get (req_body req) "role" = VStr role ->
    includes ["user"; "admin"; "moderator"] role = true ->
    let st' :=
      mem_updateUser userId {| up_password := None; up_role := Some role |}
        (now w) st in
    putUserRoleHandler w userId req st
    = (json 200 [("message", VStr "User role updated successfully")], st')
    /\ (mem_getUser userId st = None -> st' = st)
    /\ (forall user,
          mem_getUser userId st = Some user ->
          mem_getUser userId st'
          = Some {| id := id user;
                    username := username user;
                    password := password user;
                    role := role;
                    emailVerified := emailVerified user;
                    emailVerificationToken := emailVerificationToken user;
                    emailVerificationExpires := emailVerificationExpires user;
                    createdAt := createdAt user;
                    updatedAt := now w |})
    /\ (forall other,
          other <> userId -> mem_getUser other st' = mem_getUser other st)
    /\ waitlistEntries st' = waitlistEntries st.
Proof.
  intros w userId role req st Hr Hi st'. split; [| split; [| split; [| split]]].
  - unfold putUserRoleHandler.
    destruct (req_body req) as [| | b | n | s | t | fields];
      try discriminate Hr.
    rewrite Hr, Hi. reflexivity.
  - unfold st', mem_updateUser, mem_getUser. intros ->. reflexivity.
  - unfold st', mem_updateUser, mem_getUser. intros user Hg. rewrite Hg.
    cbn [users]. apply mapGet_mapSet_eq.
  - unfold st', mem_updateUser, mem_getUser. intros other Hne.
    destruct (mapGet userId (users st)); [| reflexivity].
    cbn [users]. apply mapGet_mapSet_ne. exact Hne.
  - unfold st', mem_updateUser.
    destruct (mapGet userId (users st)); reflexivity.
Qed.

Variable cfg : Config.

(** X20.  Changing the password and logging in fit together over the
    in-memory store.  For an authenticated user whose name is stored,
    a PUT /api/me whose [currentPassword] verifies against the stored
    record and whose [newPassword] is any string that is not empty, of
    whatever length, is answered 200; the stored record is then
    bcrypt's record of the new password, under the same id, name and
    role, and a login with that name and the new password is
    answered 200. *)
Theorem password_change_then_login :
  forall (w w' : World) (u : AuthUser) (req req' : Request)
         (st : MemStorage) (name cur new : string) (user : User),
    keyedById st ->
    au_username u = VStr name -> name <> "" ->
    mem_getUserByUsername name st = Some user ->
    get (req_body req) "currentPassword" = VStr cur -> cur <> "" ->
    get (req_body req) "newPassword" = VStr new -> new <> "" ->
    passwordUtils_verify (VStr cur) (password user) = Ok true ->
    (16 <= length (saltBytes w))%nat ->
    normalizedUsername (nullish (req_body req') (VObj [])) = Ok name ->
    get (nullish (req_body req') (VObj [])) "password" = VStr new ->
    let record :=
      hashedRecord new (cost (BCRYPT_ROUNDS cfg)) (take 16 (saltBytes w)) in
    let st' :=
      mem_updateUser (id user)
        {| up_password := Some record; up_role := None |} (now w) st in
    putMeHandler cfg w (Some u) req st
    = (json 200 [("message", VStr "Profile updated successfully")], st')
    /\ mem_getUserByUsername name st'
       = Some {| id := id user;
                 username := username user;
                 password := record;
                 role := role user;
                 emailVerified := emailVerified user;
                 emailVerificationToken := emailVerificationToken user;
                 emailVerificationExpires := emailVerificationExpires user;
                 createdAt := createdAt user;
                 updatedAt := now w |}
    /\ exists r,
         loginHandler cfg w' req' st' = (Respond r, st') /\ status r = 200.
Proof.
  intros w w' u req req' st name cur new user [Hk Hnd] Hu Hname Hf
    Hcur Hcne Hnew Hnne Hver Hsalt Hlogin Hpw record st'.
  assert (Hg : mapGet (id user) (users st) = Some user)
    by exact (keyed_find_mapGet _ _ _ Hk Hnd Hf).
  assert (Hp : String.eqb (username user) name = true).
  { unfold mem_getUserByUsername in Hf. apply find_some in Hf as [_ Hp].
    exact Hp. }
  assert (Hf' : mem_getUserByUsername name st'
                = Some (assignUser user
                          {| up_password := Some record; up_role := None |}
                          (now w))).
  { unfold st', mem_updateUser. rewrite Hg.
    unfold mem_getUserByUsername. cbn [users].
    apply keyed_find_mapSet; try assumption. }
  split; [| split].
  - unfold putMeHandler.
    destruct (req_body req) as [| | b | n | s | t | fields];
      try discriminate Hcur.
    rewrite Hcur, Hnew. cbn [truthy].
    destruct (String.eqb_spec new ""); [contradiction |].
    destruct (String.eqb_spec cur ""); [contradiction |].
    cbn [negb andb]. unfold currentUser. rewrite Hu.
    change (getUserByUsername name st)
      with (Ok (mem_getUserByUsername name st)).
    rewrite Hf, Hver.
    unfold passwordUtils_hash. rewrite (hash_ok new _ _ Hsalt).
    reflexivity.
  - exact Hf'.
  - unfold loginHandler. rewrite Hlogin, Hpw. cbn [truthy].
    destruct (String.eqb_spec name ""); [contradiction |].
    destruct (String.eqb_spec new ""); [contradiction |].
    cbn [negb orb].
    change (getUserByUsername name st')
      with (Ok (mem_getUserByUsername name st')).
    rewrite Hf'. cbn [assignUser password up_password from_option Datatypes.id].
    unfold passwordUtils_verify, record.
    rewrite compare_hashedRecord
      by (apply cost_range || (rewrite length_take; lia)).
    rewrite bool_decide_eq_true_2 by reflexivity.
    eexists. split; reflexivity.
Qed.

End MemAdmin.

(** The first user created in the empty store sits under its id. *)
Lemma mem_store_keeps_users_under_their_ids_witness :
  keyedById
    (snd (mem_createUser
            {| iu_username := "kim@example.com";
               iu_password := "5f4dcc3b5aa765d61d8327deb882cf99";
               iu_role := None |}
            "k-1" 0 emptyMem)).
Proof.
  apply (mem_store_keeps_users_under_their_ids emptyMem).
  split; [apply Forall_nil_2 | apply NoDup_nil_2].
Defined.

(** Bob is made a moderator; Ann is left alone. *)
Lemma role_update_touches_one_user_witness :
  let req :=
    Scenario.publicRequest "203.0.113.7" None [("role", VStr "moderator")] in
  exists st',
    Account.putUserRoleHandler Scenario.world "91aa" req Scenario.threeUsers
    = (json 200 [("message", VStr "User role updated successfully")], st')
    /\ role <$> mem_getUser "91aa" st' = Some "moderator"
    /\ mem_getUser "7f3c" st' = Some Scenario.ann.
Proof.
  intros req.
  destruct (role_update_touches_one_user Scenario.world "91aa" "moderator"
              req Scenario.threeUsers eq_refl eq_refl)
    as (Hok & _ & Hset & Hother & _).
  eexists. split; [exact Hok |]. split.
  - rewrite (Hset Scenario.bob eq_refl). reflexivity.
  - rewrite (Hother "7f3c" ltac:(discriminate)). reflexivity.
Defined.

(** Kim changes a password of ten characters for one of a single
    character, and logs in with it. *)
Lemma password_change_then_login_witness :
  let old :=
    BcryptRecord.hashedRecord "old-secret"
      (BcryptRecord.cost (Auth.BCRYPT_ROUNDS Auth.defaultConfig))
      [1; 2; 3; 4; 5; 6; 7; 8; 9; 10; 11; 12; 13; 14; 15; 16] in
  let kim := {|
    id := "k-1"; username := "kim@example.com"; password := old;
    role := "user"; emailVerified := None; emailVerificationToken := None;
    emailVerificationExpires := None; createdAt := 0; updatedAt := 0
  |} in
  let st := {| users := [("k-1", kim)]; waitlistEntries := [] |} in
  let u := {| au_id := VStr "k-1"; au_username := VStr "kim@example.com";
              au_role := VStr "user" |} in
  let req :=
    Scenario.publicRequest "203.0.113.7" None
      [("currentPassword", VStr "old-secret"); ("newPassword", VStr "x")] in
  let req' :=
    Scenario.publicRequest "203.0.113.7" None
      [("username", VStr "kim@example.com"); ("password", VStr "x")] in
  exists st',
    Account.putMeHandler Auth.defaultConfig Scenario.world (Some u) req st
    = (json 200 [("message", VStr "Profile updated successfully")], st')
    /\ exists r,
         Routes.loginHandler Auth.defaultConfig Scenario.world req' st'
         = (Respond r, st')
         /\ status r = 200.
Proof.
  intros old kim st u req req'.
  destruct (password_change_then_login Auth.defaultConfig Scenario.world
              Scenario.world u req req' st "kim@example.com" "old-secret" "x"
              kim)
    as (Hput & _ & Hlogin).
  - split; [repeat constructor | apply NoDup_singleton].
  - reflexivity.
  - discriminate.
  - reflexivity.
  - reflexivity.
  - discriminate.
  - reflexivity.
  - discriminate.
  - unfold Auth.passwordUtils_verify. cbn [password kim]. unfold old.
    rewrite compare_hashedRecord by (apply cost_range || reflexivity).
    rewrite bool_decide_eq_true_2 by reflexivity. reflexivity.
  - vm_compute. lia.
  - reflexivity.
  - reflexivity.
  - eexists. split; [exact Hput | exact Hlogin].
Defined.

(** ** What passwordUtils writes *)

Section RecordFormat.
Import Auth Bcrypt BcryptRecord.
Variable cfg : Config.

(** X21.  With 16 random bytes for the salt, [passwordUtils.hash]
    succeeds on every string, of any length, and gives a record of
    exactly 60 characters whose first 29 are "$2a$", the cost in two
    digits, "$" and the salt in bcrypt's base64; the cost is
    BCRYPT_ROUNDS brought into the range 4..31 (10 when it is 0).
    Handed something other than a string, [hash] and [verify] throw
    "Illegal arguments". *)
Theorem passwordUtils_hash_format :
  forall (p : string) (random : list Z),
    (16 <= length random)%nat ->
    exists h,
      passwordUtils_hash cfg (VStr p) random = Ok h
      /\ String.length h = 60%nat
      /\ String.substring 0 29 h
         = "$2a$" +:+ roundsText (Some (cost (BCRYPT_ROUNDS cfg))) +:+ "$"
           +:+ base64_encode_loop (take 16 random)
      /\ String.length (roundsText (Some (cost (BCRYPT_ROUNDS cfg)))) = 2%nat
      /\ 4 <= cost (BCRYPT_ROUNDS cfg) <= 31
      /\ (4 <= BCRYPT_ROUNDS cfg <= 31 ->
          cost (BCRYPT_ROUNDS cfg) = BCRYPT_ROUNDS cfg)
      /\ (forall n stored,
            passwordUtils_hash cfg (VNum n) random
            = Throw (Error "Illegal arguments: number, number")
            /\ passwordUtils_verify (VNum n) stored
               = Throw (Error "Illegal arguments: number, string")).
Proof.
  intros p random Hlen.
  pose proof (cost_range (BCRYPT_ROUNDS cfg)) as Hr.
  assert (Hb : length (take 16 random) = 16%nat) by (rewrite length_take; lia).
  exists (hashedRecord p (cost (BCRYPT_ROUNDS cfg)) (take 16 random)).
  split; [apply hash_ok; exact Hlen |].
  split; [apply hashedRecord_length; assumption |].
  split; [apply hashedRecord_salt; assumption |].
  split; [apply roundsText_length; exact Hr |].
  split; [exact Hr |].
  split; [apply cost_id |].
  intros n stored. split; reflexivity.
Qed.

End RecordFormat.

(** The record written at the default cost of 12. *)
Lemma passwordUtils_hash_format_witness :
  exists h,
    Auth.passwordUtils_hash Auth.defaultConfig (VStr "secret123")
      [1; 2; 3; 4; 5; 6; 7; 8; 9; 10; 11; 12; 13; 14; 15; 16] = Ok h
    /\ String.length h = 60%nat.
Proof.
  destruct (passwordUtils_hash_format Auth.defaultConfig "secret123"
              [1; 2; 3; 4; 5; 6; 7; 8; 9; 10; 11; 12; 13; 14; 15; 16])
    as (h & Hh & Hl & _).
  - vm_compute. lia.
  - exists h. split; assumption.
Defined.

(** ** No success without the secret *)

Section Soundness.
Import Auth Routes Verification.
Context {S : Type} {storage : IStorage S}.
Variable cfg : Config.

(** X22.  Over any store, a login is answered 200 only when the
    store holds a user under the normalised username and
    [passwordUtils.verify] accepted the password of the request
    against that user's record; the answer then names that user's id
    and username, and the access token carries that id. *)
Theorem login_succeeds_only_with_a_verified_password :
  forall (w : World) (req : Request) (st : S) (r : Response),
    fst (loginHandler cfg w req st) = Respond r ->
    status r = 200 ->
    let reqBody := nullish (req_body req) (VObj []) in
    exists u user,
      normalizedUsername reqBody = Ok u
      /\ getUserByUsername u st = Ok (Some user)
      /\ passwordUtils_verify (get reqBody "password") (password user)
         = Ok true
      /\ get (body r) "user"
         = VObj [("id", VStr (id user)); ("username", VStr (username user));
                 ("role", VStr (str_or (Some (role user)) "user"))]
      /\ get (body r) "token"
         = VJwt (jwtUtils_generateToken cfg (now w) (id user) (username user)
                   (Some (str_or (Some (role user)) "user"))).
Proof.
  intros w req st r Hr Hs reqBody. unfold loginHandler in Hr.
  fold reqBody in Hr.
  destruct (normalizedUsername reqBody) as [u | e] eqn:Hu;
    [| discriminate Hr].
  destruct (negb _ || negb _);
    [injection Hr as <-; discriminate Hs |].
  destruct (getUserByUsername u st) as [[user |] | e] eqn:Hg;
    [| injection Hr as <-; discriminate Hs | discriminate Hr].
  destruct (passwordUtils_verify _ _) as [[|] | e] eqn:Hv;
    [| injection Hr as <-; discriminate Hs | discriminate Hr].
  injection Hr as <-. exists u, user.
  split; [reflexivity |]. split; [exact Hg |]. split; [exact Hv |].
  split; reflexivity.
Qed.

(** X23.  Over any store, a verification request is answered 200
    only when the store holds, under the email of the request, an
    entry whose token hash is the SHA-256 of the token of the request
    and whose expiry, if it has one, has not passed. *)
Theorem verification_succeeds_only_with_the_token :
  forall (w : World) (req : Request) (st : S) (r : Response),
    (fst (verifyWaitlistHandler w req st) = Respond r ->
     status r = 200 ->
     exists token email entry,
       query "token" (req_query req) = Some (QStr token)
       /\ query "email" (req_query req) = Some (QStr email)
       /\ getWaitlistEntryByEmail email st = Ok (Some entry)
       /\ wl_emailVerificationToken entry
          = Some (hashVerificationToken token)
       /\ forall expires,
            wl_emailVerificationExpires entry = Some expires ->
            now w <= expires)
    /\ (fst (verifyRegistrationHandler w req st) = Respond r ->
        status r = 200 ->
        exists token email user,
          query "token" (req_query req) = Some (QStr token)
          /\ query "email" (req_query req) = Some (QStr email)
          /\ getUserByUsername email st = Ok (Some user)
          /\ emailVerificationToken user = Some (hashVerificationToken token)
          /\ forall expires,
               emailVerificationExpires user = Some expires ->
               now w <= expires).
Proof.
  intros w req st r. split.
  - intros Hr Hs. unfold verifyWaitlistHandler in Hr.
    destruct (negb (truthyQ (query "token" (req_query req)))
              || negb (truthyQ (query "email" (req_query req))));
      [injection Hr as <-; discriminate Hs |].
    destruct (query "email" (req_query req))
      as [[email | items | fields] |] eqn:He;
      cbn [waitlistEntryFor verifyWaitlistEntryOf mbind option_bind] in Hr;
      try (injection Hr as <-; discriminate Hs).
    destruct (getWaitlistEntryByEmail email st) as [[entry |] | e] eqn:Hg;
      cbn [mbind option_bind] in Hr;
      [| injection Hr as <-; discriminate Hs | discriminate Hr].
    destruct (wl_emailVerificationToken entry) as [stored |] eqn:Hst;
      cbn [orNull] in Hr; [| injection Hr as <-; discriminate Hs].
    destruct (String.eqb stored "") eqn:Hse;
      [injection Hr as <-; discriminate Hs |].
    destruct (query "token" (req_query req))
      as [[token | items | fields] |] eqn:Ht;
      cbn [verifyTokenHashOf] in Hr; try discriminate Hr.
    destruct (verifyTokenHash token stored) as [[|] | e] eqn:Hv;
      [| injection Hr as <-; discriminate Hs | discriminate Hr].
    exists token, email, entry.
    split; [reflexivity |]. split; [reflexivity |]. split; [exact Hg |]. split.
    + rewrite Hst. f_equal.
      unfold verifyTokenHash, Crypto.timingSafeEqual in Hv.
      destruct (Nat.eqb_spec
                  (length (Crypto.bufferFrom (hashVerificationToken token)))
                  (length (Crypto.bufferFrom stored))) as [Hlen | Hlen];
        cbn [negb] in Hv; [| discriminate Hv].
      apply Ok_inj in Hv. apply Z.eqb_eq in Hv.
      apply (fixedTimeDiff_zero _ _ 0 Hlen) in Hv as [_ Hv].
      symmetry. apply bufferFrom_inj. exact Hv.
    + intros expires Hx. rewrite Hx in Hr.
      unfold isVerificationExpired in Hr.
      destruct (Z.gtb_spec (now w) expires);
        [injection Hr as <-; discriminate Hs | lia].
  - intros Hr Hs. unfold verifyRegistrationHandler in Hr.
    destruct (negb (truthyQ (query "token" (req_query req)))
              || negb (truthyQ (query "email" (req_query req))));
      [injection Hr as <-; discriminate Hs |].
    destruct (query "email" (req_query req))
      as [[email | items | fields] |] eqn:He;
      cbn [userFor verifyUserOf mbind option_bind] in Hr;
      try (injection Hr as <-; discriminate Hs).
    destruct (getUserByUsername email st) as [[user |] | e] eqn:Hg;
      cbn [mbind option_bind] in Hr;
      [| injection Hr as <-; discriminate Hs | discriminate Hr].
    destruct (emailVerificationToken user) as [stored |] eqn:Hst;
      cbn [orNull] in Hr; [| injection Hr as <-; discriminate Hs].
    destruct (String.eqb stored "") eqn:Hse;
      [injection Hr as <-; discriminate Hs |].
    destruct (query "token" (req_query req))
      as [[token | items | fields] |] eqn:Ht;
      cbn [verifyTokenHashOf] in Hr; try discriminate Hr.
    destruct (verifyTokenHash token stored) as [[|] | e] eqn:Hv;
      [| injection Hr as <-; discriminate Hs | discriminate Hr].
    exists token, email, user.
    split; [reflexivity |]. split; [reflexivity |]. split; [exact Hg |]. split.
    + rewrite Hst. f_equal.
      unfold verifyTokenHash, Crypto.timingSafeEqual in Hv.
      destruct (Nat.eqb_spec
                  (length (Crypto.bufferFrom (hashVerificationToken token)))
                  (length (Crypto.bufferFrom stored))) as [Hlen | Hlen];
        cbn [negb] in Hv; [| discriminate Hv].
      apply Ok_inj in Hv. apply Z.eqb_eq in Hv.
      apply (fixedTimeDiff_zero _ _ 0 Hlen) in Hv as [_ Hv].
      symmetry. apply bufferFrom_inj. exact Hv.
    + intros expires Hx. rewrite Hx in Hr.
      unfold isVerificationExpired in Hr.
      destruct (Z.gtb_spec (now w) expires);
        [injection Hr as <-; discriminate Hs | lia].
Qed.

End Soundness.

(** Kim logs in: the 200 traces back to Kim's record. *)
Lemma login_succeeds_only_with_a_verified_password_witness :
  let record :=
    BcryptRecord.hashedRecord "old-secret"
      (BcryptRecord.cost (Auth.BCRYPT_ROUNDS Auth.defaultConfig))
      [1; 2; 3; 4; 5; 6; 7; 8; 9; 10; 11; 12; 13; 14; 15; 16] in
  let kim := {|
    id := "k-1"; username := "kim@example.com"; password := record;
    role := "user"; emailVerified := None; emailVerificationToken := None;
    emailVerificationExpires := None; createdAt := 0; updatedAt := 0
  |} in
  let st := {| users := [("k-1", kim)]; waitlistEntries := [] |} in
  let req :=
    Scenario.publicRequest "203.0.113.7" None
      [("username", VStr "Kim@Example.com"); ("password", VStr "old-secret")]
  in
  exists u user,
    Routes.normalizedUsername (nullish (req_body req) (VObj [])) = Ok u
    /\ getUserByUsername u st = Ok (Some user)
    /\ Auth.passwordUtils_verify (VStr "old-secret") (password user) = Ok true.
Proof.
  intros record kim st req.
  assert (Hv : Auth.passwordUtils_verify (VStr "old-secret") (password kim)
               = Ok true).
  { unfold Auth.passwordUtils_verify. cbn [password kim]. unfold record.
    rewrite compare_hashedRecord by (apply cost_range || reflexivity).
    rewrite bool_decide_eq_true_2 by reflexivity. reflexivity. }
  pose proof (login_verify_result Auth.defaultConfig Scenario.world req st
                "kim@example.com" kim eq_refl eq_refl eq_refl eq_refl) as Hl.
  change (get (nullish (req_body req) (VObj [])) "password")
    with (VStr "old-secret") in Hl.
  rewrite Hv in Hl. destruct Hl as (r & Hr & Hs).
  destruct (login_succeeds_only_with_a_verified_password Auth.defaultConfig
              Scenario.world req st r)
    as (u & user & Hu & Hg & Hv' & _).
  - rewrite Hr. reflexivity.
  - exact Hs.
  - exists u, user. split; [exact Hu |]. split; [exact Hg | exact Hv'].
Defined.

(** Zoe's verification: the 200 traces back to the hash of her
    token. *)
Lemma verification_succeeds_only_with_the_token_witness :
  let req :=
    Scenario.queryRequest "203.0.113.7"
      [("token", "3f9a-token"); ("email", "zoe@example.com")] in
  exists token email entry,
    query "token" (req_query req) = Some (QStr token)
    /\ query "email" (req_query req) = Some (QStr email)
    /\ getWaitlistEntryByEmail email Scenario.pendingDb = Ok (Some entry)
    /\ wl_emailVerificationToken entry
       = Some (Verification.hashVerificationToken token).
Proof.
  intros req.
  destruct (verification_succeeds_only_with_the_token (S := DbStorage)
              Scenario.world req Scenario.pendingDb
              {| status := 200;
                 body :=
                   VObj [("message",
                          VStr "Email verified successfully! You've been added to the waitlist.")] |})
    as [Hw _].
  destruct Hw as (token & email & entry & Ht & He & Hg & Hh & _).
  - vm_compute. reflexivity.
  - reflexivity.
  - exists token, email, entry. auto.
Defined.

(** ** The profile routes *)

Section Profile.
Import Auth Routes Account.
Context {S : Type} {storage : IStorage S} {admin : IUserAdmin S}.
Variable cfg : Config.

(** X24.  GET /api/me answers from the store and gives nothing away:
    it never changes the store; for a token whose username is stored
    it answers 200 with the stored user's id, username, role,
    verification instant and creation instant, whatever role the token
    itself carries; and no answer of it, whichever, has a [password]
    or an [emailVerificationToken] field.  A token whose username is
    not stored gets 404. *)
Theorem getMe_reports_the_stored_user :
  forall (reqUser : option AuthUser) (st : S),
    snd (getMeHandler reqUser st) = st
    /\ (forall r,
          fst (getMeHandler reqUser st) = Respond r ->
          get (body r) "password" = VUndefined
          /\ get (body r) "emailVerificationToken" = VUndefined)
    /\ (forall u name user,
          reqUser = Some u -> au_username u = VStr name ->
          getUserByUsername name st = Ok (Some user) ->
          fst (getMeHandler reqUser st)
          = json 200
              [("id", VStr (id user));
               ("username", VStr (username user));
               ("role", VStr (role user));
               ("emailVerified", instant (emailVerified user));
               ("createdAt", VNum (createdAt user))])
    /\ (forall u name,
          reqUser = Some u -> au_username u = VStr name ->
          getUserByUsername name st = Ok None ->
          fst (getMeHandler reqUser st)
          = json 404 [("message", VStr "User not found")]).
Proof.
  intros reqUser st. unfold getMeHandler, currentUser.
  split; [| split; [| split]].
  - destruct reqUser as [u |]; [| reflexivity].
    destruct (au_username u); try reflexivity.
    destruct (getUserByUsername _ st) as [[user |] | e]; reflexivity.
  - intros r. destruct reqUser as [u |];
      [| intros [= <-]; split; reflexivity].
    destruct (au_username u);
      try (intros [= <-]; split; reflexivity).
    destruct (getUserByUsername _ st) as [[user |] | e];
      [| | discriminate]; intros [= <-]; split; reflexivity.
  - intros u name user -> Hu Hg. rewrite Hu, Hg. reflexivity.
  - intros u name -> Hu Hg. rewrite Hu, Hg. reflexivity.
Qed.

(** X25.  No password changes without the current one: after a
    PUT /api/me either the store is what it was, or the store holds a
    user under the username of the token,
    [passwordUtils.verify] accepted the [currentPassword] of the
    request against that user's record, and the answer is 200. *)
Theorem password_changes_only_with_the_current_one :
  forall (w : World) (reqUser : option AuthUser) (req : Request) (st : S),
    snd (putMeHandler cfg w reqUser req st) = st
    \/ exists u name user,
         reqUser = Some u
         /\ au_username u = VStr name
         /\ getUserByUsername name st = Ok (Some user)
         /\ passwordUtils_verify (get (req_body req) "currentPassword")
              (password user) = Ok true
         /\ fst (putMeHandler cfg w reqUser req st)
            = json 200 [("message", VStr "Profile updated successfully")].
Proof.
  intros w reqUser req st. unfold putMeHandler.
  destruct reqUser as [u |]; [| left; reflexivity].
  destruct (req_body req) as [| | b | n | s | t | fields];
    try (left; reflexivity).
  all: destruct (truthy _ && negb _); [left; reflexivity |].
  all: unfold currentUser.
  all: destruct (au_username u) as [| | | | name | |] eqn:Hu;
    try (left; reflexivity).
  all: destruct (getUserByUsername name st) as [[user |] | e] eqn:Hg;
    try (left; reflexivity).
  all: destruct (truthy _); [| left; reflexivity].
  all: destruct (passwordUtils_verify _ _) as [[|] | e] eqn:Hv;
    try (left; reflexivity).
  all: destruct (passwordUtils_hash _ _ _) as [h | e]; [| left; reflexivity].
  all: destruct (updateUser _ _ _ st) as [st' | e]; [| left; reflexivity].
  all: right; exists u, name, user.
  all: split; [reflexivity |]; split; [exact Hu |]; split; [exact Hg |].
  all: split; [exact Hv | reflexivity].
Qed.

End Profile.
